(** * spacemath: problem generator, game session and evolution ladder

    A shallow embedding of the TypeScript sources

      - [src/math/MathGenerator.ts]   (problem and distractor generation),
      - [src/models/Evolution.ts]     (experience ladder),
      - [src/game/scenes/GameScene.ts] (the session, in the two revisions
        the sources hold: with three lives, and with five lives and the
        [player:lives] event),
      - the Alpine application store  ([submitAnswer], [game:*] emitters,
        the listeners that sync its state from the scene, profile
        handling),
      - [src/services/EventBus.ts]    (the event bus),
      - [src/models/Profile.ts] and [src/services/StorageService.ts]
        (profiles and their persistence),

    together with the properties of them that the specification states
    and further properties that the code shows.

    Conventions.  A JavaScript [number] that the program only ever uses as
    an integer is a [Z]; the one place where a quotient is taken
    ([getEvolutionProgress]) uses [Q] extended with the IEEE special
    values.  [Math.random()] is a stream [nat -> Q] of draws; the clock
    [Date.now()] and everything decided by the physics engine (which
    bullet touches which enemy, which object left the screen) are inputs
    of the handler that reads them.  Events published on the [EventBus]
    are appended to the trace [emitted]. *)

From Stdlib Require Import ZArith QArith Qround Qminmax List Bool Lia String Ascii.
From Stdlib Require Import DecimalString.
From Stdlib Require Import Permutation.
From Equations Require Import Equations.
Import ListNotations.

Open Scope Z_scope.

(* ===================================================================== *)
(** * JavaScript values used by the sources                               *)
(* ===================================================================== *)

Module JS.

(** The result of an arithmetic expression that may divide: a finite
    rational or one of the IEEE special values.  A finite result is kept
    exact: the rounding of binary64 is not modelled, and a finite value
    stands for the double nearest to it; sign, order and the special
    values are those of the source. *)
Inductive number : Type :=
| Fin (q : Q)
| PosInf
| NegInf
| NaN.

(** [a / b] on integers. *)
Definition div (a b : Z) : number :=
  if b =? 0 then
    if a =? 0 then NaN else if 0 <? a then PosInf else NegInf
  else Fin (inject_Z a / inject_Z b)%Q.

(** [x * k] for a positive integer constant [k]. *)
Definition mulPos (x : number) (k : Z) : number :=
  match x with
  | Fin q => Fin (q * inject_Z k)%Q
  | other => other
  end.

(** [Math.min(k, x)] for an integer constant [k]. *)
Definition minWith (k : Z) (x : number) : number :=
  match x with
  | Fin q => Fin (Qmin (inject_Z k) q)
  | PosInf => Fin (inject_Z k)
  | NegInf => NegInf
  | NaN => NaN
  end.

(** [`${n}`] for an integer [n]. *)
Definition toString (n : Z) : string := NilZero.string_of_int (Z.to_int n).

(** [arr[i]]: [undefined] (here [None]) outside the array. *)
Definition index {T : Type} (arr : list T) (i : Z) : option T :=
  if i <? 0 then None else nth_error arr (Z.to_nat i).

(** [arr.splice(i, 1)] *)
Definition splice1 {T : Type} (arr : list T) (i : nat) : list T :=
  firstn i arr ++ skipn (S i) arr.

(** A [Set<number>]: its elements in insertion order, which is the order
    [Array.from] returns them in. *)
Definition NumberSet : Type := list Z.

Definition set_has (s : NumberSet) (x : Z) : bool := existsb (Z.eqb x) s.

Definition set_add (s : NumberSet) (x : Z) : NumberSet :=
  if set_has s x then s else s ++ [x].

Definition set_size (s : NumberSet) : Z := Z.of_nat (List.length s).

(** [for (let i = n - 1; i >= 0; i--) body(i)] on a state [S]. *)
Fixpoint downFrom {S : Type} (n : nat) (body : nat -> S -> S) (s : S) : S :=
  match n with
  | O => s
  | Datatypes.S i => downFrom i body (body i s)
  end.

(** ** [parseInt(text, 10)]

    A string is the list of the bytes of its UTF-8 encoding.  The result
    is [None] for [NaN]. *)

Definition code (c : ascii) : Z := Z.of_nat (nat_of_ascii c).

(** White space of one byte: TAB, LF, VT, FF, CR and the space. *)
Definition isSpace1 (c : ascii) : bool :=
  ((9 <=? code c) && (code c <=? 13)) || (code c =? 32).

(** U+00A0. *)
Definition isSpace2 (c1 c2 : ascii) : bool :=
  (code c1 =? 194) && (code c2 =? 160).

(** U+1680, U+2000 to U+200A, U+2028, U+2029, U+202F, U+205F, U+3000 and
    U+FEFF. *)
Definition isSpace3 (c1 c2 c3 : ascii) : bool :=
  ((code c1 =? 225) && (code c2 =? 154) && (code c3 =? 128))
  || ((code c1 =? 226) && (code c2 =? 128)
      && (((128 <=? code c3) && (code c3 <=? 138))
          || (code c3 =? 168) || (code c3 =? 169) || (code c3 =? 175)))
  || ((code c1 =? 226) && (code c2 =? 129) && (code c3 =? 159))
  || ((code c1 =? 227) && (code c2 =? 128) && (code c3 =? 128))
  || ((code c1 =? 239) && (code c2 =? 187) && (code c3 =? 191)).

Fixpoint trimStart (cs : list ascii) : list ascii :=
  match cs with
  | [] => []
  | c1 :: rest1 =>
      if isSpace1 c1 then trimStart rest1 else
      match rest1 with
      | [] => cs
      | c2 :: rest2 =>
          if isSpace2 c1 c2 then trimStart rest2 else
          match rest2 with
          | [] => cs
          | c3 :: rest3 => if isSpace3 c1 c2 c3 then trimStart rest3 else cs
          end
      end
  end.

Definition digitValue (c : ascii) : option Z :=
  if (48 <=? code c) && (code c <=? 57) then Some (code c - 48) else None.

(** The value of the longest prefix of decimal digits; [None] when the
    prefix is empty. *)
Fixpoint digitsValue (acc : Z) (seen : bool) (cs : list ascii) : option Z :=
  match cs with
  | c :: rest =>
      match digitValue c with
      | Some d => digitsValue (acc * 10 + d) true rest
      | None => if seen then Some acc else None
      end
  | [] => if seen then Some acc else None
  end.

Definition parseInt (text : string) : option Z :=
  match trimStart (list_ascii_of_string text) with
  | c :: rest =>
      if code c =? 45 then option_map Z.opp (digitsValue 0 false rest)
      else if code c =? 43 then digitsValue 0 false rest
      else digitsValue 0 false (c :: rest)
  | [] => None
  end.

End JS.

(* ===================================================================== *)
(** * src/models/Evolution.ts                                             *)
(* ===================================================================== *)

Module Evolution.

Record EvolutionStage : Type := {
  id : Z;
  name : string;
  emoji : string;
  xpRequired : Z
}.

Definition EVOLUTION_STAGES : list EvolutionStage :=
  [ {| id := 1; name := "Starter Shuttle"; emoji := "🛸"; xpRequired := 0 |};
    {| id := 2; name := "Scout Rocket"; emoji := "🚀"; xpRequired := 500 |};
    {| id := 3; name := "Orbital Skimmer"; emoji := "🛰️"; xpRequired := 1500 |};
    {| id := 4; name := "Ion Spear"; emoji := "☄️"; xpRequired := 3500 |};
    {| id := 5; name := "Nova Striker"; emoji := "✨"; xpRequired := 7000 |};
    {| id := 6; name := "Starforged Cruiser"; emoji := "🌌"; xpRequired := 12000 |};
    {| id := 7; name := "Celestial Apex"; emoji := "⭐"; xpRequired := 20000 |} ].

(** The body of [for (const evolution of EVOLUTION_STAGES)]: the stage is
    overwritten while the threshold is reached, and the first threshold
    that is not reached leaves the loop ([break]). *)
Fixpoint stageLoop (stages : list EvolutionStage) (xp stage : Z) : Z :=
  match stages with
  | [] => stage
  | evolution :: rest =>
      if xpRequired evolution <=? xp
      then stageLoop rest xp (id evolution)
      else stage
  end.

Definition getEvolutionStage (xp : Z) : Z :=
  stageLoop EVOLUTION_STAGES xp 1.

Definition findStage (stage : Z) : option EvolutionStage :=
  find (fun e => id e =? stage) EVOLUTION_STAGES.

(** [EVOLUTION_STAGES.find(e => e.id === stage) || EVOLUTION_STAGES[0]] *)
Definition getEvolutionByStage (stage : Z) : EvolutionStage :=
  match findStage stage with
  | Some e => e
  | None =>
      hd {| id := 1; name := "Starter Shuttle"; emoji := "🛸"; xpRequired := 0 |}
         EVOLUTION_STAGES
  end.

(** [EVOLUTION_STAGES.find(e => e.id === nextStage) || null] *)
Definition getNextEvolution (currentStage : Z) : option EvolutionStage :=
  let nextStage := currentStage + 1 in
  findStage nextStage.

Definition getXPToNextEvolution (currentXP currentStage : Z) : Z :=
  match getNextEvolution currentStage with
  | None => 0
  | Some next => Z.max 0 (xpRequired next - currentXP)
  end.

Definition getEvolutionProgress (currentXP currentStage : Z) : JS.number :=
  let current := getEvolutionByStage currentStage in
  match getNextEvolution currentStage with
  | None => JS.Fin (inject_Z 100)
  | Some next =>
      let xpInCurrentStage := currentXP - xpRequired current in
      let xpNeededForNext := xpRequired next - xpRequired current in
      JS.minWith 100 (JS.mulPos (JS.div xpInCurrentStage xpNeededForNext) 100)
  end.

(** The ladder of thresholds, in stage order. *)
Definition ladder : list Z := map xpRequired EVOLUTION_STAGES.

(** The threshold of the stage with ordinal [stage] (1-based). *)
Definition threshold (stage : Z) : Z := nth (Z.to_nat (stage - 1)) ladder 0.

(** A result of [getEvolutionProgress] read as a percentage. *)
Definition isPercentage (x : JS.number) : Prop :=
  match x with
  | JS.Fin q => (0 <= q)%Q /\ (q <= inject_Z 100)%Q
  | _ => False
  end.

End Evolution.

(* ===================================================================== *)
(** * src/math/types.ts and src/math/MathGenerator.ts                     *)
(* ===================================================================== *)

Module MathGenerator.

Inductive MathOperation : Type :=
| addition
| subtraction
| multiplication
| division.

Definition MathOperation_eqb (a b : MathOperation) : bool :=
  match a, b with
  | addition, addition
  | subtraction, subtraction
  | multiplication, multiplication
  | division, division => true
  | _, _ => false
  end.

Record MathProblem : Type := {
  operand1 : Z;
  operand2 : Z;
  operation : MathOperation;
  answer : Z;
  equation : string
}.

Record DifficultyConfig : Type := {
  level : Z;
  operations : list MathOperation;
  maxNumber : Z;
  maxMultiplier : Z
}.

Definition DIFFICULTY_CONFIGS : list DifficultyConfig :=
  [ {| level := 1; operations := [addition];
       maxNumber := 10; maxMultiplier := 5 |};
    {| level := 2; operations := [addition; subtraction];
       maxNumber := 15; maxMultiplier := 5 |};
    {| level := 3; operations := [addition; subtraction; multiplication];
       maxNumber := 20; maxMultiplier := 5 |};
    {| level := 4; operations := [addition; subtraction; multiplication; division];
       maxNumber := 50; maxMultiplier := 10 |};
    {| level := 5; operations := [addition; subtraction; multiplication; division];
       maxNumber := 100; maxMultiplier := 12 |} ].

Definition OPERATION_SYMBOLS (op : MathOperation) : string :=
  match op with
  | addition => "+"
  | subtraction => "-"
  | multiplication => "×"
  | division => "÷"
  end.

(** The generator object: [difficultyLevel] and the [config] selected for it. *)
Record t : Type := {
  difficultyLevel : Z;
  config : DifficultyConfig
}.

(** [DIFFICULTY_CONFIGS[level - 1]]; the clamp of the constructor keeps the
    index inside the table, so the default is never returned. *)
Definition configAt (lvl : Z) : DifficultyConfig :=
  nth (Z.to_nat (lvl - 1)) DIFFICULTY_CONFIGS
      {| level := 1; operations := [addition]; maxNumber := 10; maxMultiplier := 5 |}.

(** [new MathGenerator(difficultyLevel)] *)
Definition new (lvl : Z) : t :=
  let clamped := Z.min 5 (Z.max 1 lvl) in
  {| difficultyLevel := clamped; config := configAt clamped |}.

(** [setDifficulty(level)] *)
Definition setDifficulty (g : t) (lvl : Z) : t := new lvl.

(** [Math.floor(correctAnswer * 0.3)].  The double nearest to 0.3 lies
    below it by less than half a unit in the last place, so for the
    integers a game can reach the rounded product has the same floor as
    the exact [3 * correctAnswer / 10]. *)
Definition floorThreeTenths (correctAnswer : Z) : Z := (3 * correctAnswer) / 10.

(** [fallbackOffset > 0 ? -fallbackOffset : (-fallbackOffset + 1)] *)
Definition nextFallbackOffset (fallbackOffset : Z) : Z :=
  if 0 <? fallbackOffset then - fallbackOffset else - fallbackOffset + 1.

(** The largest element of a set of distractors, and 0 for the empty set. *)
Definition largest (s : JS.NumberSet) : Z := fold_left Z.max s 0.

(** What is left to do in the fallback loop: distractors still missing,
    then candidates [correctAnswer + k] still to try before they exceed
    every collected value, then the half step from [+k] to [-k]. *)
Definition fallbackMeasure (correctAnswer count : Z) (s : JS.NumberSet)
    (fallbackOffset : Z) : nat :=
  let k := if 0 <? fallbackOffset then fallbackOffset else - fallbackOffset + 1 in
  let half : nat := if 0 <? fallbackOffset then 0%nat else 1%nat in
  (2 * Z.to_nat (count - JS.set_size s)
   + 2 * Z.to_nat (largest s + 1 - (correctAnswer + k))
   + half)%nat.

(** The second loop of [generateWrongAnswers]:
    [while (wrongAnswers.size < count) { ... }].  The offset and the
    candidates are integers without bound; the source's are doubles,
    which are these integers as long as they stay below 2^53. *)
Equations? fallbackLoop (correctAnswer count : Z) (wrongAnswers : JS.NumberSet)
    (fallbackOffset : Z) : JS.NumberSet
    by wf (fallbackMeasure correctAnswer count wrongAnswers fallbackOffset) lt :=
  fallbackLoop correctAnswer count wrongAnswers fallbackOffset
    with Z_lt_dec (JS.set_size wrongAnswers) count := {
    | left _ =>
        let candidate := correctAnswer + fallbackOffset in
        fallbackLoop correctAnswer count
          (if (0 <? candidate) && negb (candidate =? correctAnswer)
              && negb (JS.set_has wrongAnswers candidate)
           then JS.set_add wrongAnswers candidate
           else wrongAnswers)
          (nextFallbackOffset fallbackOffset)
    | right _ => wrongAnswers }.
Proof.
  assert (Hacc : forall (xs : list Z) (a : Z), a <= fold_left Z.max xs a).
  { intro xs; induction xs as [|y xs IH]; intro a; simpl; [lia|].
    specialize (IH (Z.max a y)). lia. }
  assert (Hmax : forall (xs : list Z) (a x : Z),
             In x xs -> x <= fold_left Z.max xs a).
  { intro xs; induction xs as [|y xs IH]; intros a x Hin; simpl in *; [contradiction|].
    destruct Hin as [->|Hin]; [|now apply IH].
    specialize (Hacc xs (Z.max a x)). lia. }
  subst candidate. clear fallbackLoop.
  unfold fallbackMeasure, nextFallbackOffset, largest, JS.set_add, JS.set_size in *.
  pose proof (Hacc wrongAnswers 0) as Hl.
  destruct (0 <? correctAnswer + fallbackOffset) eqn:Hpos;
    destruct (correctAnswer + fallbackOffset =? correctAnswer) eqn:Heq;
    destruct (JS.set_has wrongAnswers (correctAnswer + fallbackOffset)) eqn:Hhas;
    cbn [andb negb];
    try rewrite length_app; try rewrite fold_left_app; cbn [List.length fold_left];
    try (apply existsb_exists in Hhas; destruct Hhas as [y [Hy Hyeq]];
         apply Z.eqb_eq in Hyeq; subst y;
         pose proof (Hmax wrongAnswers 0 _ Hy) as Hle);
    destruct (0 <? fallbackOffset) eqn:Hoff;
    destruct (0 <? - fallbackOffset) eqn:Hoff';
    destruct (0 <? - fallbackOffset + 1) eqn:Hoff'';
    lia.
Qed.

(** ** The random source

    [random k] is the value of the [k]-th call of [Math.random()] made
    while a function runs; a computation that draws is a function of the
    number of draws made so far and returns the new number with its
    result. *)

Definition Rand (A : Type) : Type := nat -> A * nat.

Definition ret {A : Type} (a : A) : Rand A := fun k => (a, k).

Definition bind {A B : Type} (m : Rand A) (f : A -> Rand B) : Rand B :=
  fun k => let (a, k') := m k in f a k'.

Notation "x <- m ;; f" := (bind m (fun x => f))
  (at level 61, m at next level, right associativity).

Section RandomSource.

Variable random : nat -> Q.

(** [Math.random()] *)
Definition draw : Rand Q := fun k => (random k, S k).

(** [Math.floor(Math.random() * (max - min + 1)) + min] *)
Definition randomInt (min max : Z) : Rand Z :=
  r <- draw ;;
  ret (Qfloor (r * inject_Z (max - min + 1)) + min).

(** [arr[Math.floor(Math.random() * arr.length)]] *)
Definition randomChoice {T : Type} (arr : list T) : Rand (option T) :=
  r <- draw ;;
  ret (JS.index arr (Qfloor (r * inject_Z (Z.of_nat (List.length arr))))).

Definition generateAddition (g : t) : Rand MathProblem :=
  operand1 <- randomInt 1 (maxNumber (config g)) ;;
  operand2 <- randomInt 1 (maxNumber (config g)) ;;
  let answer := operand1 + operand2 in
  ret {| operand1 := operand1;
         operand2 := operand2;
         operation := addition;
         answer := answer;
         equation := JS.toString operand1 ++ " + " ++ JS.toString operand2 ++ " = ?" |}.

Definition generateSubtraction (g : t) : Rand MathProblem :=
  a <- randomInt 1 (maxNumber (config g)) ;;
  b <- randomInt 1 (maxNumber (config g)) ;;
  (* if (operand2 > operand1) [operand1, operand2] = [operand2, operand1] *)
  let (operand1, operand2) := if a <? b then (b, a) else (a, b) in
  let answer := operand1 - operand2 in
  ret {| operand1 := operand1;
         operand2 := operand2;
         operation := subtraction;
         answer := answer;
         equation := JS.toString operand1 ++ " - " ++ JS.toString operand2 ++ " = ?" |}.

Definition generateMultiplication (g : t) : Rand MathProblem :=
  operand1 <- randomInt 1 (maxMultiplier (config g)) ;;
  operand2 <- randomInt 1 (maxMultiplier (config g)) ;;
  let answer := operand1 * operand2 in
  ret {| operand1 := operand1;
         operand2 := operand2;
         operation := multiplication;
         answer := answer;
         equation := JS.toString operand1 ++ " × " ++ JS.toString operand2 ++ " = ?" |}.

Definition generateDivision (g : t) : Rand MathProblem :=
  divisor <- randomInt 1 (maxMultiplier (config g)) ;;
  quotient <- randomInt 1 (maxMultiplier (config g)) ;;
  let dividend := divisor * quotient in
  ret {| operand1 := dividend;
         operand2 := divisor;
         operation := division;
         answer := quotient;
         equation := JS.toString dividend ++ " ÷ " ++ JS.toString divisor ++ " = ?" |}.

(** [this.config.operations.includes(op)] *)
Definition includes (ops : list MathOperation) (op : MathOperation) : bool :=
  existsb (MathOperation_eqb op) ops.

(** [generate(preferredOperation?)]: an absent argument is [None]; so is
    the [undefined] that [randomChoice] returns outside the array, which
    the [switch] sends to its [default] branch. *)
Definition generate (g : t) (preferredOperation : option MathOperation)
    : Rand MathProblem :=
  operation <-
    match preferredOperation with
    | Some preferred =>
        if includes (operations (config g)) preferred
        then ret (Some preferred)
        else randomChoice (operations (config g))
    | None => randomChoice (operations (config g))
    end ;;
  match operation with
  | Some addition => generateAddition g
  | Some subtraction => generateSubtraction g
  | Some multiplication => generateMultiplication g
  | Some division => generateDivision g
  | None => generateAddition g
  end.

Definition maxAttempts : nat := 100.

(** The first loop of [generateWrongAnswers]:
    [while (wrongAnswers.size < count && attempts < maxAttempts)], with
    [remaining = maxAttempts - attempts]. *)
Fixpoint randomLoop (remaining : nat) (correctAnswer count : Z)
    (wrongAnswers : JS.NumberSet) : Rand JS.NumberSet :=
  match remaining with
  | O => ret wrongAnswers
  | S remaining' =>
      if JS.set_size wrongAnswers <? count then
        offset <- randomInt 1 (Z.max 5 (floorThreeTenths correctAnswer + 1)) ;;
        r <- draw ;;
        let sign := if Qle_bool r (1 # 2) then -1 else 1 in
        let wrongAnswer := correctAnswer + offset * sign in
        randomLoop remaining' correctAnswer count
          (if (0 <? wrongAnswer) && negb (wrongAnswer =? correctAnswer)
           then JS.set_add wrongAnswers wrongAnswer
           else wrongAnswers)
      else ret wrongAnswers
  end.

(** [generateWrongAnswers(correctAnswer, count)]; a call that leaves
    [count] out passes its default, 3. *)
Definition generateWrongAnswers (correctAnswer count : Z) : Rand (list Z) :=
  wrongAnswers <- randomLoop maxAttempts correctAnswer count [] ;;
  ret (fallbackLoop correctAnswer count wrongAnswers 1).

End RandomSource.

(** A random source is well formed when every draw lies in [[0, 1)]. *)
Definition unitInterval (random : nat -> Q) : Prop :=
  forall k, (0 <= random k)%Q /\ (random k < 1)%Q.

(** The exact result of applying an operation to two operands. *)
Definition applyOperation (op : MathOperation) (a b : Z) : option Z :=
  match op with
  | addition => Some (a + b)
  | subtraction => Some (a - b)
  | multiplication => Some (a * b)
  | division => if (b =? 0) || negb (a mod b =? 0) then None else Some (a / b)
  end.

End MathGenerator.

(* ===================================================================== *)
(** * src/game/scenes/GameScene.ts                                        *)
(* ===================================================================== *)

(** The scene object.  Rendering and audio calls are left out; what the
    engine decides is an input:

      - every Phaser container has an identity, a number; [objects]
        counts the containers created so far;
      - [timers] counts the pending [this.time.delayedCall] callbacks: all
        of them generate the next problem unless the game is over;
      - [submitListeners] counts the [answer:submit] listeners the scene
        has registered on the [EventBus] ([setupEventListeners] adds one
        at every [create] and none is ever removed);
      - [emitted] is the trace of the events the scene has published. *)

Module GameScene.

Import MathGenerator.

Inductive GameMode : Type :=
| shoot
| type.

Record EnemyData : Type := {
  container : nat;
  answerValue : Z;
  isCorrect : bool
}.

(** The events of [GameEventData] that the scene publishes, with their
    payloads. *)
Inductive Emitted : Type :=
| problem_new (equation : string) (answer : Z) (wrongAnswers : option (list Z))
| answer_correct (xp : Z) (streak : Z)
| answer_wrong
| score_update (score : Z) (streak : Z)
| player_lives (lives : Z)
| game_over (score : Z) (correct : Z) (xpEarned : Z) (bestStreak : Z).

(** The sources hold the scene in two revisions.  The later one starts a
    session with five lives and publishes [player:lives] whenever the
    number of lives is set; [src/game/scenes/GameScene.ts] starts with
    three lives and has no such event.  They agree on everything else
    that is modelled here. *)
Inductive Revision : Type :=
| FiveLives
| ThreeLives.

Definition startLives (revision : Revision) : Z :=
  match revision with
  | FiveLives => 5
  | ThreeLives => 3
  end.

Definition publishesLives (revision : Revision) : bool :=
  match revision with
  | FiveLives => true
  | ThreeLives => false
  end.

Record t : Type := {
  enemies : list EnemyData;
  bullets : list nat;
  mathGenerator : option MathGenerator.t;
  currentProblem : option MathProblem;
  gameMode : GameMode;
  difficulty : Z;
  evolutionStage : Z;
  score : Z;
  streak : Z;
  bestStreak : Z;
  correctAnswers : Z;
  xpEarned : Z;
  problemStartTime : Z;
  isGameOver : bool;
  isPaused : bool;
  playerLives : Z;
  lastFireTime : Z;
  fireDelay : Z;
  objects : nat;
  timers : nat;
  submitListeners : nat;
  emitted : list Emitted
}.

Definition set_enemies (v : list EnemyData) (s : t) : t :=
  Build_t v (bullets s) (mathGenerator s) (currentProblem s) (gameMode s)
    (difficulty s) (evolutionStage s) (score s) (streak s) (bestStreak s)
    (correctAnswers s) (xpEarned s) (problemStartTime s) (isGameOver s)
    (isPaused s) (playerLives s) (lastFireTime s) (fireDelay s) (objects s)
    (timers s) (submitListeners s) (emitted s).

Definition set_bullets (v : list nat) (s : t) : t :=
  Build_t (enemies s) v (mathGenerator s) (currentProblem s) (gameMode s)
    (difficulty s) (evolutionStage s) (score s) (streak s) (bestStreak s)
    (correctAnswers s) (xpEarned s) (problemStartTime s) (isGameOver s)
    (isPaused s) (playerLives s) (lastFireTime s) (fireDelay s) (objects s)
    (timers s) (submitListeners s) (emitted s).

Definition set_mathGenerator (v : option MathGenerator.t) (s : t) : t :=
  Build_t (enemies s) (bullets s) v (currentProblem s) (gameMode s)
    (difficulty s) (evolutionStage s) (score s) (streak s) (bestStreak s)
    (correctAnswers s) (xpEarned s) (problemStartTime s) (isGameOver s)
    (isPaused s) (playerLives s) (lastFireTime s) (fireDelay s) (objects s)
    (timers s) (submitListeners s) (emitted s).

Definition set_currentProblem (v : option MathProblem) (s : t) : t :=
  Build_t (enemies s) (bullets s) (mathGenerator s) v (gameMode s)
    (difficulty s) (evolutionStage s) (score s) (streak s) (bestStreak s)
    (correctAnswers s) (xpEarned s) (problemStartTime s) (isGameOver s)
    (isPaused s) (playerLives s) (lastFireTime s) (fireDelay s) (objects s)
    (timers s) (submitListeners s) (emitted s).

Definition set_gameMode (v : GameMode) (s : t) : t :=
  Build_t (enemies s) (bullets s) (mathGenerator s) (currentProblem s) v
    (difficulty s) (evolutionStage s) (score s) (streak s) (bestStreak s)
    (correctAnswers s) (xpEarned s) (problemStartTime s) (isGameOver s)
    (isPaused s) (playerLives s) (lastFireTime s) (fireDelay s) (objects s)
    (timers s) (submitListeners s) (emitted s).

Definition set_difficulty (v : Z) (s : t) : t :=
  Build_t (enemies s) (bullets s) (mathGenerator s) (currentProblem s)
    (gameMode s) v (evolutionStage s) (score s) (streak s) (bestStreak s)
    (correctAnswers s) (xpEarned s) (problemStartTime s) (isGameOver s)
    (isPaused s) (playerLives s) (lastFireTime s) (fireDelay s) (objects s)
    (timers s) (submitListeners s) (emitted s).

Definition set_evolutionStage (v : Z) (s : t) : t :=
  Build_t (enemies s) (bullets s) (mathGenerator s) (currentProblem s)
    (gameMode s) (difficulty s) v (score s) (streak s) (bestStreak s)
    (correctAnswers s) (xpEarned s) (problemStartTime s) (isGameOver s)
    (isPaused s) (playerLives s) (lastFireTime s) (fireDelay s) (objects s)
    (timers s) (submitListeners s) (emitted s).

Definition set_score (v : Z) (s : t) : t :=
  Build_t (enemies s) (bullets s) (mathGenerator s) (currentProblem s)
    (gameMode s) (difficulty s) (evolutionStage s) v (streak s) (bestStreak
    s) (correctAnswers s) (xpEarned s) (problemStartTime s) (isGameOver s)
    (isPaused s) (playerLives s) (lastFireTime s) (fireDelay s) (objects s)
    (timers s) (submitListeners s) (emitted s).

Definition set_streak (v : Z) (s : t) : t :=
  Build_t (enemies s) (bullets s) (mathGenerator s) (currentProblem s)
    (gameMode s) (difficulty s) (evolutionStage s) (score s) v (bestStreak
    s) (correctAnswers s) (xpEarned s) (problemStartTime s) (isGameOver s)
    (isPaused s) (playerLives s) (lastFireTime s) (fireDelay s) (objects s)
    (timers s) (submitListeners s) (emitted s).

Definition set_bestStreak (v : Z) (s : t) : t :=
  Build_t (enemies s) (bullets s) (mathGenerator s) (currentProblem s)
    (gameMode s) (difficulty s) (evolutionStage s) (score s) (streak s) v
    (correctAnswers s) (xpEarned s) (problemStartTime s) (isGameOver s)
    (isPaused s) (playerLives s) (lastFireTime s) (fireDelay s) (objects s)
    (timers s) (submitListeners s) (emitted s).

Definition set_correctAnswers (v : Z) (s : t) : t :=
  Build_t (enemies s) (bullets s) (mathGenerator s) (currentProblem s)
    (gameMode s) (difficulty s) (evolutionStage s) (score s) (streak s)
    (bestStreak s) v (xpEarned s) (problemStartTime s) (isGameOver s)
    (isPaused s) (playerLives s) (lastFireTime s) (fireDelay s) (objects s)
    (timers s) (submitListeners s) (emitted s).

Definition set_xpEarned (v : Z) (s : t) : t :=
  Build_t (enemies s) (bullets s) (mathGenerator s) (currentProblem s)
    (gameMode s) (difficulty s) (evolutionStage s) (score s) (streak s)
    (bestStreak s) (correctAnswers s) v (problemStartTime s) (isGameOver s)
    (isPaused s) (playerLives s) (lastFireTime s) (fireDelay s) (objects s)
    (timers s) (submitListeners s) (emitted s).

Definition set_problemStartTime (v : Z) (s : t) : t :=
  Build_t (enemies s) (bullets s) (mathGenerator s) (currentProblem s)
    (gameMode s) (difficulty s) (evolutionStage s) (score s) (streak s)
    (bestStreak s) (correctAnswers s) (xpEarned s) v (isGameOver s)
    (isPaused s) (playerLives s) (lastFireTime s) (fireDelay s) (objects s)
    (timers s) (submitListeners s) (emitted s).

Definition set_isGameOver (v : bool) (s : t) : t :=
  Build_t (enemies s) (bullets s) (mathGenerator s) (currentProblem s)
    (gameMode s) (difficulty s) (evolutionStage s) (score s) (streak s)
    (bestStreak s) (correctAnswers s) (xpEarned s) (problemStartTime s) v
    (isPaused s) (playerLives s) (lastFireTime s) (fireDelay s) (objects s)
    (timers s) (submitListeners s) (emitted s).

Definition set_isPaused (v : bool) (s : t) : t :=
  Build_t (enemies s) (bullets s) (mathGenerator s) (currentProblem s)
    (gameMode s) (difficulty s) (evolutionStage s) (score s) (streak s)
    (bestStreak s) (correctAnswers s) (xpEarned s) (problemStartTime s)
    (isGameOver s) v (playerLives s) (lastFireTime s) (fireDelay s) (objects
    s) (timers s) (submitListeners s) (emitted s).

Definition set_playerLives (v : Z) (s : t) : t :=
  Build_t (enemies s) (bullets s) (mathGenerator s) (currentProblem s)
    (gameMode s) (difficulty s) (evolutionStage s) (score s) (streak s)
    (bestStreak s) (correctAnswers s) (xpEarned s) (problemStartTime s)
    (isGameOver s) (isPaused s) v (lastFireTime s) (fireDelay s) (objects s)
    (timers s) (submitListeners s) (emitted s).

Definition set_lastFireTime (v : Z) (s : t) : t :=
  Build_t (enemies s) (bullets s) (mathGenerator s) (currentProblem s)
    (gameMode s) (difficulty s) (evolutionStage s) (score s) (streak s)
    (bestStreak s) (correctAnswers s) (xpEarned s) (problemStartTime s)
    (isGameOver s) (isPaused s) (playerLives s) v (fireDelay s) (objects s)
    (timers s) (submitListeners s) (emitted s).

Definition set_objects (v : nat) (s : t) : t :=
  Build_t (enemies s) (bullets s) (mathGenerator s) (currentProblem s)
    (gameMode s) (difficulty s) (evolutionStage s) (score s) (streak s)
    (bestStreak s) (correctAnswers s) (xpEarned s) (problemStartTime s)
    (isGameOver s) (isPaused s) (playerLives s) (lastFireTime s) (fireDelay
    s) v (timers s) (submitListeners s) (emitted s).

Definition set_timers (v : nat) (s : t) : t :=
  Build_t (enemies s) (bullets s) (mathGenerator s) (currentProblem s)
    (gameMode s) (difficulty s) (evolutionStage s) (score s) (streak s)
    (bestStreak s) (correctAnswers s) (xpEarned s) (problemStartTime s)
    (isGameOver s) (isPaused s) (playerLives s) (lastFireTime s) (fireDelay
    s) (objects s) v (submitListeners s) (emitted s).

Definition set_submitListeners (v : nat) (s : t) : t :=
  Build_t (enemies s) (bullets s) (mathGenerator s) (currentProblem s)
    (gameMode s) (difficulty s) (evolutionStage s) (score s) (streak s)
    (bestStreak s) (correctAnswers s) (xpEarned s) (problemStartTime s)
    (isGameOver s) (isPaused s) (playerLives s) (lastFireTime s) (fireDelay
    s) (objects s) (timers s) v (emitted s).

Definition set_emitted (v : list Emitted) (s : t) : t :=
  Build_t (enemies s) (bullets s) (mathGenerator s) (currentProblem s)
    (gameMode s) (difficulty s) (evolutionStage s) (score s) (streak s)
    (bestStreak s) (correctAnswers s) (xpEarned s) (problemStartTime s)
    (isGameOver s) (isPaused s) (playerLives s) (lastFireTime s) (fireDelay
    s) (objects s) (timers s) (submitListeners s) v.


Definition emit (e : Emitted) (s : t) : t :=
  set_emitted (emitted s ++ [e]) s.

(** The object after its field initialisers have run. *)
Definition fresh (revision : Revision) : t := {|
  enemies := [];
  bullets := [];
  mathGenerator := None;
  currentProblem := None;
  gameMode := shoot;
  difficulty := 1;
  evolutionStage := 1;
  score := 0;
  streak := 0;
  bestStreak := 0;
  correctAnswers := 0;
  xpEarned := 0;
  problemStartTime := 0;
  isGameOver := false;
  isPaused := false;
  playerLives := startLives revision;
  lastFireTime := 0;
  fireDelay := 250;
  objects := 0;
  timers := 0;
  submitListeners := 0;
  emitted := []
|}.

(** The argument of [init]. *)
Record InitData : Type := {
  mode : GameMode;
  data_difficulty : Z;
  data_evolutionStage : Z
}.

(** [n || 1] on a number. *)
Definition orOne (n : Z) : Z := if n =? 0 then 1 else n.

(** [emitLivesUpdate()], a method and calls that only one revision has. *)
Definition emitLivesUpdate (revision : Revision) (s : t) : t :=
  if publishesLives revision then emit (player_lives (playerLives s)) s else s.

Definition init (revision : Revision) (data : InitData) (s : t) : t :=
  let s := set_gameMode (mode data) s in
  let s := set_difficulty (orOne (data_difficulty data)) s in
  let s := set_evolutionStage (orOne (data_evolutionStage data)) s in
  let s := set_score 0 s in
  let s := set_streak 0 s in
  let s := set_bestStreak 0 s in
  let s := set_correctAnswers 0 s in
  let s := set_xpEarned 0 s in
  let s := set_isGameOver false s in
  let s := set_isPaused false s in
  let s := set_playerLives (startLives revision) s in
  let s := set_currentProblem None s in
  let s := set_enemies [] s in
  let s := set_bullets [] s in
  emitLivesUpdate revision s.

(** [this.time.delayedCall(delay, () => { if (!this.isGameOver)
    this.generateNewProblem(); })] *)
Definition delayedCall (s : t) : t := set_timers (S (timers s)) s.

(** [setupEventListeners]: one more [answer:submit] listener; the
    [game:pause], [game:resume] and [game:quit] listeners it adds repeat
    what the ones already there do. *)
Definition setupEventListeners (s : t) : t :=
  set_submitListeners (S (submitListeners s)) s.

Definition create (s : t) : t :=
  let s := set_mathGenerator (Some (MathGenerator.new (difficulty s))) s in
  let s := setupEventListeners s in
  delayedCall s.

Definition clearEnemies (s : t) : t := set_enemies [] s.

Definition createEnemy (answer : Z) (isCorrect : bool) (s : t) : EnemyData * t :=
  ({| container := objects s; answerValue := answer; isCorrect := isCorrect |},
   set_objects (S (objects s)) s).

(** [[answers[i], answers[j]] = [answers[j], answers[i]]]; both indices lie
    inside the array for draws in [[0, 1)], and the array is left as it is
    otherwise. *)
Definition swap (answers : list Z) (i j : nat) : list Z :=
  match nth_error answers i, nth_error answers j with
  | Some ai, Some aj =>
      let answers' := firstn i answers ++ aj :: skipn (S i) answers in
      firstn j answers' ++ ai :: skipn (S j) answers'
  | _, _ => answers
  end.

Section Shuffle.

Variable random : nat -> Q.

(** [for (let i = answers.length - 1; i > 0; i--)] with
    [j = Math.floor(Math.random() * (i + 1))]. *)
Fixpoint shuffleLoop (i : nat) (answers : list Z) : Rand (list Z) :=
  match i with
  | O => ret answers
  | S i' =>
      r <- draw random ;;
      let j := Qfloor (r * inject_Z (Z.of_nat i + 1)) in
      shuffleLoop i' (swap answers i (Z.to_nat j))
  end.

End Shuffle.

(** [answers.forEach((answer, index) => { ... this.enemies.push(enemyData) })] *)
Fixpoint pushEnemies (answers : list Z) (correctAnswer : Z) (s : t) : t :=
  match answers with
  | [] => s
  | answer :: rest =>
      let (enemyData, s) := createEnemy answer (answer =? correctAnswer) s in
      pushEnemies rest correctAnswer (set_enemies (enemies s ++ [enemyData]) s)
  end.

Definition spawnAnswerEnemies (random : nat -> Q) (correctAnswer : Z)
    (wrongAnswers : list Z) (s : t) : Rand t :=
  let answers := correctAnswer :: wrongAnswers in
  answers <- shuffleLoop random (List.length answers - 1) answers ;;
  ret (pushEnemies answers correctAnswer s).

Definition spawnTypeEnemy (s : t) : t :=
  let (enemyData, s) := createEnemy 0 true s in
  set_enemies (enemies s ++ [enemyData]) s.

(** [generateNewProblem]: [random] is the stream of the draws made during
    the call and [now] the value of [Date.now()]. *)
Definition generateNewProblem (random : nat -> Q) (now : Z) (s : t) : t :=
  if isGameOver s then s else
  match mathGenerator s with
  | None => s
  | Some generator =>
      let (problem, k) := generate random generator None O in
      let s := set_currentProblem (Some problem) s in
      let s := set_problemStartTime now s in
      let s := clearEnemies s in
      match gameMode s with
      | shoot =>
          let (wrongAnswers, k) :=
            generateWrongAnswers random (answer problem) 3 k in
          let s := emit (problem_new (equation problem) (answer problem)
                           (Some wrongAnswers)) s in
          fst (spawnAnswerEnemies random (answer problem) wrongAnswers s k)
      | type =>
          let s := emit (problem_new (equation problem) (answer problem) None) s in
          spawnTypeEnemy s
      end
  end.

Definition fire (now : Z) (s : t) : t :=
  if now - lastFireTime s <? fireDelay s then s else
  let s := set_lastFireTime now s in
  let bullet := objects s in
  let s := set_objects (S (objects s)) s in
  set_bullets (bullets s ++ [bullet]) s.

Definition gameOver (s : t) : t :=
  let s := set_isGameOver true s in
  emit (game_over (score s) (correctAnswers s) (xpEarned s) (bestStreak s)) s.

Definition handleCorrectAnswer (now : Z) (s : t) : t :=
  let s := set_correctAnswers (correctAnswers s + 1) s in
  let s := set_streak (streak s + 1) s in
  let s := if bestStreak s <? streak s then set_bestStreak (streak s) s else s in
  let timeBonus := if now - problemStartTime s <? 3000 then 5 else 0 in
  let streakBonus := Z.min 20 (streak s * 2) in
  let xp := 10 + timeBonus + streakBonus in
  let s := set_xpEarned (xpEarned s + xp) s in
  let s := set_score (score s + (100 + streakBonus * 5)) s in
  let s := emit (answer_correct xp (streak s)) s in
  let s := emit (score_update (score s) (streak s)) s in
  delayedCall s.

Definition handleWrongAnswer (revision : Revision) (s : t) : t :=
  let s := set_streak 0 s in
  let s := set_playerLives (playerLives s - 1) s in
  let s := emitLivesUpdate revision s in
  let s := emit answer_wrong s in
  let s := emit (score_update (score s) (streak s)) s in
  if playerLives s <=? 0 then gameOver s else s.

(** [enemy.answerValue === this.currentProblem?.answer] *)
Definition isAnswer (s : t) (value : Z) : bool :=
  match currentProblem s with
  | Some problem => value =? answer problem
  | None => false
  end.

Definition checkTypedAnswer (revision : Revision) (answer : Z) (now : Z) (s : t)
    : t :=
  match currentProblem s with
  | None => s
  | Some problem =>
      if answer =? MathGenerator.answer problem then
        let s := match enemies s with
                 | [] => s
                 | _ :: _ => set_enemies [] s
                 end in
        handleCorrectAnswer now s
      else handleWrongAnswer revision s
  end.

(** What the engine reports during one call of [update]: the clock,
    whether the cursor keys exist and the space key is down, and the
    geometry ([touches b e]: bullet [b] is closer than 35 to enemy [e];
    [bulletGone b]: [y < -20]; [enemyGone e]: [y > height + 50]). *)
Record Frame : Type := {
  now : Z;
  spaceDown : bool;
  touches : nat -> nat -> bool;
  bulletGone : nat -> bool;
  enemyGone : nat -> bool
}.

(** The inner loop of [checkBulletEnemyCollision]: the index of the last
    enemy, below [j], that the bullet touches. *)
Fixpoint findTouched (frame : Frame) (bullet : nat) (es : list EnemyData)
    (j : nat) : option nat :=
  match j with
  | O => None
  | S j' =>
      match nth_error es j' with
      | Some enemy =>
          if touches frame bullet (container enemy) then Some j'
          else findTouched frame bullet es j'
      | None => findTouched frame bullet es j'
      end
  end.

Definition collide (revision : Revision) (frame : Frame) (i : nat) (s : t) : t :=
  match nth_error (bullets s) i with
  | None => s
  | Some bullet =>
      match findTouched frame bullet (enemies s) (List.length (enemies s)) with
      | None => s
      | Some j =>
          match nth_error (enemies s) j with
          | None => s
          | Some enemy =>
              let s := set_bullets (JS.splice1 (bullets s) i) s in
              let s :=
                match gameMode s with
                | shoot =>
                    if isAnswer s (answerValue enemy)
                    then handleCorrectAnswer (now frame) s
                    else handleWrongAnswer revision s
                | type => s
                end in
              set_enemies (JS.splice1 (enemies s) j) s
          end
      end
  end.

Definition checkBulletEnemyCollision (revision : Revision) (frame : Frame) (s : t)
    : t :=
  JS.downFrom (List.length (bullets s)) (collide revision frame) s.

Definition dropBullet (frame : Frame) (i : nat) (s : t) : t :=
  match nth_error (bullets s) i with
  | None => s
  | Some bullet =>
      if bulletGone frame bullet
      then set_bullets (JS.splice1 (bullets s) i) s
      else s
  end.

Definition isType (m : GameMode) : bool :=
  match m with
  | type => true
  | shoot => false
  end.

(** The body of the loop "Check if enemies reached bottom (missed)". *)
Definition missEnemy (revision : Revision) (frame : Frame) (i : nat) (s : t) : t :=
  match nth_error (enemies s) i with
  | None => s
  | Some enemy =>
      if enemyGone frame (container enemy) then
        let s := if isCorrect enemy || isType (gameMode s)
                 then handleWrongAnswer revision s
                 else s in
        let s := set_enemies (JS.splice1 (enemies s) i) s in
        if (Nat.eqb (List.length (enemies s)) 0) && negb (isGameOver s)
        then delayedCall s
        else s
      else s
  end.

Definition update (revision : Revision) (frame : Frame) (s : t) : t :=
  if isGameOver s || isPaused s then s else
  let s := match gameMode s with
           | shoot => if spaceDown frame then fire (now frame) s else s
           | type => s
           end in
  let s := checkBulletEnemyCollision revision frame s in
  let s := JS.downFrom (List.length (bullets s)) (dropBullet frame) s in
  JS.downFrom (List.length (enemies s)) (missEnemy revision frame) s.

Definition cleanup (s : t) : t :=
  let s := clearEnemies s in
  set_bullets [] s.

(** ** The listeners registered by [setupEventListeners] *)

Definition onAnswerSubmit (revision : Revision) (answer : Z) (now : Z) (s : t)
    : t :=
  if isType (gameMode s) && negb (isGameOver s) && negb (isPaused s)
  then checkTypedAnswer revision answer now s
  else s.

Definition onPause (s : t) : t := set_isPaused true s.

Definition onResume (s : t) : t := set_isPaused false s.

Definition onQuit (s : t) : t := cleanup s.

(** ** What can happen to the scene *)

Inductive Input : Type :=
| SceneStart (data : InitData)
| TimerFired (random : nat -> Q) (now : Z)
| Update (frame : Frame)
| AnswerSubmit (answer : Z) (now : Z)
| GamePause
| GameResume
| GameQuit.

(** [game.scene.start('GameScene', data)] runs [init] and [create].
    Phaser empties the clock of a scene that stops and does not advance
    the clock of a paused scene, so no timer fires while [isPaused] and
    none survives [game:quit] or a restart.
    [EventBus.emit('answer:submit', ...)] calls every registered listener
    in turn. *)
Definition step (revision : Revision) (s : t) (i : Input) : t :=
  match i with
  | SceneStart data => create (init revision data (set_timers O s))
  | TimerFired random now =>
      if isPaused s then s else
      match timers s with
      | O => s
      | S n => generateNewProblem random now (set_timers n s)
      end
  | Update frame => update revision frame s
  | AnswerSubmit answer now =>
      Nat.iter (submitListeners s) (onAnswerSubmit revision answer now) s
  | GamePause => onPause s
  | GameResume => onResume s
  | GameQuit => set_timers O (onQuit s)
  end.

Definition run (revision : Revision) (s : t) (inputs : list Input) : t :=
  fold_left (step revision) inputs s.

Definition reachable (revision : Revision) (s : t) : Prop :=
  exists inputs, s = run revision (fresh revision) inputs.

(** The events published between a state and a later one. *)
Definition published (before after : t) : list Emitted :=
  skipn (List.length (emitted before)) (emitted after).

Definition isGameOverEvent (e : Emitted) : bool :=
  match e with
  | game_over _ _ _ _ => true
  | _ => false
  end.

End GameScene.

(* ===================================================================== *)
(** * The application store (the part that talks to the scene)           *)
(* ===================================================================== *)

Module App.

(** [gameState.typedAnswer] and the scene the store drives. *)
Record t : Type := {
  typedAnswer : string;
  scene : GameScene.t
}.


Definition pauseGame (revision : GameScene.Revision) (app : t) : t :=
  {| typedAnswer := typedAnswer app;
     scene := GameScene.step revision (scene app) GameScene.GamePause |}.

Definition resumeGame (revision : GameScene.Revision) (app : t) : t :=
  {| typedAnswer := typedAnswer app;
     scene := GameScene.step revision (scene app) GameScene.GameResume |}.

End App.

(* ===================================================================== *)
(** * src/services/EventBus.ts                                            *)
(* ===================================================================== *)

Module EventBus.

(** A listener is a JavaScript function; the bus only ever compares it
    with others by identity, which is a number here. *)
Definition Callback : Type := nat.

(** [Set<EventCallback>]: the callbacks in insertion order, which is the
    order [forEach] visits them in. *)
Definition CallbackSet : Type := list Callback.

Definition set_has (s : CallbackSet) (callback : Callback) : bool :=
  existsb (Nat.eqb callback) s.

(** [Set.prototype.add] *)
Definition set_add (s : CallbackSet) (callback : Callback) : CallbackSet :=
  if set_has s callback then s else s ++ [callback].

(** [Set.prototype.delete] *)
Definition set_delete (s : CallbackSet) (callback : Callback) : CallbackSet :=
  filter (fun c => negb (Nat.eqb c callback)) s.

(** The bus: [listeners], a [Map] from event names to sets of callbacks.
    An event name is a string at run time (the scene publishes
    [player:lives], which [GameEventType] does not list). *)
Definition t : Type := list (string * CallbackSet).

(** [new Map()] *)
Definition empty : t := [].

(** [Map.prototype.get]: [None] is [undefined]. *)
Fixpoint get (listeners : t) (event : string) : option CallbackSet :=
  match listeners with
  | [] => None
  | (key, callbacks) :: rest =>
      if String.eqb key event then Some callbacks else get rest event
  end.

(** [Map.prototype.has] *)
Definition has (listeners : t) (event : string) : bool :=
  match get listeners event with
  | Some _ => true
  | None => false
  end.

(** [Map.prototype.set] *)
Fixpoint set (listeners : t) (event : string) (callbacks : CallbackSet) : t :=
  match listeners with
  | [] => [(event, callbacks)]
  | (key, old) :: rest =>
      if String.eqb key event then (key, callbacks) :: rest
      else (key, old) :: set rest event callbacks
  end.

(** [this.listeners.get(event)?.delete(callback)]: the body of [off] and
    of the function [on] returns. *)
Definition off (event : string) (callback : Callback) (listeners : t) : t :=
  match get listeners event with
  | Some callbacks => set listeners event (set_delete callbacks callback)
  | None => listeners
  end.

(** [on(event, callback)]: the bus after the call and the unsubscribe
    function it returns, which acts on the bus it is later called on. *)
Definition on (event : string) (callback : Callback) (listeners : t)
    : t * (t -> t) :=
  let listeners :=
    if has listeners event then listeners else set listeners event [] in
  let listeners :=
    match get listeners event with
    | Some callbacks => set listeners event (set_add callbacks callback)
    | None => listeners
    end in
  (listeners, off event callback).

(** The callbacks [emit(event, data)] calls, in the order of the calls. *)
Definition called (listeners : t) (event : string) : list Callback :=
  match get listeners event with
  | Some callbacks => callbacks
  | None => []
  end.

(** [emit(event, data)] on a world of type [W]: [call c] is what calling
    the callback [c] with [data] does to the world.  (No callback of the
    program subscribes or unsubscribes while it runs.) *)
Definition emit {W : Type} (call : Callback -> W -> W) (event : string)
    (listeners : t) (world : W) : W :=
  match get listeners event with
  | Some callbacks => fold_left (fun w c => call c w) callbacks world
  | None => world
  end.

(** [clear()] *)
Definition clear (listeners : t) : t := [].

(** What can be done to the bus. *)
Inductive Action : Type :=
| On (event : string) (callback : Callback)
| Off (event : string) (callback : Callback)
| Clear.

Definition act (listeners : t) (a : Action) : t :=
  match a with
  | On event callback => fst (on event callback listeners)
  | Off event callback => off event callback listeners
  | Clear => clear listeners
  end.

End EventBus.

(* ===================================================================== *)
(** * src/models/Profile.ts                                               *)
(* ===================================================================== *)

Module Profile.

Record OperationStats : Type := {
  attempts : Z;
  correct : Z
}.

Record OperationStatsTable : Type := {
  addition : OperationStats;
  subtraction : OperationStats;
  multiplication : OperationStats;
  division : OperationStats
}.

Record ProfileProgress : Type := {
  xp : Z;
  totalProblems : Z;
  correctAnswers : Z;
  currentStreak : Z;
  bestStreak : Z;
  evolutionStage : Z;
  operationStats : OperationStatsTable
}.

Record ProfileSettings : Type := {
  difficulty : Z;
  gameMode : GameScene.GameMode;
  soundEnabled : bool;
  musicEnabled : bool
}.

(** A profile.  A profile read from storage may lack its [avatar]; the
    empty string stands for the missing one too (the program only tests
    [!profile.avatar]). *)
Record t : Type := {
  id : string;
  name : string;
  avatar : string;
  createdAt : Z;
  lastPlayed : Z;
  settings : ProfileSettings;
  progress : ProfileProgress
}.

Definition set_avatar (v : string) (p : t) : t :=
  {| id := id p; name := name p; avatar := v; createdAt := createdAt p;
     lastPlayed := lastPlayed p; settings := settings p; progress := progress p |}.

Definition set_lastPlayed (v : Z) (p : t) : t :=
  {| id := id p; name := name p; avatar := avatar p; createdAt := createdAt p;
     lastPlayed := v; settings := settings p; progress := progress p |}.

Definition set_progress (v : ProfileProgress) (p : t) : t :=
  {| id := id p; name := name p; avatar := avatar p; createdAt := createdAt p;
     lastPlayed := lastPlayed p; settings := settings p; progress := v |}.

Definition DEFAULT_AVATAR : string := "🧑‍🚀".

(** [createDefaultProfile(id, name, avatar)]; the two values of
    [Date.now()] it reads are arguments. *)
Definition createDefaultProfile (id name avatar : string)
    (createdAt lastPlayed : Z) : t := {|
  id := id;
  name := name;
  avatar := avatar;
  createdAt := createdAt;
  lastPlayed := lastPlayed;
  settings := {| difficulty := 1; gameMode := GameScene.shoot;
                 soundEnabled := true; musicEnabled := true |};
  progress := {| xp := 0; totalProblems := 0; correctAnswers := 0;
                 currentStreak := 0; bestStreak := 0; evolutionStage := 1;
                 operationStats :=
                   {| addition := {| attempts := 0; correct := 0 |};
                      subtraction := {| attempts := 0; correct := 0 |};
                      multiplication := {| attempts := 0; correct := 0 |};
                      division := {| attempts := 0; correct := 0 |} |} |}
|}.

End Profile.

(* ===================================================================== *)
(** * src/services/StorageService.ts                                      *)
(* ===================================================================== *)

(** The service keeps one item under [PROFILES_KEY], the index, and one
    item under [PROFILE_PREFIX + id] for every profile.  No key of the
    second kind is the first one and different ids give different keys
    (both are proved below), so the part of [localStorage] the service
    reads and writes is an optional index item and a map from ids to
    profile items.  An item is the JSON text of a value, which
    [JSON.parse] gives back, or a text [JSON.parse] rejects (the empty
    text, which the service also treats as missing, is counted with
    these); items that hold the JSON text of something else than what
    the service writes there are outside the model.

    [Date.now()] is a stream of readings; [reads] counts those made.
    [generateId()] formats a random number in base 36; the id it returns
    is an argument of [createProfile]. *)

Module StorageService.

Definition PROFILES_KEY : string := "spacemath_profiles".
Definition PROFILE_PREFIX : string := "spacemath_profile_".

Record ProfilesIndex : Type := {
  profiles : list string;
  activeProfile : option string
}.

Inductive Item (A : Type) : Type :=
| Json (value : A)
| Unparsable.

Arguments Json {A} value.
Arguments Unparsable {A}.

Record World : Type := {
  indexItem : option (Item ProfilesIndex);
  profileItem : string -> option (Item Profile.t);
  reads : nat
}.

(** [localStorage.setItem(PROFILE_PREFIX + id, text)] *)
Definition setProfileItem (id : string) (item : Item Profile.t) (w : World) : World :=
  {| indexItem := indexItem w;
     profileItem := fun key => if String.eqb key id then Some item
                               else profileItem w key;
     reads := reads w |}.

(** [localStorage.removeItem(PROFILE_PREFIX + id)] *)
Definition removeProfileItem (id : string) (w : World) : World :=
  {| indexItem := indexItem w;
     profileItem := fun key => if String.eqb key id then None
                               else profileItem w key;
     reads := reads w |}.

(** [localStorage.setItem(PROFILES_KEY, text)] *)
Definition setIndexItem (item : Item ProfilesIndex) (w : World) : World :=
  {| indexItem := Some item; profileItem := profileItem w; reads := reads w |}.

(** [!s] for a string or [null]. *)
Definition falsy (s : option string) : bool :=
  match s with
  | Some text => String.eqb text ""
  | None => true
  end.

Section Clock.

Variable clock : nat -> Z.

(** [Date.now()] *)
Definition now (w : World) : Z * World :=
  (clock (reads w),
   {| indexItem := indexItem w; profileItem := profileItem w;
      reads := S (reads w) |}).

Definition getProfilesIndex (w : World) : ProfilesIndex :=
  match indexItem w with
  | Some (Json index) => index
  | Some Unparsable | None => {| profiles := []; activeProfile := None |}
  end.

Definition saveProfilesIndex (index : ProfilesIndex) (w : World) : World :=
  setIndexItem (Json index) w.

(** [saveProfile(profile)] writes [lastPlayed] into the object it is
    given: the profile it returns is that object afterwards. *)
Definition saveProfile (profile : Profile.t) (w : World) : Profile.t * World :=
  let (time, w) := now w in
  let profile := Profile.set_lastPlayed time profile in
  (profile, setProfileItem (Profile.id profile) (Json profile) w).

Definition getProfile (id : string) (w : World) : option Profile.t * World :=
  match profileItem w id with
  | None | Some Unparsable => (None, w)
  | Some (Json profile) =>
      if String.eqb (Profile.avatar profile) "" then
        let profile := Profile.set_avatar Profile.DEFAULT_AVATAR profile in
        let (profile, w) := saveProfile profile w in
        (Some profile, w)
      else (Some profile, w)
  end.

(** The loop of [getAllProfiles]. *)
Fixpoint collectProfiles (ids : list string) (found : list Profile.t) (w : World)
    : list Profile.t * World :=
  match ids with
  | [] => (found, w)
  | id :: rest =>
      let (profile, w) := getProfile id w in
      match profile with
      | Some profile => collectProfiles rest (found ++ [profile]) w
      | None => collectProfiles rest found w
      end
  end.

Definition getAllProfiles (w : World) : list Profile.t * World :=
  let index := getProfilesIndex w in
  collectProfiles (profiles index) [] w.

(** [createProfile(name, avatar)], [id] being what [generateId()] returns. *)
Definition createProfile (id name avatar : string) (w : World)
    : Profile.t * World :=
  let (createdAt, w) := now w in
  let (lastPlayed, w) := now w in
  let profile := Profile.createDefaultProfile id name avatar createdAt lastPlayed in
  let (profile, w) := saveProfile profile w in
  let index := getProfilesIndex w in
  let index := {| profiles := profiles index ++ [id];
                  activeProfile := activeProfile index |} in
  let index := if falsy (activeProfile index)
               then {| profiles := profiles index; activeProfile := Some id |}
               else index in
  (profile, saveProfilesIndex index w).

(** [index.profiles[0] || null] *)
Definition firstOrNull (ids : list string) : option string :=
  match ids with
  | first :: _ => if String.eqb first "" then None else Some first
  | [] => None
  end.

Definition deleteProfile (id : string) (w : World) : World :=
  let w := removeProfileItem id w in
  let index := getProfilesIndex w in
  let index := {| profiles := filter (fun p => negb (String.eqb p id))
                                (profiles index);
                  activeProfile := activeProfile index |} in
  let index :=
    match activeProfile index with
    | Some active =>
        if String.eqb active id
        then {| profiles := profiles index;
                activeProfile := firstOrNull (profiles index) |}
        else index
    | None => index
    end in
  saveProfilesIndex index w.

Definition setActiveProfile (id : string) (w : World) : World :=
  let index := getProfilesIndex w in
  saveProfilesIndex {| profiles := profiles index; activeProfile := Some id |} w.

Definition getActiveProfile (w : World) : option Profile.t * World :=
  let index := getProfilesIndex w in
  match activeProfile index with
  | Some active =>
      if String.eqb active "" then (None, w) else getProfile active w
  | None => (None, w)
  end.

End Clock.

(** [localStorage] without any item of the service. *)
Definition emptyWorld : World :=
  {| indexItem := None; profileItem := fun _ => None; reads := O |}.

End StorageService.

(* ===================================================================== *)
(** * The application store: state synced from the scene, profile         *)
(* ===================================================================== *)

(** The Alpine component of the application, without the list of
    profiles shown on the first screen and the form that creates one.
    [storage] is the part of [localStorage] that [StorageService] uses,
    with the clock. *)

Module Store.

(** [gameState] *)
Record GameState : Type := {
  score : Z;
  streak : Z;
  bestStreak : Z;
  correct : Z;
  xpEarned : Z;
  currentEquation : string;
  typedAnswer : string;
  lives : Z;
  maxLives : Z
}.

Record t : Type := {
  screen : string;
  currentProfile : option Profile.t;
  gameMode : GameScene.GameMode;
  selectedDifficulty : Z;
  evolutionData : Z * Z;
  gameState : GameState;
  storage : StorageService.World
}.

Definition set_screen (v : string) (app : t) : t :=
  {| screen := v; currentProfile := currentProfile app; gameMode := gameMode app;
     selectedDifficulty := selectedDifficulty app;
     evolutionData := evolutionData app; gameState := gameState app;
     storage := storage app |}.

Definition set_currentProfile (v : option Profile.t) (app : t) : t :=
  {| screen := screen app; currentProfile := v; gameMode := gameMode app;
     selectedDifficulty := selectedDifficulty app;
     evolutionData := evolutionData app; gameState := gameState app;
     storage := storage app |}.

Definition set_gameMode (v : GameScene.GameMode) (app : t) : t :=
  {| screen := screen app; currentProfile := currentProfile app; gameMode := v;
     selectedDifficulty := selectedDifficulty app;
     evolutionData := evolutionData app; gameState := gameState app;
     storage := storage app |}.

Definition set_selectedDifficulty (v : Z) (app : t) : t :=
  {| screen := screen app; currentProfile := currentProfile app;
     gameMode := gameMode app; selectedDifficulty := v;
     evolutionData := evolutionData app; gameState := gameState app;
     storage := storage app |}.

Definition set_evolutionData (v : Z * Z) (app : t) : t :=
  {| screen := screen app; currentProfile := currentProfile app;
     gameMode := gameMode app; selectedDifficulty := selectedDifficulty app;
     evolutionData := v; gameState := gameState app; storage := storage app |}.

Definition set_gameState (v : GameState) (app : t) : t :=
  {| screen := screen app; currentProfile := currentProfile app;
     gameMode := gameMode app; selectedDifficulty := selectedDifficulty app;
     evolutionData := evolutionData app; gameState := v; storage := storage app |}.

Definition set_storage (v : StorageService.World) (app : t) : t :=
  {| screen := screen app; currentProfile := currentProfile app;
     gameMode := gameMode app; selectedDifficulty := selectedDifficulty app;
     evolutionData := evolutionData app; gameState := gameState app; storage := v |}.

(** The component after its field initialisers, on a given storage. *)
Definition initial (storage : StorageService.World) : t := {|
  screen := "profiles";
  currentProfile := None;
  gameMode := GameScene.shoot;
  selectedDifficulty := 1;
  evolutionData := (1, 2);
  gameState := {| score := 0; streak := 0; bestStreak := 0; correct := 0;
                  xpEarned := 0; currentEquation := ""; typedAnswer := "";
                  lives := 5; maxLives := 5 |};
  storage := storage
|}.

(** The progress of a profile after a session that ended with the given
    summary: the first part of the [game:over] listener. *)
Definition bank (correct xpEarned bestStreak : Z) (p : Profile.ProfileProgress)
    : Profile.ProfileProgress :=
  {| Profile.xp := Profile.xp p + xpEarned;
     Profile.totalProblems := Profile.totalProblems p + correct;
     Profile.correctAnswers := Profile.correctAnswers p + correct;
     Profile.currentStreak := Profile.currentStreak p;
     Profile.bestStreak := if Profile.bestStreak p <? bestStreak then bestStreak
                           else Profile.bestStreak p;
     Profile.evolutionStage := Profile.evolutionStage p;
     Profile.operationStats := Profile.operationStats p |}.

Definition set_evolutionStage (v : Z) (p : Profile.ProfileProgress)
    : Profile.ProfileProgress :=
  {| Profile.xp := Profile.xp p;
     Profile.totalProblems := Profile.totalProblems p;
     Profile.correctAnswers := Profile.correctAnswers p;
     Profile.currentStreak := Profile.currentStreak p;
     Profile.bestStreak := Profile.bestStreak p;
     Profile.evolutionStage := v;
     Profile.operationStats := Profile.operationStats p |}.

Section Clock.

Variable clock : nat -> Z.

(** [StorageService.saveProfile(this.currentProfile)]: the profile object
    is the one the store holds, so the store sees the new [lastPlayed]. *)
Definition saveCurrent (profile : Profile.t) (app : t) : t :=
  let (profile, world) := StorageService.saveProfile clock profile (storage app) in
  set_storage world (set_currentProfile (Some profile) app).

(** The listeners [setupEventListeners] registers, as a function of the
    event the scene publishes. *)
Definition listen (e : GameScene.Emitted) (app : t) : t :=
  let gs := gameState app in
  match e with
  | GameScene.problem_new equation _ _ =>
      set_gameState
        {| score := score gs; streak := streak gs; bestStreak := bestStreak gs;
           correct := correct gs; xpEarned := xpEarned gs;
           currentEquation := equation; typedAnswer := "";
           lives := lives gs; maxLives := maxLives gs |} app
  | GameScene.score_update score' streak' =>
      set_gameState
        {| score := score'; streak := streak'; bestStreak := bestStreak gs;
           correct := correct gs; xpEarned := xpEarned gs;
           currentEquation := currentEquation gs; typedAnswer := typedAnswer gs;
           lives := lives gs; maxLives := maxLives gs |} app
  | GameScene.answer_correct xp streak' =>
      set_gameState
        {| score := score gs; streak := streak'; bestStreak := bestStreak gs;
           correct := correct gs + 1; xpEarned := xpEarned gs + xp;
           currentEquation := currentEquation gs; typedAnswer := typedAnswer gs;
           lives := lives gs; maxLives := maxLives gs |} app
  | GameScene.answer_wrong =>
      set_gameState
        {| score := score gs; streak := 0; bestStreak := bestStreak gs;
           correct := correct gs; xpEarned := xpEarned gs;
           currentEquation := currentEquation gs; typedAnswer := typedAnswer gs;
           lives := lives gs; maxLives := maxLives gs |} app
  | GameScene.player_lives lives' =>
      set_gameState
        {| score := score gs; streak := streak gs; bestStreak := bestStreak gs;
           correct := correct gs; xpEarned := xpEarned gs;
           currentEquation := currentEquation gs; typedAnswer := typedAnswer gs;
           lives := lives'; maxLives := maxLives gs |} app
  | GameScene.game_over score' correct' xpEarned' bestStreak' =>
      let app :=
        set_gameState
          {| score := score'; streak := streak gs; bestStreak := bestStreak';
             correct := correct'; xpEarned := xpEarned';
             currentEquation := currentEquation gs; typedAnswer := typedAnswer gs;
             lives := lives gs; maxLives := maxLives gs |} app in
      match currentProfile app with
      | Some profile =>
          let oldStage := Profile.evolutionStage (Profile.progress profile) in
          let progress :=
            bank correct' xpEarned' bestStreak' (Profile.progress profile) in
          let newStage := Evolution.getEvolutionStage (Profile.xp progress) in
          if oldStage <? newStage then
            let profile :=
              Profile.set_progress (set_evolutionStage newStage progress) profile in
            let app := set_evolutionData (oldStage, newStage) app in
            let app := saveCurrent profile app in
            set_screen "evolution" app
          else
            let app := saveCurrent (Profile.set_progress progress profile) app in
            set_screen "gameover" app
      | None => set_screen "gameover" app
      end
  end.

(** The listeners run for every event, in the order of publication. *)
Definition deliver (events : list GameScene.Emitted) (app : t) : t :=
  fold_left (fun a e => listen e a) events app.

(** [init()]: the profiles are loaded (their list is not kept here, but
    reading them can repair and save some), then the active profile, if
    there is one, is selected. *)
Definition init (app : t) : t :=
  let (_, world) := StorageService.getAllProfiles clock (storage app) in
  let app := set_storage world app in
  let (activeProfile, world) :=
    StorageService.getActiveProfile clock (storage app) in
  let app := set_storage world app in
  match activeProfile with
  | Some profile =>
      let app := set_currentProfile (Some profile) app in
      let app :=
        set_selectedDifficulty
          (GameScene.orOne (Profile.difficulty (Profile.settings profile))) app in
      set_screen "menu" app
  | None => app
  end.

End Clock.

(** [getEvolutionProgress()] *)
Definition getEvolutionProgress (app : t) : JS.number :=
  match currentProfile app with
  | None => JS.Fin 0
  | Some profile =>
      Evolution.getEvolutionProgress (Profile.xp (Profile.progress profile))
        (Profile.evolutionStage (Profile.progress profile))
  end.

(** [startGame(mode)]: the store afterwards and the data it starts the
    scene with. *)
Definition startGame (mode : GameScene.GameMode) (app : t)
    : t * GameScene.InitData :=
  let app := set_gameMode mode app in
  let app :=
    set_gameState
      {| score := 0; streak := 0; bestStreak := 0; correct := 0; xpEarned := 0;
         currentEquation := ""; typedAnswer := ""; lives := 5; maxLives := 5 |}
      app in
  let app := set_screen "game" app in
  (app,
   {| GameScene.mode := gameMode app;
      GameScene.data_difficulty := GameScene.orOne (selectedDifficulty app);
      GameScene.data_evolutionStage :=
        match currentProfile app with
        | Some profile =>
            GameScene.orOne (Profile.evolutionStage (Profile.progress profile))
        | None => 1
        end |}).

End Store.

(* ===================================================================== *)
(** * Properties of the evolution ladder                                  *)
(* ===================================================================== *)

Module EvolutionSpec.

Import Evolution.

Lemma ladder_values : ladder = [0; 500; 1500; 3500; 7000; 12000; 20000].
Proof. reflexivity. Qed.

(** The stage as a function of the band the experience falls in. *)
Lemma getEvolutionStage_bands (xp : Z) :
  (xp < 500 /\ getEvolutionStage xp = 1)
  \/ (500 <= xp < 1500 /\ getEvolutionStage xp = 2)
  \/ (1500 <= xp < 3500 /\ getEvolutionStage xp = 3)
  \/ (3500 <= xp < 7000 /\ getEvolutionStage xp = 4)
  \/ (7000 <= xp < 12000 /\ getEvolutionStage xp = 5)
  \/ (12000 <= xp < 20000 /\ getEvolutionStage xp = 6)
  \/ (20000 <= xp /\ getEvolutionStage xp = 7).
Proof.
  unfold getEvolutionStage, EVOLUTION_STAGES, stageLoop; cbn [xpRequired id].
  repeat match goal with
         | |- context [?a <=? xp] => destruct (Z.leb_spec a xp)
         end; lia.
Qed.

Lemma getEvolutionStage_range (xp : Z) : 1 <= getEvolutionStage xp <= 7.
Proof. pose proof (getEvolutionStage_bands xp); lia. Qed.

Lemma getEvolutionStage_mono (a b : Z) :
  a <= b -> getEvolutionStage a <= getEvolutionStage b.
Proof.
  intro Hab.
  pose proof (getEvolutionStage_bands a); pose proof (getEvolutionStage_bands b); lia.
Qed.

Lemma stage_in_ladder (e : EvolutionStage) :
  In e EVOLUTION_STAGES -> 1 <= id e <= 7 /\ xpRequired e = threshold (id e).
Proof.
  unfold EVOLUTION_STAGES; cbn [In].
  intros H; repeat destruct H as [<- | H]; try contradiction;
    (split; [cbn; lia | reflexivity]).
Qed.

Lemma threshold_values :
  threshold 1 = 0 /\ threshold 2 = 500 /\ threshold 3 = 1500 /\ threshold 4 = 3500
  /\ threshold 5 = 7000 /\ threshold 6 = 12000 /\ threshold 7 = 20000.
Proof. repeat split; reflexivity. Qed.

Lemma stage_cases (stage : Z) :
  1 <= stage <= 7 ->
  stage = 1 \/ stage = 2 \/ stage = 3 \/ stage = 4 \/ stage = 5 \/ stage = 6 \/ stage = 7.
Proof. lia. Qed.

(** C6.  For every non-negative xp, [getEvolutionStage xp] is the ordinal
    of a stage of the ladder {0, 500, 1500, 3500, 7000, 12000, 20000}
    whose threshold is at most xp, and no stage with a threshold at most
    xp has a larger ordinal; the stage does not decrease when xp grows;
    it is 1 at 0, 2 at 500, 6 at 19999 and 7 at 20000;
    [getXPToNextEvolution] is [max(0, next threshold - xp)] below the
    final stage and 0 at the final stage. *)
Theorem stageForXp_highest_monotone_xpToNext (xp xp' stage : Z) :
  0 <= xp -> xp <= xp' -> 1 <= stage <= 6 ->
  ladder = [0; 500; 1500; 3500; 7000; 12000; 20000]
  /\ (exists e, In e EVOLUTION_STAGES /\ id e = getEvolutionStage xp
                /\ xpRequired e <= xp)
  /\ (forall e, In e EVOLUTION_STAGES -> xpRequired e <= xp ->
                id e <= getEvolutionStage xp)
  /\ getEvolutionStage xp <= getEvolutionStage xp'
  /\ getEvolutionStage 0 = 1
  /\ getEvolutionStage 500 = 2
  /\ getEvolutionStage 19999 = 6
  /\ getEvolutionStage 20000 = 7
  /\ getXPToNextEvolution xp stage = Z.max 0 (threshold (stage + 1) - xp)
  /\ getXPToNextEvolution xp 7 = 0.
Proof.
  intros Hxp Hle Hstage.
  split; [reflexivity|].
  split.
  { pose proof (getEvolutionStage_bands xp) as Hb.
    destruct Hb as [[? ->]|[[? ->]|[[? ->]|[[? ->]|[[? ->]|[[? ->]|[? ->]]]]]]].
    - exists (getEvolutionByStage 1); cbn; intuition lia.
    - exists (getEvolutionByStage 2); cbn; intuition lia.
    - exists (getEvolutionByStage 3); cbn; intuition lia.
    - exists (getEvolutionByStage 4); cbn; intuition lia.
    - exists (getEvolutionByStage 5); cbn; intuition lia.
    - exists (getEvolutionByStage 6); cbn; intuition lia.
    - exists (getEvolutionByStage 7); cbn; intuition lia. }
  split.
  { intros e He Hreq.
    destruct (stage_in_ladder e He) as [Hid Hthr].
    pose proof (getEvolutionStage_bands xp) as Hb.
    pose proof threshold_values as Ht.
    destruct (stage_cases (id e) Hid) as [E|[E|[E|[E|[E|[E|E]]]]]];
      rewrite E in *; lia. }
  split; [now apply getEvolutionStage_mono|].
  repeat (split; [reflexivity|]).
  split; [|reflexivity].
  assert (Hc : stage = 1 \/ stage = 2 \/ stage = 3 \/ stage = 4 \/ stage = 5
               \/ stage = 6) by lia.
  destruct Hc as [->|[->|[->|[->|[->| ->]]]]]; reflexivity.
Qed.

Lemma stageForXp_highest_monotone_xpToNext_witness :
  getEvolutionStage 600 <= getEvolutionStage 1600
  /\ getXPToNextEvolution 600 2 = Z.max 0 (threshold 3 - 600).
Proof.
  destruct (stageForXp_highest_monotone_xpToNext 600 1600 2)
    as (_ & _ & _ & Hm & _ & _ & _ & _ & Hx & _); try lia.
  split; assumption.
Defined.


(** ** Progress within a stage *)

(** The value the source computes below the final stage. *)
Lemma getEvolutionProgress_formula (xp stage : Z) :
  1 <= stage <= 6 ->
  getEvolutionProgress xp stage
  = JS.Fin (Qmin (inject_Z 100)
              (inject_Z (xp - threshold stage)
               / inject_Z (threshold (stage + 1) - threshold stage)
               * inject_Z 100)).
Proof.
  intro H.
  assert (Hc : stage = 1 \/ stage = 2 \/ stage = 3 \/ stage = 4 \/ stage = 5
               \/ stage = 6) by lia.
  destruct Hc as [->|[->|[->|[->|[->| ->]]]]]; reflexivity.
Qed.

Lemma getEvolutionProgress_final (xp : Z) :
  getEvolutionProgress xp 7 = JS.Fin (inject_Z 100).
Proof. reflexivity. Qed.

Lemma ratio_nonneg (a d : Z) :
  0 <= a -> 0 < d -> (0 <= inject_Z a / inject_Z d * inject_Z 100)%Q.
Proof.
  intros Ha Hd.
  apply Qmult_le_0_compat; [|unfold Qle; simpl; lia].
  apply Qle_shift_div_l.
  - unfold Qlt; simpl; lia.
  - rewrite Qmult_0_l. unfold Qle; simpl; lia.
Qed.

Lemma thresholds_increase (stage : Z) :
  1 <= stage <= 6 -> threshold stage < threshold (stage + 1).
Proof.
  intro H.
  assert (Hc : stage = 1 \/ stage = 2 \/ stage = 3 \/ stage = 4 \/ stage = 5
               \/ stage = 6) by lia.
  destruct Hc as [->|[->|[->|[->|[->| ->]]]]]; reflexivity.
Qed.

(** C7 as stated fails: with no experience and stage 2 the result is
    -50, which is below 0. *)
Lemma progress_below_zero_counterexample :
  (exists q, getEvolutionProgress 0 2 = JS.Fin q /\ (q == -50 # 1)%Q)
  /\ ~ isPercentage (getEvolutionProgress 0 2).
Proof.
  split.
  - eexists. split; [reflexivity|]. vm_compute. reflexivity.
  - intros [H _]. vm_compute in H. apply H. reflexivity.
Qed.

(** C7, amended.  For every stage ordinal 1 to 7 and every xp that has
    reached that stage's threshold, [getEvolutionProgress] is a
    percentage in [0, 100]: 100 at the final stage and, below it, the
    part of the way from the stage's threshold to the next one, capped at
    100. *)
Theorem progressWithinStage_bounds (xp stage : Z) :
  1 <= stage <= 7 -> threshold stage <= xp ->
  isPercentage (getEvolutionProgress xp stage)
  /\ getEvolutionProgress xp 7 = JS.Fin (inject_Z 100)
  /\ (stage <= 6 ->
      getEvolutionProgress xp stage
      = JS.Fin (Qmin (inject_Z 100)
                  (inject_Z (xp - threshold stage)
                   / inject_Z (threshold (stage + 1) - threshold stage)
                   * inject_Z 100))).
Proof.
  intros Hstage Hxp.
  split; [|split; [reflexivity | intro; apply getEvolutionProgress_formula; lia]].
  destruct (Z.eq_dec stage 7) as [->|Hne].
  - cbn. split; unfold Qle; simpl; lia.
  - rewrite getEvolutionProgress_formula by lia.
    cbn [isPercentage]. split.
    + apply Q.min_glb; [unfold Qle; simpl; lia|].
      apply ratio_nonneg; [lia|].
      pose proof (thresholds_increase stage); lia.
    + apply Q.le_min_l.
Qed.

Lemma progressWithinStage_bounds_witness :
  isPercentage (getEvolutionProgress 750 2).
Proof.
  refine (proj1 (progressWithinStage_bounds 750 2 _ _)).
  - lia.
  - vm_compute. discriminate.
Defined.

End EvolutionSpec.

(* ===================================================================== *)
(** * Properties of the problem generator                                 *)
(* ===================================================================== *)

Module MathGeneratorSpec.

Import MathGenerator.

(** ** Sets of numbers *)

Lemma set_has_In (s : JS.NumberSet) (x : Z) : JS.set_has s x = true <-> In x s.
Proof.
  unfold JS.set_has. rewrite existsb_exists. split.
  - intros [y [Hy Heq]]. apply Z.eqb_eq in Heq. now subst.
  - intro H. exists x. split; [assumption | apply Z.eqb_refl].
Qed.

Lemma set_add_In (s : JS.NumberSet) (x y : Z) :
  In y (JS.set_add s x) <-> In y s \/ y = x.
Proof.
  unfold JS.set_add. destruct (JS.set_has s x) eqn:Hhas.
  - apply set_has_In in Hhas. split; [tauto | intros [H | ->]; assumption].
  - rewrite in_app_iff. cbn. intuition congruence.
Qed.

Lemma set_add_NoDup (s : JS.NumberSet) (x : Z) :
  NoDup s -> NoDup (JS.set_add s x).
Proof.
  intro Hnd. unfold JS.set_add. destruct (JS.set_has s x) eqn:Hhas; [assumption|].
  assert (Hnot : ~ In x s).
  { intro Hin. apply set_has_In in Hin. congruence. }
  clear Hhas. induction Hnd as [|y l Hy Hnd IH]; cbn.
  - constructor; [tauto | constructor].
  - constructor.
    + rewrite in_app_iff. cbn in *. intuition congruence.
    + apply IH. cbn in Hnot. tauto.
Qed.

Lemma set_add_size (s : JS.NumberSet) (x : Z) :
  JS.set_size s <= JS.set_size (JS.set_add s x) <= JS.set_size s + 1.
Proof.
  unfold JS.set_add, JS.set_size. destruct (JS.set_has s x).
  - lia.
  - rewrite length_app. cbn. lia.
Qed.

Lemma set_add_new_size (s : JS.NumberSet) (x : Z) :
  JS.set_has s x = false -> JS.set_size (JS.set_add s x) = JS.set_size s + 1.
Proof.
  intro H. unfold JS.set_add, JS.set_size. rewrite H, length_app. cbn. lia.
Qed.

(** ** Distractors *)

(** What both loops of [generateWrongAnswers] maintain: the collected
    values are pairwise different, positive and different from the
    correct answer. *)
Definition distractors (correctAnswer : Z) (s : JS.NumberSet) : Prop :=
  NoDup s /\ Forall (fun x => 0 < x /\ x <> correctAnswer) s.

Lemma distractors_nil (c : Z) : distractors c [].
Proof. split; constructor. Qed.

Lemma distractors_add (c : Z) (s : JS.NumberSet) (x : Z) :
  distractors c s -> 0 < x -> x <> c -> distractors c (JS.set_add s x).
Proof.
  intros [Hnd Hall] Hpos Hne. split; [now apply set_add_NoDup|].
  rewrite Forall_forall in *. intros y Hy.
  apply set_add_In in Hy. destruct Hy as [Hy | ->]; auto.
Qed.

Lemma accept_add (c : Z) (s : JS.NumberSet) (x : Z) (extra : bool) :
  distractors c s ->
  distractors c (if (0 <? x) && negb (x =? c) && extra
                 then JS.set_add s x else s).
Proof.
  intro H.
  destruct (Z.ltb_spec 0 x); destruct (Z.eqb_spec x c); destruct extra; cbn;
    try assumption.
  now apply distractors_add.
Qed.

Section Loops.

Variable random : nat -> Q.

Lemma randomLoop_spec (remaining : nat) (c count : Z) :
  forall (s : JS.NumberSet) (k : nat),
    distractors c s -> JS.set_size s <= count ->
    distractors c (fst (randomLoop random remaining c count s k))
    /\ JS.set_size (fst (randomLoop random remaining c count s k)) <= count.
Proof.
  induction remaining as [|n IH]; intros s k Hd Hsize; cbn [randomLoop].
  - split; assumption.
  - destruct (Z.ltb_spec (JS.set_size s) count) as [Hlt|Hge];
      [|split; assumption].
    unfold bind, randomInt, draw, ret. cbn [fst snd].
    apply IH.
    + pose proof (accept_add c s) as Ha.
      specialize (Ha (c + (Qfloor (random k *
                      inject_Z (Z.max 5 (floorThreeTenths c + 1) - 1 + 1)) + 1)
                      * (if Qle_bool (random (S k)) (1 # 2) then -1 else 1))
                     true Hd).
      rewrite andb_true_r in Ha. exact Ha.
    + match goal with
      | |- JS.set_size (if ?b then _ else _) <= _ => destruct b
      end; [|lia].
      match goal with
      | |- JS.set_size (JS.set_add s ?x) <= _ =>
          pose proof (set_add_size s x)
      end. lia.
Qed.

End Loops.

Lemma fallbackLoop_spec (c count : Z) (s : JS.NumberSet) (offset : Z) :
  distractors c s -> JS.set_size s <= count ->
  distractors c (fallbackLoop c count s offset)
  /\ JS.set_size (fallbackLoop c count s offset) = count.
Proof.
  funelim (fallbackLoop c count s offset); intros Hd Hsize.
  - (* one more turn of the loop *)
    match goal with
    | IH : distractors _ _ -> _ -> _ |- _ => apply IH
    end.
    + rewrite <- andb_assoc. rewrite andb_assoc. apply accept_add. assumption.
    + match goal with
      | |- JS.set_size (if ?b then _ else _) <= _ => destruct b
      end; [|lia].
      match goal with
      | |- JS.set_size (JS.set_add ?s ?x) <= _ =>
          pose proof (set_add_size s x)
      end. lia.
  - (* the loop is left *)
    split; [assumption | lia].
Qed.

(** [generateWrongAnswers] on every input: a non-negative [count] is what
    the result's length is. *)
Lemma generateWrongAnswers_spec (random : nat -> Q) (c count : Z) (k : nat) :
  0 <= count ->
  distractors c (fst (generateWrongAnswers random c count k))
  /\ JS.set_size (fst (generateWrongAnswers random c count k)) = count.
Proof.
  intros Hcount. unfold generateWrongAnswers, bind, ret.
  pose proof (randomLoop_spec random maxAttempts c count [] k
                (distractors_nil c)) as Hr.
  destruct (randomLoop random maxAttempts c count [] k) as [s k'].
  cbn [fst] in *.
  destruct Hr as [Hd Hs]; [cbn; lia|].
  apply fallbackLoop_spec; assumption.
Qed.

(** C1.  For every correct answer that is at least 1 and every count from
    1 to 5, whatever the random draws are, [generateWrongAnswers] (a
    total function: both of its loops end) returns exactly [count]
    values, pairwise different, each strictly positive and different from
    the correct answer. *)
Theorem generateWrongAnswers_count_distinct_positive
    (random : nat -> Q) (k : nat) (correctAnswer count : Z) :
  1 <= correctAnswer -> 1 <= count <= 5 ->
  JS.set_size (fst (generateWrongAnswers random correctAnswer count k)) = count
  /\ NoDup (fst (generateWrongAnswers random correctAnswer count k))
  /\ Forall (fun x => 0 < x /\ x <> correctAnswer)
       (fst (generateWrongAnswers random correctAnswer count k)).
Proof.
  intros Hc Hcount.
  destruct (generateWrongAnswers_spec random correctAnswer count k) as [[Hnd Hall] Hs];
    [lia|].
  split; [exact Hs | split; [exact Hnd | exact Hall]].
Qed.

Lemma generateWrongAnswers_count_distinct_positive_witness :
  JS.set_size (fst (generateWrongAnswers (fun _ => 0%Q) 1 3 O)) = 3
  /\ NoDup (fst (generateWrongAnswers (fun _ => 0%Q) 1 3 O))
  /\ Forall (fun x => 0 < x /\ x <> 1)
       (fst (generateWrongAnswers (fun _ => 0%Q) 1 3 O)).
Proof.
  apply (generateWrongAnswers_count_distinct_positive (fun _ => 0%Q) O 1 3); lia.
Defined.

(** With the correct answer 1 and draws that always propose 1 - 1 = 0,
    the first loop uses its hundred attempts without collecting anything
    and the fallback loop supplies the three distractors. *)
Example fallback_phase_when_answer_is_one :
  randomLoop (fun _ => 0%Q) maxAttempts 1 3 [] O = ([], 200%nat)
  /\ fst (generateWrongAnswers (fun _ => 0%Q) 1 3 O) = [2; 3; 4].
Proof. split; vm_compute; reflexivity. Qed.


(** ** Generated problems *)

Lemma floor_scaled_range (r : Q) (n : Z) :
  (0 <= r)%Q -> (r < 1)%Q -> 0 < n -> 0 <= Qfloor (r * inject_Z n) < n.
Proof.
  intros H0 H1 Hn.
  assert (Hn' : (0 < inject_Z n)%Q) by (unfold Qlt; simpl; lia).
  split.
  - rewrite <- (Qfloor_Z 0). apply Qfloor_resp_le.
    apply Qmult_le_0_compat; [assumption | now apply Qlt_le_weak].
  - rewrite Zlt_Qlt.
    eapply Qle_lt_trans; [apply Qfloor_le|].
    setoid_replace (inject_Z n) with (1 * inject_Z n)%Q at 2 by ring.
    apply Qmult_lt_compat_r; assumption.
Qed.

(** The operand ranges the generator guarantees at a configuration:
    addends, minuend and subtrahend up to [maxNumber]; factors, divisor
    and quotient up to [maxMultiplier]; a dividend, being divisor times
    quotient, up to [maxMultiplier] squared. *)
Definition operandBounds (cfg : DifficultyConfig) (p : MathProblem) : Prop :=
  match operation p with
  | addition | subtraction =>
      1 <= operand1 p <= maxNumber cfg /\ 1 <= operand2 p <= maxNumber cfg
  | multiplication =>
      1 <= operand1 p <= maxMultiplier cfg /\ 1 <= operand2 p <= maxMultiplier cfg
  | division =>
      1 <= operand2 p <= maxMultiplier cfg
      /\ 1 <= answer p <= maxMultiplier cfg
      /\ 1 <= operand1 p <= maxMultiplier cfg * maxMultiplier cfg
  end.

(** The reading of "within the magnitude bounds configured for the level"
    that asks least: no operand is larger than the larger of the two
    configured magnitudes. *)
Definition withinConfiguredMagnitudes (cfg : DifficultyConfig) (p : MathProblem)
    : Prop :=
  operand1 p <= Z.max (maxNumber cfg) (maxMultiplier cfg)
  /\ operand2 p <= Z.max (maxNumber cfg) (maxMultiplier cfg).

(** What every generated problem satisfies. *)
Definition wellFormedProblem (cfg : DifficultyConfig) (p : MathProblem) : Prop :=
  applyOperation (operation p) (operand1 p) (operand2 p) = Some (answer p)
  /\ (operation p = subtraction -> operand2 p <= operand1 p /\ 0 <= answer p)
  /\ (operation p = division ->
      operand1 p = operand2 p * answer p /\ operand1 p mod operand2 p = 0)
  /\ In (operation p) (operations cfg)
  /\ operandBounds cfg p.

Section Generate.

Variable random : nat -> Q.
Hypothesis random_unit : unitInterval random.

Lemma randomInt_range (min max : Z) (k : nat) :
  min <= max -> min <= fst (randomInt random min max k) <= max.
Proof.
  intro Hle. unfold randomInt, bind, draw, ret. cbn [fst].
  destruct (random_unit k) as [H0 H1].
  pose proof (floor_scaled_range (random k) (max - min + 1) H0 H1). lia.
Qed.

Lemma randomInt_draws (min max : Z) (k : nat) :
  snd (randomInt random min max k) = S k.
Proof. reflexivity. Qed.

Lemma randomChoice_In {T : Type} (arr : list T) (k : nat) :
  arr <> [] -> exists x, fst (randomChoice random arr k) = Some x /\ In x arr.
Proof.
  intro Hne. unfold randomChoice, bind, draw, ret, JS.index. cbn [fst].
  destruct (random_unit k) as [H0 H1].
  assert (Hlen : 0 < Z.of_nat (List.length arr)).
  { destruct arr; [congruence | cbn; lia]. }
  pose proof (floor_scaled_range (random k) _ H0 H1 Hlen) as [Hlo Hhi].
  destruct (Z.ltb_spec (Qfloor (random k * inject_Z (Z.of_nat (List.length arr)))) 0);
    [lia|].
  destruct (nth_error arr (Z.to_nat _)) as [x|] eqn:Hnth.
  - exists x. split; [reflexivity | eapply nth_error_In; eassumption].
  - apply nth_error_None in Hnth. lia.
Qed.

Variable g : t.
Hypothesis maxNumber_pos : 1 <= maxNumber (config g).
Hypothesis maxMultiplier_pos : 1 <= maxMultiplier (config g).

Let N := maxNumber (config g).
Let M := maxMultiplier (config g).

Lemma generateAddition_spec (k : nat) :
  let p := fst (generateAddition random g k) in
  operation p = addition
  /\ answer p = operand1 p + operand2 p
  /\ 1 <= operand1 p <= N /\ 1 <= operand2 p <= N.
Proof.
  unfold generateAddition, bind, ret.
  pose proof (randomInt_range 1 N k maxNumber_pos) as H1.
  pose proof (randomInt_range 1 N (S k) maxNumber_pos) as H2.
  subst N. unfold randomInt, bind, draw, ret in *.
  cbn [fst snd operation answer operand1 operand2] in *. intuition lia.
Qed.

Lemma generateSubtraction_spec (k : nat) :
  let p := fst (generateSubtraction random g k) in
  operation p = subtraction
  /\ answer p = operand1 p - operand2 p
  /\ operand2 p <= operand1 p
  /\ 1 <= operand1 p <= N /\ 1 <= operand2 p <= N.
Proof.
  unfold generateSubtraction, bind, ret.
  pose proof (randomInt_range 1 N k maxNumber_pos) as H1.
  pose proof (randomInt_range 1 N (S k) maxNumber_pos) as H2.
  subst N. unfold randomInt, bind, draw, ret in *. cbn [fst snd] in *.
  match goal with
  | |- context [?a <? ?b] => destruct (Z.ltb_spec a b)
  end; cbn [fst snd operation answer operand1 operand2]; intuition lia.
Qed.

Lemma generateMultiplication_spec (k : nat) :
  let p := fst (generateMultiplication random g k) in
  operation p = multiplication
  /\ answer p = operand1 p * operand2 p
  /\ 1 <= operand1 p <= M /\ 1 <= operand2 p <= M.
Proof.
  unfold generateMultiplication, bind, ret.
  pose proof (randomInt_range 1 M k maxMultiplier_pos) as H1.
  pose proof (randomInt_range 1 M (S k) maxMultiplier_pos) as H2.
  subst M. unfold randomInt, bind, draw, ret in *.
  cbn [fst snd operation answer operand1 operand2] in *. intuition lia.
Qed.

Lemma generateDivision_spec (k : nat) :
  let p := fst (generateDivision random g k) in
  operation p = division
  /\ operand1 p = operand2 p * answer p
  /\ 1 <= operand2 p <= M /\ 1 <= answer p <= M.
Proof.
  unfold generateDivision, bind, ret.
  pose proof (randomInt_range 1 M k maxMultiplier_pos) as H1.
  pose proof (randomInt_range 1 M (S k) maxMultiplier_pos) as H2.
  subst M. unfold randomInt, bind, draw, ret in *.
  cbn [fst snd operation answer operand1 operand2] in *. intuition lia.
Qed.

Lemma includes_In (ops : list MathOperation) (op : MathOperation) :
  includes ops op = true -> In op ops.
Proof.
  unfold includes. rewrite existsb_exists. intros [x [Hx Heq]].
  destruct op, x; cbn in Heq; congruence.
Qed.

Lemma wellFormed_of_kind (p : MathProblem) :
  In (operation p) (operations (config g)) ->
  match operation p with
  | addition =>
      answer p = operand1 p + operand2 p
      /\ 1 <= operand1 p <= N /\ 1 <= operand2 p <= N
  | subtraction =>
      answer p = operand1 p - operand2 p /\ operand2 p <= operand1 p
      /\ 1 <= operand1 p <= N /\ 1 <= operand2 p <= N
  | multiplication =>
      answer p = operand1 p * operand2 p
      /\ 1 <= operand1 p <= M /\ 1 <= operand2 p <= M
  | division =>
      operand1 p = operand2 p * answer p
      /\ 1 <= operand2 p <= M /\ 1 <= answer p <= M
  end ->
  wellFormedProblem (config g) p.
Proof.
  intros Hin H. unfold wellFormedProblem, operandBounds, applyOperation.
  subst N M.
  destruct (operation p) eqn:Hop.
  - repeat split; try discriminate; try assumption; try lia. f_equal; lia.
  - repeat split; try discriminate; try assumption; try lia. f_equal; lia.
  - repeat split; try discriminate; try assumption; try lia. f_equal; lia.
  - destruct H as (Hmul & Hd & Ha).
    assert (Hmod : operand1 p mod operand2 p = 0).
    { rewrite Hmul, Z.mul_comm. apply Z.mod_mul. lia. }
    assert (Hdiv : operand1 p / operand2 p = answer p).
    { rewrite Hmul, Z.mul_comm. apply Z.div_mul. lia. }
    destruct (Z.eqb_spec (operand2 p) 0) as [E|_]; [lia|].
    rewrite Hmod. cbn.
    repeat split; try discriminate; try assumption; try lia.
    + congruence.
    + nia.
Qed.

Lemma generate_spec (preferredOperation : option MathOperation) (k : nat) :
  operations (config g) <> [] ->
  wellFormedProblem (config g) (fst (generate random g preferredOperation k)).
Proof.
  intro Hne. unfold generate, bind.
  assert (Hchoice : forall k0,
             exists op, fst (randomChoice random (operations (config g)) k0) = Some op
                        /\ In op (operations (config g)))
    by (intro; now apply randomChoice_In).
  assert (Hsel : exists op k1,
             (match preferredOperation with
              | Some preferred =>
                  if includes (operations (config g)) preferred
                  then ret (Some preferred)
                  else randomChoice random (operations (config g))
              | None => randomChoice random (operations (config g))
              end) k = (Some op, k1) /\ In op (operations (config g))).
  { destruct preferredOperation as [preferred|].
    - destruct (includes (operations (config g)) preferred) eqn:Hinc.
      + exists preferred, k. split; [reflexivity | now apply includes_In].
      + destruct (Hchoice k) as [op [Hop Hin]].
        destruct (randomChoice random (operations (config g)) k) as [o k1].
        cbn in Hop. subst o. now exists op, k1.
    - destruct (Hchoice k) as [op [Hop Hin]].
      destruct (randomChoice random (operations (config g)) k) as [o k1].
      cbn in Hop. subst o. now exists op, k1. }
  destruct Hsel as (op & k1 & -> & Hin).
  destruct op.
  - pose proof (generateAddition_spec k1) as (Hop & H).
    apply wellFormed_of_kind; rewrite Hop; assumption.
  - pose proof (generateSubtraction_spec k1) as (Hop & H).
    apply wellFormed_of_kind; rewrite Hop; assumption.
  - pose proof (generateMultiplication_spec k1) as (Hop & H).
    apply wellFormed_of_kind; rewrite Hop; assumption.
  - pose proof (generateDivision_spec k1) as (Hop & H).
    apply wellFormed_of_kind; rewrite Hop; assumption.
Qed.

End Generate.

Lemma level_cases (lvl : Z) :
  1 <= lvl <= 5 -> lvl = 1 \/ lvl = 2 \/ lvl = 3 \/ lvl = 4 \/ lvl = 5.
Proof. lia. Qed.

(** The constructor selects the table row of the clamped level. *)
Lemma new_config (lvl : Z) :
  1 <= lvl <= 5 ->
  difficultyLevel (new lvl) = lvl
  /\ In (config (new lvl)) DIFFICULTY_CONFIGS
  /\ level (config (new lvl)) = lvl
  /\ 1 <= maxNumber (config (new lvl))
  /\ 1 <= maxMultiplier (config (new lvl))
  /\ operations (config (new lvl)) <> [].
Proof.
  intro H.
  destruct (level_cases lvl H) as [->|[->|[->|[->| ->]]]];
    cbn; intuition (try lia; try discriminate).
Qed.

(** Out-of-range levels are clamped. *)
Lemma new_clamps (lvl : Z) : 1 <= difficultyLevel (new lvl) <= 5.
Proof. cbn. lia. Qed.


(** A source that always draws 0.95. *)
Definition alwaysHigh : nat -> Q := fun _ => (19 # 20)%Q.

(** A source that always draws 0.5. *)
Definition alwaysHalf : nat -> Q := fun _ => (1 # 2)%Q.

Lemma alwaysHigh_unit : unitInterval alwaysHigh.
Proof. intro k. split; unfold alwaysHigh, Qle, Qlt; simpl; lia. Qed.

Lemma alwaysHalf_unit : unitInterval alwaysHalf.
Proof. intro k. split; unfold alwaysHalf, Qle, Qlt; simpl; lia. Qed.

(** C2 as stated fails in its last part: at level 4 (operands up to 50,
    multipliers up to 10) the generator, drawing 0.95 every time, chooses
    a division and produces 100 / 10, whose first operand exceeds both
    magnitudes configured for the level. *)
Lemma dividend_exceeds_level_magnitudes_counterexample :
  unitInterval alwaysHigh
  /\ fst (generate alwaysHigh (new 4) None O)
     = {| operand1 := 100; operand2 := 10; operation := division; answer := 10;
          equation := "100 ÷ 10 = ?" |}
  /\ maxNumber (config (new 4)) = 50
  /\ maxMultiplier (config (new 4)) = 10
  /\ ~ withinConfiguredMagnitudes (config (new 4))
         (fst (generate alwaysHigh (new 4) None O)).
Proof.
  split; [exact alwaysHigh_unit|].
  split; [vm_compute; reflexivity|].
  split; [reflexivity|].
  split; [reflexivity|].
  intros [H _]. vm_compute in H. apply H. reflexivity.
Qed.

(** C2, amended.  For every difficulty level 1 to 5, every draw sequence
    in [0, 1) and every preferred operation, the generated problem's
    answer is the exact result of its operation on its operands; the
    operation is one the level allows; a subtraction has its operands
    ordered and a non-negative answer; a division has operand1 = operand2
    * answer and zero remainder; addends, minuend and subtrahend lie in
    [1, maxNumber], factors, divisor and quotient in [1, maxMultiplier],
    and a dividend in [1, maxMultiplier * maxMultiplier]. *)
Theorem generate_exact_and_bounded
    (random : nat -> Q) (lvl : Z) (preferredOperation : option MathOperation)
    (k : nat) :
  unitInterval random -> 1 <= lvl <= 5 ->
  wellFormedProblem (config (new lvl))
    (fst (generate random (new lvl) preferredOperation k)).
Proof.
  intros Hunit Hlvl.
  destruct (new_config lvl Hlvl) as (_ & _ & _ & HN & HM & Hops).
  apply generate_spec; assumption.
Qed.

Lemma generate_exact_and_bounded_witness :
  wellFormedProblem (config (new 3)) (fst (generate alwaysHalf (new 3) None O)).
Proof.
  apply (generate_exact_and_bounded alwaysHalf 3 None O).
  - intro k. split; unfold alwaysHalf, Qle, Qlt; simpl; lia.
  - lia.
Defined.

End MathGeneratorSpec.

(* ===================================================================== *)
(** * Properties of the game session                                      *)
(* ===================================================================== *)

Module GameSceneSpec.

Import MathGenerator GameScene.

(** ** Sessions used as examples *)

Definition typeSession : InitData :=
  {| mode := type; data_difficulty := 1; data_evolutionStage := 1 |}.

Definition shootSession : InitData :=
  {| mode := shoot; data_difficulty := 1; data_evolutionStage := 1 |}.

Definition halves : nat -> Q := fun _ => (1 # 2)%Q.

(** A type-mode session whose first problem was issued at time 1000. *)
Definition firstTypeProblem : t :=
  run FiveLives (fresh FiveLives) [SceneStart typeSession; TimerFired halves 1000].

(** A frame in which nothing is touched and every enemy has left the
    screen. *)
Definition allEnemiesGone : Frame :=
  {| now := 5000; spaceDown := false; touches := fun _ _ => false;
     bulletGone := fun _ => false; enemyGone := fun _ => true |}.

Example firstTypeProblem_state :
  currentProblem firstTypeProblem
  = Some {| operand1 := 6; operand2 := 6; operation := addition; answer := 12;
            equation := "6 + 6 = ?" |}
  /\ enemies firstTypeProblem
     = [{| container := 0; answerValue := 0; isCorrect := true |}]
  /\ emitted firstTypeProblem = [player_lives 5; problem_new "6 + 6 = ?" 12 None]
  /\ playerLives firstTypeProblem = 5
  /\ submitListeners firstTypeProblem = 1%nat.
Proof. vm_compute. repeat split. Qed.

Lemma startLives_range (revision : Revision) : 3 <= startLives revision <= 5.
Proof. destruct revision; cbn; lia. Qed.

Section AnyRevision.

Variable revision : Revision.

(** ** The effect of the two resolutions *)

Lemma handleCorrectAnswer_fields (now : Z) (s : t) :
  let streakBonus := Z.min 20 ((streak s + 1) * 2) in
  let timeBonus := if now - problemStartTime s <? 3000 then 5 else 0 in
  let xp := 10 + timeBonus + streakBonus in
  let s' := handleCorrectAnswer now s in
  correctAnswers s' = correctAnswers s + 1
  /\ streak s' = streak s + 1
  /\ bestStreak s' = Z.max (bestStreak s) (streak s + 1)
  /\ xpEarned s' = xpEarned s + xp
  /\ score s' = score s + (100 + streakBonus * 5)
  /\ playerLives s' = playerLives s
  /\ isGameOver s' = isGameOver s
  /\ isPaused s' = isPaused s
  /\ gameMode s' = gameMode s
  /\ currentProblem s' = currentProblem s
  /\ submitListeners s' = submitListeners s
  /\ enemies s' = enemies s
  /\ bullets s' = bullets s
  /\ timers s' = S (timers s)
  /\ emitted s'
     = emitted s ++ [answer_correct xp (streak s + 1);
                     score_update (score s + (100 + streakBonus * 5)) (streak s + 1)].
Proof.
  unfold handleCorrectAnswer. cbn.
  destruct (Z.ltb_spec (bestStreak s) (streak s + 1)); cbn;
    rewrite <- app_assoc; cbn; repeat split; lia.
Qed.

Lemma handleWrongAnswer_fields (s : t) :
  let s' := handleWrongAnswer revision s in
  streak s' = 0
  /\ playerLives s' = playerLives s - 1
  /\ isGameOver s' = (playerLives s - 1 <=? 0) || isGameOver s
  /\ score s' = score s
  /\ xpEarned s' = xpEarned s
  /\ correctAnswers s' = correctAnswers s
  /\ bestStreak s' = bestStreak s
  /\ currentProblem s' = currentProblem s
  /\ isPaused s' = isPaused s
  /\ gameMode s' = gameMode s
  /\ submitListeners s' = submitListeners s
  /\ enemies s' = enemies s
  /\ bullets s' = bullets s
  /\ timers s' = timers s
  /\ emitted s'
     = emitted s
       ++ (if publishesLives revision
           then [player_lives (playerLives s - 1)] else [])
       ++ [answer_wrong; score_update (score s) 0]
       ++ (if playerLives s - 1 <=? 0
           then [game_over (score s) (correctAnswers s) (xpEarned s) (bestStreak s)]
           else []).
Proof.
  unfold handleWrongAnswer, emitLivesUpdate.
  destruct (publishesLives revision); cbn;
    destruct (playerLives s - 1 <=? 0); cbn;
    repeat rewrite <- app_assoc; cbn; repeat split; reflexivity.
Qed.


(** ** What the rest of the scene leaves alone *)

(** The part of the state that the session rules speak about. *)
Definition core (s : t) :=
  (score s, streak s, bestStreak s, correctAnswers s, xpEarned s,
   playerLives s, isGameOver s, isPaused s, gameMode s, currentProblem s,
   submitListeners s).

Lemma core_fields (s s' : t) :
  core s = core s' ->
  score s = score s' /\ streak s = streak s' /\ bestStreak s = bestStreak s'
  /\ correctAnswers s = correctAnswers s' /\ xpEarned s = xpEarned s'
  /\ playerLives s = playerLives s' /\ isGameOver s = isGameOver s'
  /\ isPaused s = isPaused s' /\ gameMode s = gameMode s'
  /\ currentProblem s = currentProblem s'
  /\ submitListeners s = submitListeners s'.
Proof. unfold core. intro H. inversion H. repeat split; assumption. Qed.

Lemma downFrom_ind {S : Type} (P : S -> Prop) (body : nat -> S -> S) :
  (forall i s, P s -> P (body i s)) ->
  forall n s, P s -> P (JS.downFrom n body s).
Proof.
  intros Hbody n. induction n as [|n IH]; intros s Hs; cbn; [assumption|].
  apply IH, Hbody, Hs.
Qed.

Lemma pushEnemies_core (answers : list Z) (c : Z) :
  forall s, core (pushEnemies answers c s) = core s
            /\ emitted (pushEnemies answers c s) = emitted s
            /\ timers (pushEnemies answers c s) = timers s
            /\ bullets (pushEnemies answers c s) = bullets s.
Proof.
  induction answers as [|a rest IH]; intro s; cbn [pushEnemies]; [repeat split|].
  unfold createEnemy.
  destruct (IH (set_enemies
                  (enemies (set_objects (S (objects s)) s)
                   ++ [{| container := objects s; answerValue := a;
                          isCorrect := a =? c |}])
                  (set_objects (S (objects s)) s))) as (H1 & H2 & H3 & H4).
  rewrite H1, H2, H3, H4. repeat split.
Qed.

(** [generateNewProblem] touches the current problem, its issue time, the
    enemies and the trace, and nothing else. *)
Lemma generateNewProblem_fields (random : nat -> Q) (now : Z) (s : t) :
  let s' := generateNewProblem random now s in
  score s' = score s /\ streak s' = streak s /\ bestStreak s' = bestStreak s
  /\ correctAnswers s' = correctAnswers s /\ xpEarned s' = xpEarned s
  /\ playerLives s' = playerLives s /\ isGameOver s' = isGameOver s
  /\ isPaused s' = isPaused s /\ gameMode s' = gameMode s
  /\ submitListeners s' = submitListeners s
  /\ timers s' = timers s.
Proof.
  cbv zeta. unfold generateNewProblem.
  destruct (isGameOver s) eqn:Hover; [repeat split; congruence|].
  destruct (mathGenerator s) as [g|]; [|repeat split; congruence].
  destruct (generate random g None O) as [p k].
  cbn [gameMode set_currentProblem set_problemStartTime clearEnemies set_enemies].
  destruct (gameMode s) eqn:Hmode.
  - destruct (generateWrongAnswers random (answer p) 3 k) as [ws k'].
    unfold spawnAnswerEnemies, bind, ret.
    destruct (shuffleLoop random _ _ k') as [answers k''].
    cbn [fst].
    match goal with
    | |- context [pushEnemies ?a ?c ?x] =>
        destruct (pushEnemies_core a c x) as (Hc & _ & Ht & _);
        apply core_fields in Hc;
        destruct Hc as (? & ? & ? & ? & ? & ? & ? & ? & ? & ? & ?)
    end.
    cbn in *. repeat split; congruence.
  - cbn. repeat split; congruence.
Qed.


(** Changes that do not reach [core]. *)
Lemma set_enemies_core (v : list EnemyData) (s : t) : core (set_enemies v s) = core s.
Proof. reflexivity. Qed.

Lemma set_bullets_core (v : list nat) (s : t) : core (set_bullets v s) = core s.
Proof. reflexivity. Qed.

Lemma delayedCall_core (s : t) : core (delayedCall s) = core s.
Proof. reflexivity. Qed.

Lemma fire_core (now : Z) (s : t) : core (fire now s) = core s.
Proof. unfold fire. destruct (now - lastFireTime s <? fireDelay s); reflexivity. Qed.

Section UpdateInduction.

(** A property of the session rules that both resolutions maintain is
    maintained by a whole frame. *)
Variable P : t -> Prop.
Hypothesis P_core : forall s s', core s = core s' -> P s -> P s'.
Hypothesis P_correct : forall now s, P s -> P (handleCorrectAnswer now s).
Hypothesis P_wrong : forall s, P s -> P (handleWrongAnswer revision s).

Lemma collide_ind (frame : Frame) (i : nat) (s : t) : P s -> P (collide revision frame i s).
Proof.
  intro Hs. unfold collide.
  destruct (nth_error (bullets s) i) as [bullet|]; [|assumption].
  destruct (findTouched frame bullet (enemies s) _) as [j|]; [|assumption].
  destruct (nth_error (enemies s) j) as [enemy|]; [|assumption].
  cbn [gameMode set_bullets].
  assert (H1 : P (set_bullets (JS.splice1 (bullets s) i) s))
    by (eapply P_core; [|exact Hs]; symmetry; apply set_bullets_core).
  destruct (gameMode s).
  - destruct (isAnswer _ _).
    + eapply P_core; [|apply (P_correct (now frame)), H1].
      symmetry; apply set_enemies_core.
    + eapply P_core; [|apply P_wrong, H1]. symmetry; apply set_enemies_core.
  - eapply P_core; [|exact H1]. symmetry; apply set_enemies_core.
Qed.

Lemma dropBullet_ind (frame : Frame) (i : nat) (s : t) :
  P s -> P (dropBullet frame i s).
Proof.
  intro Hs. unfold dropBullet.
  destruct (nth_error (bullets s) i) as [bullet|]; [|assumption].
  destruct (bulletGone frame bullet); [|assumption].
  eapply P_core; [|exact Hs]. symmetry; apply set_bullets_core.
Qed.

Lemma missEnemy_ind (frame : Frame) (i : nat) (s : t) :
  P s -> P (missEnemy revision frame i s).
Proof.
  intro Hs. unfold missEnemy.
  destruct (nth_error (enemies s) i) as [enemy|]; [|assumption].
  destruct (enemyGone frame (container enemy)); [|assumption].
  cbv zeta.
  set (s1 := if isCorrect enemy || isType (gameMode s)
             then handleWrongAnswer revision s else s).
  assert (H1 : P s1).
  { subst s1. destruct (isCorrect enemy || isType (gameMode s));
      [now apply P_wrong | assumption]. }
  clearbody s1.
  assert (H2 : P (set_enemies (JS.splice1 (enemies s1) i) s1))
    by (eapply P_core; [|exact H1]; symmetry; apply set_enemies_core).
  match goal with
  | |- P (if ?b then _ else _) => destruct b
  end; [|assumption].
  eapply P_core; [|exact H2]. symmetry; apply delayedCall_core.
Qed.

Lemma update_ind (frame : Frame) (s : t) : P s -> P (update revision frame s).
Proof.
  intro Hs. unfold update.
  destruct (isGameOver s || isPaused s); [assumption|].
  apply downFrom_ind; [apply missEnemy_ind|].
  apply downFrom_ind; [apply dropBullet_ind|].
  unfold checkBulletEnemyCollision.
  apply downFrom_ind; [apply collide_ind|].
  destruct (gameMode s); [|assumption].
  destruct (spaceDown frame); [|assumption].
  eapply P_core; [|exact Hs]. symmetry. apply fire_core.
Qed.

Lemma onAnswerSubmit_ind (answer now : Z) (s : t) :
  P s -> P (onAnswerSubmit revision answer now s).
Proof.
  intro Hs. unfold onAnswerSubmit.
  destruct (isType (gameMode s) && negb (isGameOver s) && negb (isPaused s));
    [|assumption].
  unfold checkTypedAnswer.
  destruct (currentProblem s) as [problem|]; [|assumption].
  destruct (answer =? MathGenerator.answer problem).
  - apply P_correct. destruct (enemies s); [assumption|].
    eapply P_core; [|exact Hs]. symmetry; apply set_enemies_core.
  - now apply P_wrong.
Qed.

Lemma answerSubmit_ind (answer now : Z) (n : nat) (s : t) :
  P s -> P (Nat.iter n (onAnswerSubmit revision answer now) s).
Proof.
  intro Hs. induction n as [|n IH]; cbn; [assumption|].
  now apply onAnswerSubmit_ind.
Qed.

End UpdateInduction.


(** ** Invariants of a session *)

(** What holds in every state a scene can reach. *)
Definition sound (s : t) : Prop :=
  0 <= score s
  /\ 0 <= xpEarned s
  /\ 0 <= streak s <= bestStreak s
  /\ 0 <= correctAnswers s
  /\ playerLives s <= startLives revision
  /\ (isGameOver s = true <-> playerLives s <= 0).

(** Score and experience of [s] are at least those of [s0]. *)
Definition advances (s0 s : t) : Prop :=
  score s0 <= score s /\ xpEarned s0 <= xpEarned s.

Lemma sound_core (s s' : t) : core s = core s' -> sound s -> sound s'.
Proof.
  intros Hc. apply core_fields in Hc.
  destruct Hc as (H1 & H2 & H3 & H4 & H5 & H6 & H7 & _).
  unfold sound. rewrite H1, H2, H3, H4, H5, H6, H7. tauto.
Qed.

Lemma sound_correct (now : Z) (s : t) : sound s -> sound (handleCorrectAnswer now s).
Proof.
  intros (Hs & Hx & Hst & Hc & Hl & Ho).
  destruct (handleCorrectAnswer_fields now s)
    as (E1 & E2 & E3 & E4 & E5 & E6 & E7 & _).
  unfold sound. rewrite E1, E2, E3, E4, E5, E6, E7.
  destruct (now - problemStartTime s <? 3000); repeat split; try lia; tauto.
Qed.

Lemma sound_wrong (s : t) : sound s -> sound (handleWrongAnswer revision s).
Proof.
  intros (Hs & Hx & Hst & Hc & Hl & Ho).
  destruct (handleWrongAnswer_fields s)
    as (E1 & E2 & E3 & E4 & E5 & E6 & E7 & _).
  unfold sound. rewrite E1, E2, E3, E4, E5, E6, E7.
  repeat split; try lia.
  intro Hov. destruct (Z.leb_spec (playerLives s - 1) 0); [lia|].
  cbn in Hov. assert (playerLives s <= 0) by now apply Ho. lia.
Qed.

Lemma sound_generateNewProblem (random : nat -> Q) (now : Z) (s : t) :
  sound s -> sound (generateNewProblem random now s).
Proof.
  destruct (generateNewProblem_fields random now s)
    as (E1 & E2 & E3 & E4 & E5 & E6 & E7 & _).
  unfold sound. rewrite E1, E2, E3, E4, E5, E6, E7. tauto.
Qed.

Lemma sound_sceneStart (data : InitData) (s : t) :
  sound (step revision s (SceneStart data)).
Proof.
  pose proof (startLives_range revision).
  unfold sound, step, create, init, emitLivesUpdate.
  destruct (publishesLives revision); cbn; repeat split; try lia; try discriminate.
Qed.

Lemma sound_step (s : t) (i : Input) : sound s -> sound (step revision s i).
Proof.
  intro Hs. destruct i as [data|random now|frame|answer now| | |].
  - apply sound_sceneStart.
  - cbn [step]. destruct (isPaused s); [assumption|].
    destruct (timers s) eqn:Ht; [assumption|].
    apply sound_generateNewProblem. eapply sound_core; [|exact Hs]. reflexivity.
  - cbn [step]. apply (update_ind sound sound_core sound_correct sound_wrong _ _ Hs).
  - cbn [step].
    apply (answerSubmit_ind sound sound_core sound_correct sound_wrong _ _ _ _ Hs).
  - exact Hs.
  - exact Hs.
  - exact Hs.
Qed.

Lemma sound_run (inputs : list Input) : forall s, sound s -> sound (run revision s inputs).
Proof.
  induction inputs as [|i inputs IH]; intros s Hs; cbn; [assumption|].
  apply IH, sound_step, Hs.
Qed.

Lemma sound_fresh : sound (fresh revision).
Proof.
  pose proof (startLives_range revision).
  unfold sound; cbn; repeat split; try lia; discriminate.
Qed.

Lemma reachable_sound (s : t) : reachable revision s -> sound s.
Proof. intros [inputs ->]. apply sound_run, sound_fresh. Qed.

Lemma reachable_step (s : t) (i : Input) : reachable revision s -> reachable revision (step revision s i).
Proof.
  intros [inputs ->]. exists (inputs ++ [i]).
  unfold run. rewrite fold_left_app. reflexivity.
Qed.

(** Within a session, score and experience only grow. *)
Lemma advances_step (s : t) (i : Input) :
  sound s -> (forall data, i <> SceneStart data) -> advances s (step revision s i).
Proof.
  intros Hs Hi.
  pose (P := fun s' => sound s' /\ advances s s').
  assert (P0 : P s) by (split; [assumption | unfold advances; lia]).
  assert (Pcore : forall a b, core a = core b -> P a -> P b).
  { intros a b Hc [Ha Hadv]. split; [eapply sound_core; eassumption|].
    apply core_fields in Hc. destruct Hc as (H1 & _ & _ & _ & H5 & _).
    unfold advances in *. rewrite <- H1, <- H5. assumption. }
  assert (Pcorrect : forall now a, P a -> P (handleCorrectAnswer now a)).
  { intros now a [Ha Hadv]. split; [now apply sound_correct|].
    destruct Ha as (_ & _ & Hst & _).
    destruct (handleCorrectAnswer_fields now a) as (_ & _ & _ & E4 & E5 & _).
    unfold advances in *. rewrite E4, E5.
    destruct (now - problemStartTime a <? 3000); lia. }
  assert (Pwrong : forall a, P a -> P (handleWrongAnswer revision a)).
  { intros a [Ha Hadv]. split; [now apply sound_wrong|].
    destruct (handleWrongAnswer_fields a) as (_ & _ & _ & E4 & E5 & _).
    unfold advances in *. rewrite E4, E5. assumption. }
  destruct i as [data|random now|frame|answer now| | |].
  - exfalso. now apply (Hi data).
  - cbn [step]. destruct (isPaused s); [apply P0|].
    destruct (timers s); [apply P0|].
    destruct (generateNewProblem_fields random now (set_timers n s))
      as (E1 & _ & _ & _ & E5 & _).
    unfold advances. rewrite E1, E5. cbn. lia.
  - cbn [step]. apply (update_ind P Pcore Pcorrect Pwrong frame s P0).
  - cbn [step]. apply (answerSubmit_ind P Pcore Pcorrect Pwrong _ _ _ s P0).
  - unfold advances; cbn; lia.
  - unfold advances; cbn; lia.
  - unfold advances; cbn; lia.
Qed.

(** Once the game is over it stays over until the scene is started again. *)
Lemma gameOver_stays (s : t) (i : Input) :
  (forall data, i <> SceneStart data) ->
  isGameOver s = true -> isGameOver (step revision s i) = true.
Proof.
  intros Hi Hover.
  pose (P := fun s' => isGameOver s' = true).
  assert (Pcore : forall a b, core a = core b -> P a -> P b).
  { intros a b Hc Ha. apply core_fields in Hc. unfold P in *.
    destruct Hc as (_ & _ & _ & _ & _ & _ & H7 & _). congruence. }
  assert (Pcorrect : forall now a, P a -> P (handleCorrectAnswer now a)).
  { intros now a Ha. unfold P in *.
    destruct (handleCorrectAnswer_fields now a) as (_ & _ & _ & _ & _ & _ & E7 & _).
    congruence. }
  assert (Pwrong : forall a, P a -> P (handleWrongAnswer revision a)).
  { intros a Ha. unfold P in *.
    destruct (handleWrongAnswer_fields a) as (_ & _ & E3 & _).
    rewrite E3, Ha. apply orb_true_r. }
  destruct i as [data|random now|frame|answer now| | |].
  - exfalso. now apply (Hi data).
  - cbn [step]. destruct (isPaused s); [assumption|].
    destruct (timers s); [assumption|].
    destruct (generateNewProblem_fields random now (set_timers n s))
      as (_ & _ & _ & _ & _ & _ & E7 & _).
    rewrite E7. exact Hover.
  - cbn [step]. apply (update_ind P Pcore Pcorrect Pwrong frame s Hover).
  - cbn [step]. apply (answerSubmit_ind P Pcore Pcorrect Pwrong _ _ _ s Hover).
  - exact Hover.
  - exact Hover.
  - exact Hover.
Qed.

Lemma published_app (s s' : t) (events : list Emitted) :
  emitted s' = emitted s ++ events -> published s s' = events.
Proof.
  intro H. unfold published. rewrite H, skipn_app, skipn_all, Nat.sub_diag.
  reflexivity.
Qed.


(** ** The first answer of a session *)

(** The state in which the first problem of a first type-mode session
    waits for its answer. *)
Lemma firstProblem_state (data : InitData) (random : nat -> Q) (issued : Z) :
  mode data = type ->
  exists s0 : t,
    run revision (fresh revision) [SceneStart data; TimerFired random issued]
    = spawnTypeEnemy
        (emit (problem_new
                 (equation (fst (generate random
                                   (MathGenerator.new (orOne (data_difficulty data)))
                                   None O)))
                 (answer (fst (generate random
                                 (MathGenerator.new (orOne (data_difficulty data)))
                                 None O)))
                 None)
           (clearEnemies
              (set_problemStartTime issued
                 (set_currentProblem
                    (Some (fst (generate random
                                  (MathGenerator.new (orOne (data_difficulty data)))
                                  None O)))
                    s0))))
    /\ gameMode s0 = type /\ isGameOver s0 = false /\ isPaused s0 = false
    /\ streak s0 = 0 /\ score s0 = 0 /\ xpEarned s0 = 0 /\ bestStreak s0 = 0
    /\ correctAnswers s0 = 0 /\ playerLives s0 = startLives revision
    /\ submitListeners s0 = 1%nat.
Proof.
  intro Hmode.
  exists (set_timers O (step revision (fresh revision) (SceneStart data))).
  assert (Hfields :
            forall s1, s1 = step revision (fresh revision) (SceneStart data) ->
              timers s1 = 1%nat /\ isPaused s1 = false
              /\ mathGenerator s1
                 = Some (MathGenerator.new (orOne (data_difficulty data)))
              /\ isGameOver s1 = false /\ gameMode s1 = mode data
              /\ streak s1 = 0 /\ score s1 = 0 /\ xpEarned s1 = 0
              /\ bestStreak s1 = 0 /\ correctAnswers s1 = 0
              /\ playerLives s1 = startLives revision
              /\ submitListeners s1 = 1%nat).
  { intros s1 ->. unfold step, create, init, emitLivesUpdate.
    destruct (publishesLives revision); cbn; repeat split. }
  set (s1 := step revision (fresh revision) (SceneStart data)) in *.
  destruct (Hfields s1 eq_refl)
    as (Ht & Hp & Hg & Ho & Hm & H1 & H2 & H3 & H4 & H5 & H6 & H7).
  rewrite Hmode in Hm.
  split; [|repeat split; assumption].
  unfold run. cbn [fold_left]. fold s1.
  change (mathGenerator s1) with (mathGenerator (set_timers O s1)) in Hg.
  change (isGameOver s1) with (isGameOver (set_timers O s1)) in Ho.
  change (gameMode s1) with (gameMode (set_timers O s1)) in Hm.
  clear Hfields H1 H2 H3 H4 H5 H6 H7.
  cbn [step]. rewrite Hp, Ht.
  generalize dependent (set_timers O s1). intros s2 Hg Ho Hm.
  unfold generateNewProblem. rewrite Ho, Hg.
  destruct (generate random _ None O) as [p k]. cbn [fst].
  cbn [gameMode set_currentProblem set_problemStartTime clearEnemies set_enemies].
  rewrite Hm. reflexivity.
Qed.

(** The listener of [answer:submit], when the typed value is the answer. *)
Lemma onAnswerSubmit_correct (now : Z) (s : t) (p : MathProblem) :
  gameMode s = type -> isGameOver s = false -> isPaused s = false ->
  currentProblem s = Some p ->
  onAnswerSubmit revision (answer p) now s
  = handleCorrectAnswer now
      (match enemies s with [] => s | _ :: _ => set_enemies [] s end).
Proof.
  intros Hm Ho Hp Hc. unfold onAnswerSubmit, checkTypedAnswer.
  rewrite Hm, Ho, Hp, Hc, Z.eqb_refl. reflexivity.
Qed.

(** The listener of [answer:submit], when the typed value is another number. *)
Lemma onAnswerSubmit_wrong (value now : Z) (s : t) (p : MathProblem) :
  gameMode s = type -> isGameOver s = false -> isPaused s = false ->
  currentProblem s = Some p -> value <> answer p ->
  onAnswerSubmit revision value now s = handleWrongAnswer revision s.
Proof.
  intros Hm Ho Hp Hc Hne. unfold onAnswerSubmit, checkTypedAnswer.
  rewrite Hm, Ho, Hp, Hc. apply Z.eqb_neq in Hne. rewrite Hne. reflexivity.
Qed.


(** C3, amended.  In the first type-mode session of a scene, submitting
    the correct answer to the first problem less than 3000 ms after it
    was issued publishes [answer:correct] with xp 17 (10 base + 5 time
    bonus + 2 streak bonus: the streak is incremented to 1 before the
    bonus [min(20, streak * 2)] is computed) and streak 1, followed by
    [score:update] with score 110. *)
Theorem first_correct_answer_xp
    (data : InitData) (random : nat -> Q) (issued answered : Z) :
  mode data = type -> answered - issued < 3000 ->
  exists p,
    currentProblem (run revision (fresh revision) [SceneStart data; TimerFired random issued]) = Some p
    /\ published (run revision (fresh revision) [SceneStart data; TimerFired random issued])
         (step revision (run revision (fresh revision) [SceneStart data; TimerFired random issued])
            (AnswerSubmit (answer p) answered))
       = [answer_correct 17 1; score_update 110 1].
Proof.
  intros Hmode Htime.
  destruct (firstProblem_state data random issued Hmode)
    as (s0 & -> & Hm & Ho & Hp & Hst & Hsc & Hxp & Hbs & Hca & Hl & Hls).
  set (p := fst (generate random (MathGenerator.new (orOne (data_difficulty data)))
                   None O)).
  exists p. split; [reflexivity|].
  apply published_app.
  cbn [step]. unfold spawnTypeEnemy, createEnemy.
  cbn [submitListeners set_enemies set_objects emit set_emitted clearEnemies
       set_problemStartTime set_currentProblem].
  rewrite Hls. cbn [Nat.iter nat_rect].
  rewrite (onAnswerSubmit_correct answered _ p); try assumption; try reflexivity.
  match goal with
  | |- emitted (handleCorrectAnswer _ ?x) = _ =>
      destruct (handleCorrectAnswer_fields answered x) as (_ & _ & _ & _ & _ & _ & _ & _
        & _ & _ & _ & _ & _ & _ & E)
  end.
  rewrite E. cbn.
  rewrite Hst, Hsc.
  destruct (Z.ltb_spec (answered - issued) 3000); [reflexivity | lia].
Qed.



(** ** Start, lives and the end of a session *)

Lemma sceneStart_fields (data : InitData) (s : t) :
  score (step revision s (SceneStart data)) = 0
  /\ streak (step revision s (SceneStart data)) = 0
  /\ bestStreak (step revision s (SceneStart data)) = 0
  /\ correctAnswers (step revision s (SceneStart data)) = 0
  /\ xpEarned (step revision s (SceneStart data)) = 0
  /\ playerLives (step revision s (SceneStart data)) = startLives revision
  /\ isGameOver (step revision s (SceneStart data)) = false
  /\ isPaused (step revision s (SceneStart data)) = false
  /\ currentProblem (step revision s (SceneStart data)) = None
  /\ gameMode (step revision s (SceneStart data)) = mode data
  /\ published s (step revision s (SceneStart data))
     = (if publishesLives revision then [player_lives (startLives revision)]
        else []).
Proof.
  unfold step, create, init, emitLivesUpdate.
  destruct (publishesLives revision);
    (repeat (split; [reflexivity|])); apply published_app; cbn.
  - reflexivity.
  - now rewrite app_nil_r.
Qed.

(** C4, amended.  In every state [s] a scene can reach: starting a
    session sets score, streak, bestStreak, correctAnswers and xpEarned
    to 0 and playerLives to the starting lives of the revision, which are
    5 in the revision that publishes [player:lives] and 3 in
    [src/game/scenes/GameScene.ts]; an incorrect resolution
    ([handleWrongAnswer]) lowers playerLives by exactly one and sets
    streak to 0; the game is over exactly when playerLives has reached 0
    (it is at most 0 exactly in the over state, and from a running
    session the resolution that ends it is the one that brings
    playerLives to 0); that resolution publishes exactly one [game:over]
    summary, carrying score, correctAnswers, xpEarned and bestStreak, and
    any other publishes none; and the over state is left only by a new
    start. *)
Theorem session_start_lives_and_end (s : t) (data : InitData) :
  reachable revision s ->
  (score (step revision s (SceneStart data)) = 0
   /\ streak (step revision s (SceneStart data)) = 0
   /\ bestStreak (step revision s (SceneStart data)) = 0
   /\ correctAnswers (step revision s (SceneStart data)) = 0
   /\ xpEarned (step revision s (SceneStart data)) = 0
   /\ playerLives (step revision s (SceneStart data)) = startLives revision
   /\ startLives revision = (match revision with FiveLives => 5 | ThreeLives => 3 end)
   /\ isGameOver (step revision s (SceneStart data)) = false)
  /\ (playerLives (handleWrongAnswer revision s) = playerLives s - 1
      /\ streak (handleWrongAnswer revision s) = 0)
  /\ (isGameOver s = true <-> playerLives s <= 0)
  /\ (isGameOver s = false ->
      1 <= playerLives s <= startLives revision
      /\ (isGameOver (handleWrongAnswer revision s) = true
          <-> playerLives (handleWrongAnswer revision s) = 0)
      /\ filter isGameOverEvent (published s (handleWrongAnswer revision s))
         = (if playerLives (handleWrongAnswer revision s) =? 0
            then [game_over (score s) (correctAnswers s) (xpEarned s)
                    (bestStreak s)]
            else []))
  /\ (forall i, (forall d, i <> SceneStart d) ->
                isGameOver s = true -> isGameOver (step revision s i) = true).
Proof.
  intro Hreach.
  pose proof (reachable_sound s Hreach) as (Hs & Hx & Hst & Hc & Hl & Ho).
  destruct (handleWrongAnswer_fields s)
    as (E1 & E2 & E3 & _ & _ & _ & _ & _ & _ & _ & _ & _ & _ & _ & E15).
  split.
  { destruct (sceneStart_fields data s) as (? & ? & ? & ? & ? & ? & ? & _).
    repeat split; assumption. }
  split; [split; assumption|].
  split; [exact Ho|].
  split.
  - intro Hrun.
    assert (Hpos : 1 <= playerLives s).
    { destruct (Z.le_gt_cases (playerLives s) 0) as [Hle|Hgt]; [|lia].
      apply Ho in Hle. congruence. }
    split; [lia|]. split.
    + rewrite E3, E2, Hrun, orb_false_r. rewrite Z.leb_le. lia.
    + rewrite (published_app _ _ _ E15), E2.
      replace (playerLives s - 1 =? 0) with (playerLives s - 1 <=? 0).
      * destruct (publishesLives revision);
          destruct (playerLives s - 1 <=? 0); reflexivity.
      * destruct (Z.leb_spec (playerLives s - 1) 0);
          destruct (Z.eqb_spec (playerLives s - 1) 0); try reflexivity; lia.
  - intros i Hi Hover. now apply gameOver_stays.
Qed.

(** ** Pause and resume *)

(** C9.  In every reachable state, of either revision, in which the
    session is neither over nor paused, [game:pause] followed at once by [game:resume] leaves
    score, streak, playerLives and currentProblem as they were; the whole
    state is the one before the pause. *)
Theorem pause_then_resume_changes_nothing (s : t) :
  reachable revision s -> isGameOver s = false -> isPaused s = false ->
  score (step revision (step revision s GamePause) GameResume) = score s
  /\ streak (step revision (step revision s GamePause) GameResume) = streak s
  /\ playerLives (step revision (step revision s GamePause) GameResume) = playerLives s
  /\ currentProblem (step revision (step revision s GamePause) GameResume) = currentProblem s
  /\ step revision (step revision s GamePause) GameResume = s.
Proof.
  intros _ _ Hp.
  repeat (split; [reflexivity|]).
  destruct s. cbn in *. subst. reflexivity.
Qed.


(** While the scene is paused a typed answer and a frame do nothing. *)
Lemma paused_ignores_answers_and_frames
    (s : t) (answer now : Z) (frame : Frame) :
  isPaused s = true ->
  step revision s (AnswerSubmit answer now) = s /\ step revision s (Update frame) = s.
Proof.
  intro Hp. split.
  - cbn [step]. generalize (submitListeners s). intro n.
    induction n as [|n IH]; [reflexivity|].
    rewrite Nat.iter_succ, IH. unfold onAnswerSubmit. rewrite Hp.
    rewrite andb_false_r. reflexivity.
  - cbn [step]. unfold update. rewrite Hp, orb_true_r. reflexivity.
Qed.

(** ** Score and experience *)

(** C10.  In every reachable state, of either revision, score and
    xpEarned (integers in the model) are non-negative, and no input other than a new start makes
    either smaller; an incorrect resolution leaves score, xpEarned,
    correctAnswers, bestStreak and the current problem unchanged (it
    changes streak and playerLives); and a correct resolution adds
    10 + timeBonus + streakBonus experience and 100 + 5 * streakBonus
    score, where timeBonus is 0 or 5 and streakBonus =
    min(20, 2 * new streak) lies between 0 and 20. *)
Theorem score_and_xp_never_decrease (s : t) (i : Input) (now : Z) :
  reachable revision s -> (forall data, i <> SceneStart data) ->
  (0 <= score s /\ 0 <= xpEarned s)
  /\ (score s <= score (step revision s i) /\ xpEarned s <= xpEarned (step revision s i))
  /\ (score (handleWrongAnswer revision s) = score s
      /\ xpEarned (handleWrongAnswer revision s) = xpEarned s
      /\ correctAnswers (handleWrongAnswer revision s) = correctAnswers s
      /\ bestStreak (handleWrongAnswer revision s) = bestStreak s
      /\ currentProblem (handleWrongAnswer revision s) = currentProblem s
      /\ streak (handleWrongAnswer revision s) = 0
      /\ playerLives (handleWrongAnswer revision s) = playerLives s - 1)
  /\ (exists timeBonus streakBonus,
         (timeBonus = 0 \/ timeBonus = 5)
         /\ streakBonus = Z.min 20 ((streak s + 1) * 2)
         /\ 0 <= streakBonus <= 20
         /\ xpEarned (handleCorrectAnswer now s)
            = xpEarned s + (10 + timeBonus + streakBonus)
         /\ score (handleCorrectAnswer now s)
            = score s + (100 + streakBonus * 5)).
Proof.
  intros Hreach Hi.
  pose proof (reachable_sound s Hreach) as Hsound.
  pose proof Hsound as (Hs & Hx & Hst & Hc & Hl & Ho).
  split; [split; assumption|].
  split; [now apply advances_step|].
  split.
  { destruct (handleWrongAnswer_fields s)
      as (E1 & E2 & _ & E4 & E5 & E6 & E7 & E8 & _).
    repeat split; assumption. }
  destruct (handleCorrectAnswer_fields now s) as (_ & _ & _ & E4 & E5 & _).
  exists (if now - problemStartTime s <? 3000 then 5 else 0),
         (Z.min 20 ((streak s + 1) * 2)).
  split; [destruct (now - problemStartTime s <? 3000); auto|].
  split; [reflexivity|].
  split; [lia|].
  split; assumption.
Qed.




(** ** The shape of a type-mode session *)

(** In type mode there is no bullet and at most one enemy. *)
Definition typeShape (s : t) : Prop :=
  gameMode s = type /\ bullets s = [] /\ (List.length (enemies s) <= 1)%nat.

Lemma splice1_length {T : Type} (l : list T) (i : nat) :
  (List.length (JS.splice1 l i) <= List.length l)%nat.
Proof.
  unfold JS.splice1. rewrite length_app, length_firstn, length_skipn. lia.
Qed.

Lemma generateNewProblem_shape (random : nat -> Q) (now : Z) (s : t) :
  gameMode (generateNewProblem random now s) = gameMode s
  /\ bullets (generateNewProblem random now s) = bullets s
  /\ (gameMode s = type ->
      (List.length (enemies s) <= 1)%nat ->
      (List.length (enemies (generateNewProblem random now s)) <= 1)%nat)
  /\ exists events,
       emitted (generateNewProblem random now s) = emitted s ++ events
       /\ filter isGameOverEvent events = [].
Proof.
  assert (Hsame : gameMode s = gameMode s /\ bullets s = bullets s
                  /\ (gameMode s = type ->
                      (List.length (enemies s) <= 1)%nat ->
                      (List.length (enemies s) <= 1)%nat)
                  /\ exists events,
                       emitted s = emitted s ++ events
                       /\ filter isGameOverEvent events = []).
  { split; [reflexivity|]. split; [reflexivity|]. split; [tauto|].
    exists []. now rewrite app_nil_r. }
  unfold generateNewProblem.
  destruct (isGameOver s); [exact Hsame|].
  destruct (mathGenerator s) as [g|]; [|exact Hsame].
  clear Hsame.
  destruct (generate random g None O) as [p k].
  cbn [gameMode set_currentProblem set_problemStartTime clearEnemies set_enemies].
  destruct (gameMode s) eqn:Hmode.
  - destruct (generateWrongAnswers random (answer p) 3 k) as [ws k'].
    unfold spawnAnswerEnemies, bind, ret.
    destruct (shuffleLoop random _ _ k') as [answers k'']. cbn [fst].
    match goal with
    | |- context [pushEnemies ?a ?c ?x] =>
        destruct (pushEnemies_core a c x) as (Hc & He & _ & Hb);
        apply core_fields in Hc;
        destruct Hc as (_ & _ & _ & _ & _ & _ & _ & _ & Hm & _)
    end.
    rewrite Hm, Hb, He. cbn.
    split; [assumption|]. split; [reflexivity|]. split; [discriminate|].
    eexists. split; reflexivity.
  - cbn. split; [assumption|]. split; [reflexivity|]. split; [intros; lia|].
    eexists. split; reflexivity.
Qed.

Lemma missEnemy_shape (frame : Frame) (i : nat) (s : t) :
  typeShape s -> typeShape (missEnemy revision frame i s).
Proof.
  intros (Hm & Hb & He). unfold missEnemy.
  destruct (nth_error (enemies s) i) as [enemy|]; [|repeat split; assumption].
  destruct (enemyGone frame (container enemy)); [|repeat split; assumption].
  cbv zeta. rewrite Hm. rewrite orb_true_r.
  destruct (handleWrongAnswer_fields s)
    as (_ & _ & _ & _ & _ & _ & _ & _ & _ & E10 & _ & E12 & E13 & _).
  assert (Hs : typeShape (set_enemies
                            (JS.splice1 (enemies (handleWrongAnswer revision s)) i)
                            (handleWrongAnswer revision s))).
  { unfold typeShape. cbn. rewrite E10, E12, E13.
    repeat split; try assumption.
    pose proof (splice1_length (enemies s) i). lia. }
  match goal with |- typeShape (if ?b then _ else _) => destruct b end;
    [|exact Hs].
  exact Hs.
Qed.

Lemma update_shape (frame : Frame) (s : t) :
  typeShape s -> typeShape (update revision frame s).
Proof.
  intros (Hm & Hb & He). unfold update, checkBulletEnemyCollision.
  destruct (isGameOver s || isPaused s); [repeat split; assumption|].
  rewrite Hm, Hb. cbn [List.length JS.downFrom]. rewrite Hb.
  cbn [List.length JS.downFrom].
  apply downFrom_ind; [apply missEnemy_shape | repeat split; assumption].
Qed.

Lemma onAnswerSubmit_shape (answer now : Z) (s : t) :
  typeShape s -> typeShape (onAnswerSubmit revision answer now s).
Proof.
  intros (Hm & Hb & He). unfold onAnswerSubmit.
  destruct (isType (gameMode s) && negb (isGameOver s) && negb (isPaused s));
    [|repeat split; assumption].
  unfold checkTypedAnswer.
  destruct (currentProblem s) as [problem|]; [|repeat split; assumption].
  destruct (answer =? MathGenerator.answer problem).
  - match goal with
    | |- typeShape (handleCorrectAnswer now ?x) =>
        destruct (handleCorrectAnswer_fields now x)
          as (_ & _ & _ & _ & _ & _ & _ & _ & E9 & _ & _ & E12 & E13 & _)
    end.
    unfold typeShape. rewrite E9, E12, E13.
    destruct (enemies s) eqn:Henemies; cbn; rewrite ?Henemies;
      repeat split; try assumption; cbn; lia.
  - destruct (handleWrongAnswer_fields s)
      as (_ & _ & _ & _ & _ & _ & _ & _ & _ & E10 & _ & E12 & E13 & _).
    unfold typeShape. rewrite E10, E12, E13. repeat split; assumption.
Qed.

Lemma update_gameMode (frame : Frame) (s : t) :
  gameMode (update revision frame s) = gameMode s.
Proof.
  apply (update_ind (fun s' => gameMode s' = gameMode s)); [| | |reflexivity].
  - intros a b Hc Ha. apply core_fields in Hc.
    destruct Hc as (_ & _ & _ & _ & _ & _ & _ & _ & H9 & _). congruence.
  - intros now a Ha.
    destruct (handleCorrectAnswer_fields now a)
      as (_ & _ & _ & _ & _ & _ & _ & _ & E9 & _). congruence.
  - intros a Ha.
    destruct (handleWrongAnswer_fields a)
      as (_ & _ & _ & _ & _ & _ & _ & _ & _ & E10 & _). congruence.
Qed.

Lemma answerSubmit_gameMode (answer now : Z) (n : nat) (s : t) :
  gameMode (Nat.iter n (onAnswerSubmit revision answer now) s) = gameMode s.
Proof.
  apply (answerSubmit_ind (fun s' => gameMode s' = gameMode s));
    [| | |reflexivity].
  - intros a b Hc Ha. apply core_fields in Hc.
    destruct Hc as (_ & _ & _ & _ & _ & _ & _ & _ & H9 & _). congruence.
  - intros now' a Ha.
    destruct (handleCorrectAnswer_fields now' a)
      as (_ & _ & _ & _ & _ & _ & _ & _ & E9 & _). congruence.
  - intros a Ha.
    destruct (handleWrongAnswer_fields a)
      as (_ & _ & _ & _ & _ & _ & _ & _ & _ & E10 & _). congruence.
Qed.

(** What holds of the mode in every reachable state. *)
Definition shaped (s : t) : Prop := gameMode s = type -> typeShape s.

Lemma shaped_step (s : t) (i : Input) : shaped s -> shaped (step revision s i).
Proof.
  intros Hs. destruct i as [data|random now|frame|answer now| | |].
  - intro Hm. unfold typeShape. split; [exact Hm|].
    unfold step, create, init, emitLivesUpdate.
    destruct (publishesLives revision); cbn; split; (reflexivity || lia).
  - cbn [step]. destruct (isPaused s); [assumption|].
    destruct (timers s) as [|n]; [assumption|].
    destruct (generateNewProblem_shape random now (set_timers n s))
      as (Hm & Hb & He & _).
    intro Hm'. rewrite Hm in Hm'. destruct (Hs Hm') as (_ & Hb' & He').
    unfold typeShape. rewrite Hm, Hb. repeat split; try assumption.
    now apply He.
  - cbn [step]. intro Hm. rewrite update_gameMode in Hm.
    apply update_shape, Hs, Hm.
  - cbn [step]. intro Hm. rewrite answerSubmit_gameMode in Hm.
    specialize (Hs Hm). generalize (submitListeners s). intro n.
    induction n as [|n IH]; [exact Hs|].
    rewrite Nat.iter_succ. now apply onAnswerSubmit_shape.
  - exact Hs.
  - exact Hs.
  - intro Hm. unfold typeShape. cbn in *. repeat split; try assumption. lia.
Qed.

Lemma reachable_shaped (s : t) : reachable revision s -> shaped s.
Proof.
  intros [inputs ->]. unfold run.
  assert (H : forall s0, shaped s0 -> shaped (fold_left (step revision) inputs s0)).
  { induction inputs as [|i inputs IH]; intros s0 H0; cbn; [assumption|].
    apply IH, shaped_step, H0. }
  apply H. intro Hm. discriminate Hm.
Qed.


(** ** Losing a life in type mode *)

Lemma splice1_incl {T : Type} (l : list T) (i : nat) : incl (JS.splice1 l i) l.
Proof.
  unfold JS.splice1. intros x Hin. apply in_app_or in Hin.
  rewrite <- (firstn_skipn i l). apply in_or_app.
  destruct Hin as [Hin|Hin]; [left; assumption|right].
  revert i Hin. induction l as [|y l IH]; intros i Hin.
  - destruct i; cbn in *; contradiction.
  - destruct i; cbn in *; [right; assumption|]. now apply IH.
Qed.

Section TypeModeFrame.

Variable frame : Frame.
Variable s0 : t.
Hypothesis no_enemy_gone :
  forall enemy, In enemy (enemies s0) -> enemyGone frame (container enemy) = false.

(** During a type-mode frame in which no enemy leaves the screen. *)
Let quiet (s : t) : Prop :=
  gameMode s = type
  /\ playerLives s = playerLives s0
  /\ incl (enemies s) (enemies s0).

Lemma collide_quiet (i : nat) (s : t) : quiet s -> quiet (collide revision frame i s).
Proof.
  intros (Hm & Hl & Hin). unfold collide.
  destruct (nth_error (bullets s) i) as [bullet|]; [|repeat split; assumption].
  destruct (findTouched frame bullet (enemies s) _) as [j|];
    [|repeat split; assumption].
  destruct (nth_error (enemies s) j) as [enemy|]; [|repeat split; assumption].
  cbn [gameMode set_bullets]. rewrite Hm.
  repeat split; try assumption.
  cbn [enemies set_enemies set_bullets].
  eapply incl_tran; [apply splice1_incl | exact Hin].
Qed.

Lemma dropBullet_quiet (i : nat) (s : t) : quiet s -> quiet (dropBullet frame i s).
Proof.
  intros (Hm & Hl & Hin). unfold dropBullet.
  destruct (nth_error (bullets s) i) as [bullet|]; [|repeat split; assumption].
  destruct (bulletGone frame bullet); repeat split; assumption.
Qed.

Lemma missEnemy_quiet (i : nat) (s : t) : quiet s -> quiet (missEnemy revision frame i s).
Proof.
  intros (Hm & Hl & Hin). unfold missEnemy.
  destruct (nth_error (enemies s) i) as [enemy|] eqn:Hnth;
    [|repeat split; assumption].
  rewrite (no_enemy_gone enemy); [repeat split; assumption|].
  apply Hin. eapply nth_error_In. eassumption.
Qed.

Lemma update_quiet : gameMode s0 = type -> quiet (update revision frame s0).
Proof.
  intro Hm.
  assert (H0 : quiet s0) by (repeat split; [assumption | apply incl_refl]).
  unfold update.
  destruct (isGameOver s0 || isPaused s0); [assumption|].
  apply downFrom_ind; [apply missEnemy_quiet|].
  apply downFrom_ind; [apply dropBullet_quiet|].
  unfold checkBulletEnemyCollision.
  apply downFrom_ind; [apply collide_quiet|].
  rewrite Hm. exact H0.
Qed.

End TypeModeFrame.

Lemma update_type_lives (frame : Frame) (s : t) :
  gameMode s = type ->
  (forall enemy, In enemy (enemies s) -> enemyGone frame (container enemy) = false) ->
  playerLives (update revision frame s) = playerLives s.
Proof.
  intros Hm Hgone.
  destruct (update_quiet frame s Hgone Hm) as (_ & Hl & _). exact Hl.
Qed.

(** A typed value that is the answer, or one that meets no problem, costs
    no life, however many listeners hear it. *)
Lemma answerSubmit_keeps_lives (value now : Z) (n : nat) (s : t) :
  (forall p, currentProblem s = Some p -> value = answer p) ->
  playerLives (Nat.iter n (onAnswerSubmit revision value now) s) = playerLives s
  /\ currentProblem (Nat.iter n (onAnswerSubmit revision value now) s) = currentProblem s.
Proof.
  intro Hok. induction n as [|n IH]; [split; reflexivity|].
  rewrite Nat.iter_succ. destruct IH as [IHl IHc].
  set (s1 := Nat.iter n (onAnswerSubmit revision value now) s) in *.
  unfold onAnswerSubmit.
  destruct (isType (gameMode s1) && negb (isGameOver s1) && negb (isPaused s1));
    [|split; assumption].
  unfold checkTypedAnswer.
  destruct (currentProblem s1) as [p|] eqn:Hp; [|split; congruence].
  rewrite (Hok p) by congruence. rewrite Z.eqb_refl.
  match goal with
  | |- context [handleCorrectAnswer now ?x] =>
      destruct (handleCorrectAnswer_fields now x)
        as (_ & _ & _ & _ & _ & E6 & _ & _ & _ & E10 & _)
  end.
  rewrite E6, E10. destruct (enemies s1); cbn; split; congruence.
Qed.


(** A type-mode frame that finds the session running and its enemy below
    the screen resolves the problem as a wrong answer, once. *)
Lemma update_type_miss (frame : Frame) (enemy : EnemyData) (s : t) :
  typeShape s -> isGameOver s = false -> isPaused s = false ->
  In enemy (enemies s) -> enemyGone frame (container enemy) = true ->
  playerLives (update revision frame s) = playerLives s - 1
  /\ streak (update revision frame s) = 0.
Proof.
  intros (Hm & Hb & He) Hover Hpaused Hin Hgone.
  assert (Henemies : enemies s = [enemy]).
  { destruct (enemies s) as [|e [|e' rest]]; cbn in He, Hin.
    - contradiction.
    - destruct Hin as [->|[]]. reflexivity.
    - lia. }
  destruct (handleWrongAnswer_fields s)
    as (E1 & E2 & _ & _ & _ & _ & _ & _ & _ & E10 & _ & E12 & _).
  unfold update, checkBulletEnemyCollision.
  rewrite Hover, Hpaused, Hm, Hb. cbn [orb List.length JS.downFrom].
  rewrite Hb. cbn [List.length JS.downFrom].
  rewrite Henemies. cbn [List.length JS.downFrom].
  unfold missEnemy. rewrite Henemies. cbn [nth_error].
  rewrite Hgone, Hm. cbn [isType]. rewrite orb_true_r.
  cbv zeta.
  match goal with
  | |- context [if ?b then delayedCall ?x else ?x] => destruct b
  end; cbn; split; assumption.
Qed.

(** C5, amended.  In type mode a reachable session, of either revision,
    loses a life only on a submitted answer that differs from the current
    problem's answer, or in a frame in which one of its enemies has left
    the screen; and the miss penalty does apply in type mode: a frame
    that finds the session running and its enemy below the screen takes
    exactly one life and resets the streak. *)
Theorem type_mode_life_loss (s : t) (i : Input) :
  reachable revision s -> gameMode s = type ->
  (playerLives (step revision s i) < playerLives s ->
   (exists value now p,
       i = AnswerSubmit value now /\ currentProblem s = Some p /\ value <> answer p)
   \/ (exists frame enemy,
          i = Update frame /\ In enemy (enemies s)
          /\ enemyGone frame (container enemy) = true))
  /\ (forall frame enemy,
        i = Update frame -> isGameOver s = false -> isPaused s = false ->
        In enemy (enemies s) -> enemyGone frame (container enemy) = true ->
        playerLives (step revision s i) = playerLives s - 1
        /\ streak (step revision s i) = 0).
Proof.
  intros Hreach Hm. split.
  2:{ intros frame enemy -> Hover Hpaused Hin Hgone. cbn [step].
      apply (update_type_miss frame enemy s); try assumption.
      exact (reachable_shaped s Hreach Hm). }
  intro Hless.
  pose proof (reachable_sound s Hreach) as (_ & _ & _ & _ & Hl & _).
  destruct i as [data|random now|frame|value now| | |].
  - exfalso. destruct (sceneStart_fields data s) as (_ & _ & _ & _ & _ & E & _).
    rewrite E in Hless. lia.
  - exfalso. cbn [step] in Hless.
    destruct (isPaused s); [lia|]. destruct (timers s); [lia|].
    destruct (generateNewProblem_fields random now (set_timers n s))
      as (_ & _ & _ & _ & _ & E & _).
    rewrite E in Hless. cbn in Hless. lia.
  - right. exists frame.
    destruct (existsb (fun e => enemyGone frame (container e)) (enemies s)) eqn:Hex.
    + apply existsb_exists in Hex. destruct Hex as [enemy [Hin Hgone]].
      exists enemy. repeat split; assumption.
    + exfalso. cbn [step] in Hless.
      rewrite update_type_lives in Hless; [lia | assumption |].
      intros enemy Hin.
      destruct (enemyGone frame (container enemy)) eqn:Hgone; [|reflexivity].
      assert (Hsome : existsb (fun e => enemyGone frame (container e)) (enemies s)
                      = true)
        by (apply existsb_exists; exists enemy; split; assumption).
      congruence.
  - left. exists value, now.
    destruct (currentProblem s) as [p|] eqn:Hp.
    + exists p. repeat split. intro Heq.
      cbn [step] in Hless.
      destruct (answerSubmit_keeps_lives value now (submitListeners s) s) as [E _].
      { intros q Hq. congruence. }
      lia.
    + exfalso. cbn [step] in Hless.
      destruct (answerSubmit_keeps_lives value now (submitListeners s) s) as [E _].
      { intros q Hq. congruence. }
      lia.
  - exfalso. cbn in Hless. lia.
  - exfalso. cbn in Hless. lia.
  - exfalso. cbn in Hless. lia.
Qed.


End AnyRevision.

(** ** The example sessions *)

(** C3 as stated fails: in the example session the first correct answer,
    given one second after the problem was issued, is announced with 17
    experience points, and no event announces 15. *)
Lemma first_correct_answer_xp_counterexample :
  currentProblem firstTypeProblem
  = Some {| operand1 := 6; operand2 := 6; operation := addition; answer := 12;
            equation := "6 + 6 = ?" |}
  /\ problemStartTime firstTypeProblem = 1000
  /\ published firstTypeProblem
       (step FiveLives firstTypeProblem (AnswerSubmit 12 2000))
     = [answer_correct 17 1; score_update 110 1]
  /\ ~ (exists streak,
           In (answer_correct 15 streak)
              (published firstTypeProblem
                 (step FiveLives firstTypeProblem (AnswerSubmit 12 2000)))).
Proof.
  assert (E : published firstTypeProblem
                (step FiveLives firstTypeProblem (AnswerSubmit 12 2000))
              = [answer_correct 17 1; score_update 110 1])
    by (vm_compute; reflexivity).
  split; [vm_compute; reflexivity|].
  split; [vm_compute; reflexivity|].
  split; [exact E|].
  rewrite E. intros [streak [H|[H|[]]]]; discriminate.
Qed.

Lemma first_correct_answer_xp_witness :
  exists p,
    currentProblem
      (run FiveLives (fresh FiveLives) [SceneStart typeSession; TimerFired halves 1000])
    = Some p
    /\ published
         (run FiveLives (fresh FiveLives)
            [SceneStart typeSession; TimerFired halves 1000])
         (step FiveLives
            (run FiveLives (fresh FiveLives)
               [SceneStart typeSession; TimerFired halves 1000])
            (AnswerSubmit (answer p) 2000))
       = [answer_correct 17 1; score_update 110 1].
Proof.
  apply (first_correct_answer_xp FiveLives typeSession halves 1000 2000).
  - reflexivity.
  - lia.
Defined.

(** The scene adds an [answer:submit] listener at every start and removes
    none, so from the second session of a scene on a typed answer is
    heard once per session started: here the first correct answer of a
    second session is resolved twice. *)
Example second_session_hears_an_answer_twice :
  let s := run FiveLives (fresh FiveLives)
             [SceneStart typeSession; GameQuit;
              SceneStart typeSession; TimerFired halves 1000] in
  submitListeners s = 2%nat
  /\ published s (step FiveLives s (AnswerSubmit 12 2000))
     = [answer_correct 17 1; score_update 110 1;
        answer_correct 19 2; score_update 230 2].
Proof. vm_compute. repeat split. Qed.

(** C4 as stated fails in its first part for the revision in
    [src/game/scenes/GameScene.ts]: a session starts there with three
    lives, not five, and the third wrong answer ends it. *)
Lemma three_lives_start_counterexample :
  playerLives (step ThreeLives (fresh ThreeLives) (SceneStart typeSession)) = 3
  /\ playerLives (step ThreeLives (fresh ThreeLives) (SceneStart typeSession)) <> 5
  /\ isGameOver
       (run ThreeLives (fresh ThreeLives)
          [SceneStart typeSession; TimerFired halves 1000; AnswerSubmit 0 2000;
           AnswerSubmit 0 2100; AnswerSubmit 0 2200]) = true.
Proof. vm_compute. repeat split. discriminate. Qed.

Lemma session_start_lives_and_end_witness :
  playerLives (step FiveLives firstTypeProblem (SceneStart shootSession)) = 5
  /\ playerLives (handleWrongAnswer FiveLives firstTypeProblem)
     = playerLives firstTypeProblem - 1.
Proof.
  assert (Hreach : reachable FiveLives firstTypeProblem)
    by (exists [SceneStart typeSession; TimerFired halves 1000]; reflexivity).
  destruct (session_start_lives_and_end FiveLives firstTypeProblem shootSession Hreach)
    as ((_ & _ & _ & _ & _ & Hlives & _) & (Hwrong & _) & _).
  split; assumption.
Defined.

(** Five wrong typed answers in a row end the example session: one
    summary is published, with score 0 and no correct answer, and a
    further answer is ignored. *)
Example five_wrong_answers_end_the_session :
  let s := run FiveLives firstTypeProblem
             [AnswerSubmit 0 2000; AnswerSubmit 0 2100; AnswerSubmit 0 2200;
              AnswerSubmit 0 2300; AnswerSubmit 0 2400] in
  playerLives s = 0
  /\ isGameOver s = true
  /\ filter isGameOverEvent (emitted s) = [game_over 0 0 0 0]
  /\ run FiveLives s [AnswerSubmit 12 2500] = s.
Proof. vm_compute. repeat split. Qed.

Lemma pause_then_resume_changes_nothing_witness :
  step FiveLives (step FiveLives firstTypeProblem GamePause) GameResume
  = firstTypeProblem.
Proof.
  refine (proj2 (proj2 (proj2 (proj2
            (pause_then_resume_changes_nothing FiveLives firstTypeProblem _ _ _))))).
  - exists [SceneStart typeSession; TimerFired halves 1000]. reflexivity.
  - reflexivity.
  - reflexivity.
Defined.

Lemma score_and_xp_never_decrease_witness :
  score firstTypeProblem
  <= score (step FiveLives firstTypeProblem (AnswerSubmit 12 2000))
  /\ xpEarned firstTypeProblem
     <= xpEarned (step FiveLives firstTypeProblem (AnswerSubmit 12 2000)).
Proof.
  refine (proj1 (proj2
            (score_and_xp_never_decrease FiveLives firstTypeProblem
               (AnswerSubmit 12 2000) 0 _ _))).
  - exists [SceneStart typeSession; TimerFired halves 1000]. reflexivity.
  - intros data H. discriminate H.
Defined.

(** Five correct answers, each given within a second: the streak reaches
    5 and the experience is the sum of 10 + 5 + min(20, 2 * streak). *)
Example five_correct_answers :
  let s := run FiveLives firstTypeProblem
             [AnswerSubmit 12 1500;
              TimerFired halves 2000; AnswerSubmit 12 2500;
              TimerFired halves 3000; AnswerSubmit 12 3500;
              TimerFired halves 4000; AnswerSubmit 12 4500;
              TimerFired halves 5000; AnswerSubmit 12 5500] in
  streak s = 5 /\ bestStreak s = 5
  /\ xpEarned s = (15 + 2) + (15 + 4) + (15 + 6) + (15 + 8) + (15 + 10)
  /\ score s = 110 + 120 + 130 + 140 + 150.
Proof. vm_compute. repeat split. Qed.

(** C5 as stated fails: in the example type-mode session an enemy that
    leaves the screen costs a life although no answer was submitted. *)
Lemma type_mode_timeout_counterexample :
  gameMode firstTypeProblem = type
  /\ playerLives firstTypeProblem = 5
  /\ playerLives (step FiveLives firstTypeProblem (Update allEnemiesGone)) = 4
  /\ published firstTypeProblem
       (step FiveLives firstTypeProblem (Update allEnemiesGone))
     = [player_lives 4; answer_wrong; score_update 0 0].
Proof. vm_compute. repeat split. Qed.

Lemma type_mode_life_loss_witness :
  ((exists value now p,
       Update allEnemiesGone = AnswerSubmit value now
       /\ currentProblem firstTypeProblem = Some p /\ value <> answer p)
   \/ (exists frame enemy,
          Update allEnemiesGone = Update frame /\ In enemy (enemies firstTypeProblem)
          /\ enemyGone frame (container enemy) = true))
  /\ playerLives (step FiveLives firstTypeProblem (Update allEnemiesGone))
     = playerLives firstTypeProblem - 1
  /\ streak (step FiveLives firstTypeProblem (Update allEnemiesGone)) = 0.
Proof.
  destruct (type_mode_life_loss FiveLives firstTypeProblem (Update allEnemiesGone))
    as [Honly Hmiss].
  - exists [SceneStart typeSession; TimerFired halves 1000]. reflexivity.
  - reflexivity.
  - split.
    + apply Honly. vm_compute. reflexivity.
    + apply (Hmiss allEnemiesGone
               {| container := O; answerValue := 0; isCorrect := true |});
        try reflexivity.
      vm_compute. left. reflexivity.
Defined.

End GameSceneSpec.

(* ===================================================================== *)
(** * Properties of the typed-answer path                                 *)
(* ===================================================================== *)

Module AppSpec.

Import MathGenerator GameScene GameSceneSpec.

Example parseInt_examples :
  JS.parseInt "12" = Some 12
  /\ JS.parseInt "  42px" = Some 42
  /\ JS.parseInt "-7" = Some (-7)
  /\ JS.parseInt "3.9" = Some 3
  /\ JS.parseInt "" = None
  /\ JS.parseInt "abc" = None
  /\ JS.parseInt "-" = None
  /\ JS.parseInt ".5" = None.
Proof. vm_compute. repeat split. Qed.





End AppSpec.

(* ===================================================================== *)
(** * Further properties of the problem generator                        *)
(* ===================================================================== *)

Module MathGeneratorLaws.
Import MathGenerator MathGeneratorSpec.

(** ** The constructor and the difficulty table *)

Lemma clamped_cases (lvl : Z) :
  (lvl <= 1 /\ new lvl = new 1) \/ (lvl = 2 /\ new lvl = new 2)
  \/ (lvl = 3 /\ new lvl = new 3) \/ (lvl = 4 /\ new lvl = new 4)
  \/ (5 <= lvl /\ new lvl = new 5).
Proof.
  unfold new.
  destruct (Z.le_gt_cases lvl 1) as [H|H].
  - left. split; [assumption|]. replace (Z.min 5 (Z.max 1 lvl)) with 1 by lia.
    reflexivity.
  - right. destruct (Z.le_gt_cases 5 lvl) as [H5|H5].
    + do 3 right. split; [assumption|].
      replace (Z.min 5 (Z.max 1 lvl)) with 5 by lia. reflexivity.
    + assert (Hc : lvl = 2 \/ lvl = 3 \/ lvl = 4) by lia.
      destruct Hc as [->|[->| ->]]; [left|right; left|right; right; left];
        split; reflexivity.
Qed.

(** Replaces the generators of the five levels by their values. *)
Ltac eval_new :=
  repeat match goal with
         | |- context [new ?n] =>
             let v := eval vm_compute in (new n) in change (new n) with v
         end.

(** A higher level never takes anything away. *)
Lemma levels_extend (a b : Z) :
  a <= b ->
  incl (operations (config (new a))) (operations (config (new b)))
  /\ maxNumber (config (new a)) <= maxNumber (config (new b))
  /\ maxMultiplier (config (new a)) <= maxMultiplier (config (new b)).
Proof.
  intro Hab.
  destruct (clamped_cases a) as [[Ha ->]|[[Ha ->]|[[Ha ->]|[[Ha ->]|[Ha ->]]]]];
    destruct (clamped_cases b) as [[Hb ->]|[[Hb ->]|[[Hb ->]|[[Hb ->]|[Hb ->]]]]];
    try (exfalso; lia); eval_new; cbn;
    (split; [intros x Hx; cbn in *; tauto | lia]).
Qed.

(** X1.  Whatever integer is passed as the level, the constructor (and
    [setDifficulty]) stores the level clamped to 1..5: 1 for anything
    below 1, 5 for anything above 5; the configuration it selects is the
    row of [DIFFICULTY_CONFIGS] whose [level] field is that clamped
    level; and a higher level never takes anything away: its operations
    include those of every lower level and its two magnitudes are at
    least as large. *)
Theorem constructor_clamps_level (g : t) (lvl higher : Z) :
  difficultyLevel (new lvl) = (if lvl <? 1 then 1 else if 5 <? lvl then 5 else lvl)
  /\ 1 <= difficultyLevel (new lvl) <= 5
  /\ In (config (new lvl)) DIFFICULTY_CONFIGS
  /\ level (config (new lvl)) = difficultyLevel (new lvl)
  /\ setDifficulty g lvl = new lvl
  /\ (lvl <= higher ->
      incl (operations (config (new lvl))) (operations (config (new higher)))
      /\ maxNumber (config (new lvl)) <= maxNumber (config (new higher))
      /\ maxMultiplier (config (new lvl)) <= maxMultiplier (config (new higher))).
Proof.
  split.
  { cbn. destruct (Z.ltb_spec lvl 1); destruct (Z.ltb_spec 5 lvl); lia. }
  split; [cbn; lia|].
  split; [|split; [|split; [reflexivity | apply levels_extend]]];
    destruct (clamped_cases lvl) as [[_ ->]|[[_ ->]|[[_ ->]|[[_ ->]|[_ ->]]]]];
    eval_new; cbn; auto 10.
Qed.

Lemma constructor_clamps_level_witness :
  incl (operations (config (new 2))) (operations (config (new 4)))
  /\ maxNumber (config (new 2)) <= maxNumber (config (new 4))
  /\ maxMultiplier (config (new 2)) <= maxMultiplier (config (new 4)).
Proof.
  refine (proj2 (proj2 (proj2 (proj2 (proj2
            (constructor_clamps_level (new 1) 2 4))))) _).
  lia.
Defined.

(** ** The two random helpers *)

(** X2.  For draws in [0, 1): [randomInt(min, max)] with [min <= max] is
    an integer of the closed interval [min, max]; [randomChoice] returns
    an element of a non-empty array and [undefined] for the empty one;
    each makes exactly one draw. *)
Theorem random_helpers_stay_in_range
    {T : Type} (random : nat -> Q) (k : nat) (min max : Z) (arr : list T) :
  unitInterval random ->
  (min <= max -> min <= fst (randomInt random min max k) <= max)
  /\ (arr <> [] -> exists x, fst (randomChoice random arr k) = Some x /\ In x arr)
  /\ fst (randomChoice random (@nil T) k) = None
  /\ snd (randomInt random min max k) = S k
  /\ snd (randomChoice random arr k) = S k.
Proof.
  intro Hunit.
  split; [now apply randomInt_range|].
  split; [now apply randomChoice_In|].
  split; [|split; reflexivity].
  unfold randomChoice, bind, draw, ret, JS.index. cbn [fst List.length].
  destruct (Qfloor _ <? 0); [reflexivity|].
  destruct (Z.to_nat _); reflexivity.
Qed.

Lemma random_helpers_stay_in_range_witness :
  3 <= fst (randomInt alwaysHalf 3 9 O) <= 9
  /\ exists x, fst (randomChoice alwaysHalf [addition; division] O) = Some x
               /\ In x [addition; division].
Proof.
  destruct (random_helpers_stay_in_range alwaysHalf O 3 9 [addition; division])
    as (H1 & H2 & _).
  - intro k. split; unfold alwaysHalf, Qle, Qlt; simpl; lia.
  - split; [apply H1; lia | apply H2; discriminate].
Defined.

(** ** [generate] *)

(** X3.  [generate(preferredOperation)] uses the preferred operation
    whenever the level allows it, without drawing an operation (only the
    two operand draws are made); a preferred operation the level does not
    allow is ignored, the call behaving as one without the argument. *)
Theorem preferred_operation_honoured_when_allowed
    (random : nat -> Q) (g : t) (preferred : MathOperation) (k : nat) :
  (includes (operations (config g)) preferred = true ->
   operation (fst (generate random g (Some preferred) k)) = preferred
   /\ snd (generate random g (Some preferred) k) = (k + 2)%nat)
  /\ (includes (operations (config g)) preferred = false ->
      generate random g (Some preferred) k = generate random g None k).
Proof.
  split; intro H; unfold generate, bind; rewrite H; [|reflexivity].
  unfold ret.
  destruct preferred; cbn;
    try (match goal with |- context [if ?c then _ else _] => destruct c end; cbn);
    split; try reflexivity; lia.
Qed.

Lemma preferred_operation_honoured_when_allowed_witness :
  operation (fst (generate alwaysHalf (new 3) (Some multiplication) O))
  = multiplication
  /\ generate alwaysHalf (new 1) (Some division) O
     = generate alwaysHalf (new 1) None O.
Proof.
  destruct (preferred_operation_honoured_when_allowed alwaysHalf (new 3)
              multiplication O) as [H _].
  destruct (preferred_operation_honoured_when_allowed alwaysHalf (new 1)
              division O) as [_ H'].
  split; [apply H; reflexivity | apply H'; reflexivity].
Defined.

(** The text of a problem: operands in decimal around the symbol the
    table [OPERATION_SYMBOLS] gives for the operation. *)
Definition render (p : MathProblem) : string :=
  JS.toString (operand1 p) ++ " " ++ OPERATION_SYMBOLS (operation p) ++ " "
  ++ JS.toString (operand2 p) ++ " = ?".

(** X4.  The equation text of every generated problem is
    "<operand1> <symbol> <operand2> = ?", with the operands as stored in
    the problem (after the swap of a subtraction, and the dividend first
    for a division) and the symbol that [OPERATION_SYMBOLS] lists for
    the operation. *)
Theorem equation_text_matches_problem
    (random : nat -> Q) (g : t) (preferredOperation : option MathOperation)
    (k : nat) :
  equation (fst (generate random g preferredOperation k))
  = render (fst (generate random g preferredOperation k)).
Proof.
  unfold generate, bind.
  match goal with
  | |- context [match ?sel k with _ => _ end] => destruct (sel k) as [[op|] k1]
  end; [destruct op|];
    cbv beta iota zeta delta
      [generateAddition generateSubtraction generateMultiplication
       generateDivision bind ret randomInt draw fst snd render];
    try (match goal with |- context [if ?c then _ else _] => destruct c end);
    reflexivity.
Qed.

(** The configuration of every generator the constructor builds. *)
Lemma new_any_config (lvl : Z) :
  1 <= maxNumber (config (new lvl))
  /\ 1 <= maxMultiplier (config (new lvl))
  /\ operations (config (new lvl)) <> []
  /\ (maxMultiplier (config (new lvl)) * maxMultiplier (config (new lvl))
      <= 2 * maxNumber (config (new lvl))
      \/ ~ In multiplication (operations (config (new lvl)))).
Proof.
  destruct (clamped_cases lvl) as [[_ ->]|[[_ ->]|[[_ ->]|[[_ ->]|[_ ->]]]]];
    eval_new; cbn; (split; [lia|split; [lia|split; [discriminate|]]]);
    try (left; lia); right; intuition discriminate.
Qed.

(** X5.  At every level (any integer, clamped by the constructor) and for
    draws in [0, 1), the answer of a generated problem is never negative
    and never exceeds twice the level's [maxNumber]; it is 0 only for a
    subtraction of two equal operands, and at least 2 for an addition. *)
Theorem answer_is_never_negative
    (random : nat -> Q) (lvl : Z) (preferredOperation : option MathOperation)
    (k : nat) :
  unitInterval random ->
  0 <= answer (fst (generate random (new lvl) preferredOperation k))
    <= 2 * maxNumber (config (new lvl))
  /\ (answer (fst (generate random (new lvl) preferredOperation k)) = 0 ->
      operation (fst (generate random (new lvl) preferredOperation k)) = subtraction
      /\ operand1 (fst (generate random (new lvl) preferredOperation k))
         = operand2 (fst (generate random (new lvl) preferredOperation k)))
  /\ (operation (fst (generate random (new lvl) preferredOperation k)) = addition ->
      2 <= answer (fst (generate random (new lvl) preferredOperation k))).
Proof.
  intro Hunit.
  destruct (new_any_config lvl) as (HN & HM & Hops & Hmul).
  pose proof (generate_spec random Hunit (new lvl) HN HM preferredOperation k Hops)
    as (Hexact & Hsub & Hdiv & Hin & Hb).
  set (p := fst (generate random (new lvl) preferredOperation k)) in *.
  unfold operandBounds, applyOperation in *.
  destruct (operation p) eqn:Hop.
  - injection Hexact as Hexact. repeat split; try lia; discriminate.
  - injection Hexact as Hexact. destruct (Hsub eq_refl).
    repeat split; try lia; discriminate.
  - injection Hexact as Hexact.
    destruct Hmul as [Hmul|Hmul]; [|contradiction].
    repeat split; try nia; try discriminate.
  - destruct Hb as (H2 & Ha & H1).
    destruct (Hdiv eq_refl) as [Hd _].
    assert (maxMultiplier (config (new lvl)) <= 2 * maxNumber (config (new lvl))).
    { clear -HM. revert HM.
      destruct (clamped_cases lvl) as [[_ ->]|[[_ ->]|[[_ ->]|[[_ ->]|[_ ->]]]]];
        eval_new; cbn; lia. }
    repeat split; try lia; discriminate.
Qed.

Lemma answer_is_never_negative_witness :
  0 <= answer (fst (generate alwaysHalf (new 2) None O))
    <= 2 * maxNumber (config (new 2)).
Proof.
  apply (answer_is_never_negative alwaysHalf 2 None O).
  intro k. split; unfold alwaysHalf, Qle, Qlt; simpl; lia.
Defined.

(** ** [generateWrongAnswers] outside the inputs the game uses *)

Lemma randomLoop_full (random : nat -> Q) (remaining : nat) (c count : Z)
    (s : JS.NumberSet) (k : nat) :
  count <= JS.set_size s -> randomLoop random remaining c count s k = (s, k).
Proof.
  intro H. destruct remaining; cbn [randomLoop]; [reflexivity|].
  destruct (Z.ltb_spec (JS.set_size s) count); [lia | reflexivity].
Qed.

Lemma fallbackLoop_full (c count : Z) (s : JS.NumberSet) (offset : Z) :
  count <= JS.set_size s -> fallbackLoop c count s offset = s.
Proof.
  intro H. funelim (fallbackLoop c count s offset); [lia | reflexivity].
Qed.

(** The range in which the integers of the model are the numbers of the
    source: from an answer and a count of at most this magnitude,
    [generateWrongAnswers] computes only integers far below 2^53, which
    binary64 represents exactly (beyond 2^53 the source's
    [fallbackOffset] stops growing). *)
Definition EXACT_RANGE : Z := 2 ^ 20.

(** X6.  [generateWrongAnswers] does not need a positive answer or a
    count from 1 to 5: for an answer of magnitude at most 2^20, which may
    be 0 (as a subtraction can give) or negative, and a count from 0 to
    2^20, it returns exactly [count] values, pairwise different, positive
    and different from the correct answer, whatever the draws are; for a
    count of 0 or less it returns the empty array without drawing a
    random number. *)
Theorem wrong_answers_without_a_positive_answer
    (random : nat -> Q) (k : nat) (correctAnswer count : Z) :
  (Z.abs correctAnswer <= EXACT_RANGE -> 0 <= count <= EXACT_RANGE ->
   JS.set_size (fst (generateWrongAnswers random correctAnswer count k)) = count
   /\ NoDup (fst (generateWrongAnswers random correctAnswer count k))
   /\ Forall (fun x => 0 < x /\ x <> correctAnswer)
        (fst (generateWrongAnswers random correctAnswer count k)))
  /\ (count <= 0 ->
      generateWrongAnswers random correctAnswer count k = ([], k)).
Proof.
  split.
  - intros _ [Hcount _].
    destruct (generateWrongAnswers_spec random correctAnswer count k Hcount)
      as [[Hnd Hall] Hs].
    split; [exact Hs | split; [exact Hnd | exact Hall]].
  - intro Hcount. unfold generateWrongAnswers, bind, ret.
    rewrite randomLoop_full by (cbn; lia).
    rewrite fallbackLoop_full by (cbn; lia). reflexivity.
Qed.

Lemma wrong_answers_without_a_positive_answer_witness :
  (JS.set_size (fst (generateWrongAnswers (fun _ => 0%Q) 0 7 O)) = 7
   /\ NoDup (fst (generateWrongAnswers (fun _ => 0%Q) 0 7 O))
   /\ Forall (fun x => 0 < x /\ x <> 0)
        (fst (generateWrongAnswers (fun _ => 0%Q) 0 7 O)))
  /\ generateWrongAnswers (fun _ => 0%Q) (-4) 0 O = ([], O).
Proof.
  destruct (wrong_answers_without_a_positive_answer (fun _ => 0%Q) O 0 7)
    as [H _].
  destruct (wrong_answers_without_a_positive_answer (fun _ => 0%Q) O (-4) 0)
    as [_ H'].
  split; [apply H; unfold EXACT_RANGE; cbn; lia | apply H'; lia].
Defined.

(** ** How far a distractor is from the answer *)









End MathGeneratorLaws.

(* ===================================================================== *)
(** * Further properties of the evolution ladder                         *)
(* ===================================================================== *)

Module EvolutionLaws.
Import Evolution EvolutionSpec.

(** ** Looking a stage up *)

Lemma findStage_outside (stage : Z) :
  stage < 1 \/ 7 < stage -> findStage stage = None.
Proof.
  intro H. unfold findStage, EVOLUTION_STAGES. cbn [find id].
  repeat match goal with
         | |- context [?a =? stage] => destruct (Z.eqb_spec a stage); [lia|]
         end.
  reflexivity.
Qed.

Lemma findStage_inside (stage : Z) :
  1 <= stage <= 7 ->
  exists e, findStage stage = Some e /\ In e EVOLUTION_STAGES /\ id e = stage.
Proof.
  intro H.
  destruct (stage_cases stage H) as [->|[->|[->|[->|[->|[->| ->]]]]]];
    eexists; (split; [reflexivity|]); cbn; auto 10.
Qed.

(** X8.  [getEvolutionByStage] returns the stage of the ladder with the
    given ordinal, for the ordinals 1 to 7, and the first stage for every
    other number; [getNextEvolution] returns the stage with the next
    ordinal for 0 to 6 and [null] for every other number, so that it is
    [null] at the final stage. *)
Theorem stage_lookup_falls_back_to_first (stage : Z) :
  (1 <= stage <= 7 ->
   In (getEvolutionByStage stage) EVOLUTION_STAGES
   /\ id (getEvolutionByStage stage) = stage
   /\ xpRequired (getEvolutionByStage stage) = threshold stage)
  /\ (stage < 1 \/ 7 < stage ->
      getEvolutionByStage stage = getEvolutionByStage 1
      /\ id (getEvolutionByStage stage) = 1)
  /\ (0 <= stage <= 6 ->
      exists next, getNextEvolution stage = Some next
                   /\ In next EVOLUTION_STAGES /\ id next = stage + 1)
  /\ (stage < 0 \/ 6 < stage -> getNextEvolution stage = None).
Proof.
  split; [|split; [|split]]; intro H.
  - destruct (findStage_inside stage H) as (e & He & Hin & Hid).
    unfold getEvolutionByStage. rewrite He.
    split; [assumption|]. split; [assumption|].
    destruct (stage_in_ladder e Hin) as [_ Hx]. congruence.
  - unfold getEvolutionByStage. rewrite (findStage_outside stage H).
    split; reflexivity.
  - unfold getNextEvolution. apply findStage_inside. lia.
  - unfold getNextEvolution. apply findStage_outside. lia.
Qed.

Lemma stage_lookup_falls_back_to_first_witness :
  id (getEvolutionByStage 4) = 4
  /\ getEvolutionByStage 9 = getEvolutionByStage 1
  /\ getNextEvolution 7 = None.
Proof.
  destruct (stage_lookup_falls_back_to_first 4) as (H1 & _).
  destruct (stage_lookup_falls_back_to_first 9) as (_ & H2 & _).
  destruct (stage_lookup_falls_back_to_first 7) as (_ & _ & _ & H3).
  split; [apply H1; lia | split; [apply H2; lia | apply H3; lia]].
Defined.

(** ** Stages and thresholds *)

(** X9.  The stage of an amount of experience and the threshold of a
    stage are inverse to each other in the sense of a ladder: the
    experience a stage requires is in that stage, and an amount of
    experience is in stage [stage] exactly when it has reached the
    threshold of [stage] (no condition for the first stage, which also
    holds all negative amounts) and not the threshold of the next stage
    (no condition for the final stage). *)
Theorem stage_and_threshold_round_trip (xp stage : Z) :
  1 <= stage <= 7 ->
  getEvolutionStage (xpRequired (getEvolutionByStage stage)) = stage
  /\ (getEvolutionStage xp = stage
      <-> (stage = 1 \/ threshold stage <= xp)
          /\ (stage = 7 \/ xp < threshold (stage + 1))).
Proof.
  intro H.
  pose proof (getEvolutionStage_bands xp) as Hb.
  destruct (stage_cases stage H) as [->|[->|[->|[->|[->|[->| ->]]]]]];
    (split; [reflexivity|]);
    repeat match goal with
           | |- context [threshold ?n] =>
               let v := eval vm_compute in (threshold n) in
               change (threshold n) with v
           end;
    lia.
Qed.

Lemma stage_and_threshold_round_trip_witness :
  getEvolutionStage (xpRequired (getEvolutionByStage 3)) = 3
  /\ (getEvolutionStage 1600 = 3
      <-> (3 = 1 \/ threshold 3 <= 1600) /\ (3 = 7 \/ 1600 < threshold (3 + 1))).
Proof. apply (stage_and_threshold_round_trip 1600 3). lia. Defined.

Lemma getXPToNextEvolution_below_final (xp stage : Z) :
  1 <= stage <= 6 ->
  getXPToNextEvolution xp stage = Z.max 0 (threshold (stage + 1) - xp).
Proof.
  intro H.
  assert (Hc : stage = 1 \/ stage = 2 \/ stage = 3 \/ stage = 4 \/ stage = 5
               \/ stage = 6) by lia.
  destruct Hc as [->|[->|[->|[->|[->| ->]]]]]; reflexivity.
Qed.

(** X10.  Below the final stage, the experience that
    [getXPToNextEvolution] reports for the stage computed from the
    experience is positive and is exactly what is missing: adding it
    gives the next stage, and adding less leaves the stage as it is. *)
Theorem xp_to_next_reaches_the_next_stage (xp gained : Z) :
  getEvolutionStage xp < 7 ->
  0 < getXPToNextEvolution xp (getEvolutionStage xp)
  /\ getEvolutionStage (xp + getXPToNextEvolution xp (getEvolutionStage xp))
     = getEvolutionStage xp + 1
  /\ (0 <= gained < getXPToNextEvolution xp (getEvolutionStage xp) ->
      getEvolutionStage (xp + gained) = getEvolutionStage xp).
Proof.
  intro H.
  pose proof (getEvolutionStage_range xp) as Hr.
  rewrite getXPToNextEvolution_below_final by lia.
  pose proof (getEvolutionStage_bands xp) as Hb.
  pose proof threshold_values as (T1 & T2 & T3 & T4 & T5 & T6 & T7).
  assert (Hnext : threshold (getEvolutionStage xp + 1) - xp > 0
                  /\ getEvolutionStage (threshold (getEvolutionStage xp + 1))
                     = getEvolutionStage xp + 1
                  /\ forall y, xp <= y < threshold (getEvolutionStage xp + 1) ->
                               getEvolutionStage y = getEvolutionStage xp).
  { destruct Hb as [[? E]|[[? E]|[[? E]|[[? E]|[[? E]|[[? E]|[? E]]]]]]];
      rewrite E in *; cbn [Z.add Pos.add Pos.succ]; try lia;
      rewrite ?T2, ?T3, ?T4, ?T5, ?T6, ?T7;
      (split; [lia|split; [reflexivity|]]);
      intros y Hy; pose proof (getEvolutionStage_bands y); lia. }
  destruct Hnext as (Hpos & Hat & Hbelow).
  split; [lia|]. split.
  - replace (xp + Z.max 0 (threshold (getEvolutionStage xp + 1) - xp))
      with (threshold (getEvolutionStage xp + 1)) by lia.
    exact Hat.
  - intro Hg. apply Hbelow. lia.
Qed.

Lemma xp_to_next_reaches_the_next_stage_witness :
  getEvolutionStage (600 + getXPToNextEvolution 600 (getEvolutionStage 600))
  = getEvolutionStage 600 + 1.
Proof.
  refine (proj1 (proj2 (xp_to_next_reaches_the_next_stage 600 0 _))).
  vm_compute. reflexivity.
Defined.

(** ** Progress of a profile whose stage is the one of its experience *)

Lemma ratio_below (a d : Z) :
  0 <= a < d -> (inject_Z a / inject_Z d * inject_Z 100 < inject_Z 100)%Q.
Proof.
  intros [Ha Hd].
  setoid_replace (inject_Z 100) with (1 * inject_Z 100)%Q at 2 by ring.
  apply Qmult_lt_compat_r; [unfold Qlt; simpl; lia|].
  apply Qlt_shift_div_r; [unfold Qlt; simpl; lia|].
  rewrite Qmult_1_l. rewrite <- Zlt_Qlt. assumption.
Qed.

Lemma computed_stage_progress (xp : Z) :
  0 <= xp -> getEvolutionStage xp < 7 ->
  exists q,
    getEvolutionProgress xp (getEvolutionStage xp) = JS.Fin q
    /\ (0 <= q)%Q /\ (q < inject_Z 100)%Q
    /\ (q == inject_Z (xp - threshold (getEvolutionStage xp))
             / inject_Z (threshold (getEvolutionStage xp + 1)
                         - threshold (getEvolutionStage xp))
             * inject_Z 100)%Q.
Proof.
  intros Hxp Hlt.
  pose proof (getEvolutionStage_range xp) as Hr.
  rewrite getEvolutionProgress_formula by lia.
  assert (Hband : threshold (getEvolutionStage xp) <= xp
                  < threshold (getEvolutionStage xp + 1)).
  { pose proof (getEvolutionStage_bands xp) as Hb.
    destruct Hb as [[? E]|[[? E]|[[? E]|[[? E]|[[? E]|[[? E]|[? E]]]]]]];
      rewrite E in *; try lia;
      repeat match goal with
             | |- context [threshold ?n] =>
                 let v := eval vm_compute in (threshold n) in
                 change (threshold n) with v
             end; lia. }
  set (a := xp - threshold (getEvolutionStage xp)) in *.
  set (d := threshold (getEvolutionStage xp + 1)
            - threshold (getEvolutionStage xp)) in *.
  assert (Had : 0 <= a < d) by (subst a d; lia).
  pose proof (ratio_below a d Had) as Hbelow.
  pose proof (ratio_nonneg a d (proj1 Had) ltac:(lia)) as Hnonneg.
  eexists. split; [reflexivity|].
  assert (Hmin : (Qmin (inject_Z 100) (inject_Z a / inject_Z d * inject_Z 100)
                  == inject_Z a / inject_Z d * inject_Z 100)%Q).
  { apply Q.min_r. now apply Qlt_le_weak. }
  rewrite Hmin.
  split; [exact Hnonneg | split; [exact Hbelow | reflexivity]].
Qed.

(** The progress shown for a stage computed from the experience is a
    percentage. *)
Lemma computed_stage_percentage (xp : Z) :
  0 <= xp -> isPercentage (getEvolutionProgress xp (getEvolutionStage xp)).
Proof.
  intro Hxp. pose proof (getEvolutionStage_range xp) as Hr.
  destruct (Z.eq_dec (getEvolutionStage xp) 7) as [E|Hne].
  - rewrite E. cbn. split; unfold Qle; simpl; lia.
  - destruct (computed_stage_progress xp Hxp ltac:(lia)) as (q & -> & H0 & H1 & _).
    cbn. split; [assumption | now apply Qlt_le_weak].
Qed.

Lemma ratio_grows (a a' d : Z) :
  a < a' -> 0 < d ->
  (inject_Z a / inject_Z d * inject_Z 100 < inject_Z a' / inject_Z d * inject_Z 100)%Q.
Proof.
  intros Ha Hd.
  apply Qmult_lt_compat_r; [unfold Qlt; simpl; lia|].
  unfold Qdiv. apply Qmult_lt_compat_r.
  - apply Qinv_lt_0_compat. unfold Qlt. simpl. lia.
  - rewrite <- Zlt_Qlt. assumption.
Qed.

(** X11.  When the stage passed to [getEvolutionProgress] is the one
    [getEvolutionStage] computes from the same, non-negative, experience
    (as for every profile the store keeps), the result is 100 at the
    final stage; below the final stage it is a number that is at least 0
    and strictly below 100, so that the cap at 100 plays no part, that is
    0 exactly when the experience is at the threshold of the stage, and
    that is strictly larger for a larger experience of the same stage. *)
Theorem progress_of_the_computed_stage (xp xp' : Z) :
  0 <= xp ->
  (getEvolutionStage xp = 7 ->
   getEvolutionProgress xp (getEvolutionStage xp) = JS.Fin (inject_Z 100))
  /\ (getEvolutionStage xp < 7 ->
      exists q,
        getEvolutionProgress xp (getEvolutionStage xp) = JS.Fin q
        /\ (0 <= q)%Q /\ (q < inject_Z 100)%Q
        /\ ((q == 0)%Q <-> xp = threshold (getEvolutionStage xp))
        /\ (xp < xp' -> getEvolutionStage xp' = getEvolutionStage xp ->
            exists q',
              getEvolutionProgress xp' (getEvolutionStage xp') = JS.Fin q'
              /\ (q < q')%Q)).
Proof.
  intro Hxp. split.
  - intros ->. reflexivity.
  - intro Hlt.
    destruct (computed_stage_progress xp Hxp Hlt) as (q & Hq & H0 & H1 & Heq).
    assert (Hd : 0 < threshold (getEvolutionStage xp + 1)
                     - threshold (getEvolutionStage xp)).
    { pose proof (getEvolutionStage_range xp) as Hr.
      pose proof (thresholds_increase (getEvolutionStage xp)) as Hinc. lia. }
    exists q. split; [exact Hq|]. split; [exact H0|]. split; [exact H1|].
    split.
    + split.
      * intro Hz.
        destruct (Z.eq_dec xp (threshold (getEvolutionStage xp))) as [E|Hne];
          [exact E|exfalso].
        assert (Hpos : 0 < xp - threshold (getEvolutionStage xp)).
        { assert (Hnn : 0 <= xp - threshold (getEvolutionStage xp)).
          { destruct (Z.le_gt_cases 0 (xp - threshold (getEvolutionStage xp)))
              as [Hle|Hgt]; [exact Hle|exfalso].
            pose proof (ratio_grows _ 0 _ Hgt Hd) as Hneg.
            rewrite <- Heq in Hneg.
            assert (Hzero : (inject_Z 0 / inject_Z
                               (threshold (getEvolutionStage xp + 1)
                                - threshold (getEvolutionStage xp))
                             * inject_Z 100 == 0)%Q) by (unfold Qdiv; ring).
            rewrite Hzero in Hneg.
            apply (Qlt_irrefl 0). eapply Qle_lt_trans; eassumption. }
          lia. }
        pose proof (ratio_grows 0 _ _ Hpos Hd) as Hgrow.
        rewrite <- Heq in Hgrow.
        assert (Hzero : (inject_Z 0 / inject_Z
                           (threshold (getEvolutionStage xp + 1)
                            - threshold (getEvolutionStage xp))
                         * inject_Z 100 == 0)%Q) by (unfold Qdiv; ring).
        rewrite Hzero, Hz in Hgrow. exact (Qlt_irrefl 0 Hgrow).
      * intro E. rewrite Heq.
        replace (xp - threshold (getEvolutionStage xp)) with 0 by lia.
        unfold Qdiv. ring.
    + intros Hmore Hsame.
      destruct (computed_stage_progress xp' ltac:(lia) ltac:(lia))
        as (q' & Hq' & _ & _ & Heq').
      exists q'. split; [exact Hq'|].
      rewrite Heq, Heq', Hsame.
      apply ratio_grows; [lia | exact Hd].
Qed.

Lemma progress_of_the_computed_stage_witness :
  exists q, getEvolutionProgress 750 (getEvolutionStage 750) = JS.Fin q
            /\ (0 <= q)%Q /\ (q < inject_Z 100)%Q
            /\ exists q', getEvolutionProgress 900 (getEvolutionStage 900) = JS.Fin q'
                          /\ (q < q')%Q.
Proof.
  destruct (progress_of_the_computed_stage 750 900) as [_ H]; [lia|].
  destruct H as (q & Hq & H0 & H1 & _ & Hgrow); [vm_compute; reflexivity|].
  exists q. split; [exact Hq|]. split; [exact H0|]. split; [exact H1|].
  apply Hgrow; [lia | vm_compute; reflexivity].
Defined.

(** X12.  A stage number outside 1..7 is not rejected.  For a number
    below 0 or above 7 there is no next stage: the progress is 100 and
    the experience still needed is 0.  For 0 the current stage falls back
    to the first stage and so does the next one: the progress is a
    division by zero, which gives [NaN] when the experience is 0 and is
    capped to 100 when it is positive. *)
Theorem progress_of_an_unknown_stage (xp stage : Z) :
  (stage < 0 \/ 7 < stage ->
   getEvolutionProgress xp stage = JS.Fin (inject_Z 100)
   /\ getXPToNextEvolution xp stage = 0)
  /\ getEvolutionProgress 0 0 = JS.NaN
  /\ (0 < xp -> getEvolutionProgress xp 0 = JS.Fin (inject_Z 100))
  /\ (xp < 0 -> getEvolutionProgress xp 0 = JS.NegInf)
  /\ getXPToNextEvolution xp 0 = Z.max 0 (0 - xp).
Proof.
  split; [|split; [reflexivity|split; [|split; [|reflexivity]]]].
  - intro H. unfold getEvolutionProgress, getXPToNextEvolution, getNextEvolution.
    rewrite findStage_outside by lia. split; reflexivity.
  - intro H. unfold getEvolutionProgress. cbn -[JS.div Z.sub].
    unfold JS.div. rewrite !Z.sub_0_r. cbn [Z.eqb].
    destruct (Z.eqb_spec xp 0); [lia|].
    destruct (Z.ltb_spec 0 xp); [reflexivity | lia].
  - intro H. unfold getEvolutionProgress. cbn -[JS.div Z.sub].
    unfold JS.div. rewrite !Z.sub_0_r. cbn [Z.eqb].
    destruct (Z.eqb_spec xp 0); [lia|].
    destruct (Z.ltb_spec 0 xp); [lia | reflexivity].
Qed.

Lemma progress_of_an_unknown_stage_witness :
  getEvolutionProgress 40 9 = JS.Fin (inject_Z 100)
  /\ getEvolutionProgress 40 0 = JS.Fin (inject_Z 100).
Proof.
  destruct (progress_of_an_unknown_stage 40 9) as (H1 & _).
  destruct (progress_of_an_unknown_stage 40 0) as (_ & _ & H2 & _).
  split; [apply H1; lia | apply H2; lia].
Defined.

End EvolutionLaws.

(* ===================================================================== *)
(** * Further properties of the game session                             *)
(* ===================================================================== *)

Module GameSceneLaws.
Import MathGenerator GameScene MathGeneratorSpec GameSceneSpec.

(** ** The shuffle *)

(** [arr[i] = v] inside the array. *)
Lemma assign_count (l : list Z) (i : nat) (old v x : Z) :
  nth_error l i = Some old ->
  (count_occ Z.eq_dec (firstn i l ++ v :: skipn (S i) l) x
   + (if Z.eq_dec old x then 1 else 0)
   = count_occ Z.eq_dec l x + (if Z.eq_dec v x then 1 else 0))%nat.
Proof.
  intro Hnth.
  destruct (nth_error_split l i Hnth) as (l1 & l2 & -> & <-).
  rewrite firstn_app, Nat.sub_diag, firstn_all, app_nil_r.
  replace (skipn (S (List.length l1)) (l1 ++ old :: l2)) with l2.
  - rewrite !count_occ_app. cbn [count_occ].
    destruct (Z.eq_dec old x); destruct (Z.eq_dec v x); lia.
  - rewrite skipn_app, skipn_all2 by lia.
    replace (S (List.length l1) - List.length l1)%nat with 1%nat by lia.
    reflexivity.
Qed.

Lemma assign_nth (l : list Z) (i j : nat) (old v : Z) :
  nth_error l i = Some old ->
  nth_error (firstn i l ++ v :: skipn (S i) l) j
  = if Nat.eqb j i then Some v else nth_error l j.
Proof.
  intro Hnth.
  destruct (nth_error_split l i Hnth) as (l1 & l2 & -> & <-).
  rewrite firstn_app, Nat.sub_diag, firstn_all, app_nil_r.
  replace (skipn (S (List.length l1)) (l1 ++ old :: l2)) with l2.
  - destruct (Nat.eqb_spec j (List.length l1)) as [->|Hne].
    + rewrite nth_error_app2, Nat.sub_diag by lia. reflexivity.
    + destruct (Nat.lt_ge_cases j (List.length l1)).
      * rewrite !nth_error_app1 by lia. reflexivity.
      * rewrite !nth_error_app2 by lia.
        destruct (j - List.length l1)%nat eqn:E; [lia|]. reflexivity.
  - rewrite skipn_app, skipn_all2 by lia.
    replace (S (List.length l1) - List.length l1)%nat with 1%nat by lia.
    reflexivity.
Qed.

Lemma swap_Permutation (answers : list Z) (i j : nat) :
  Permutation (swap answers i j) answers.
Proof.
  unfold swap.
  destruct (nth_error answers i) as [ai|] eqn:Hi; [|reflexivity].
  destruct (nth_error answers j) as [aj|] eqn:Hj; [|reflexivity].
  cbv zeta. apply (Permutation_count_occ Z.eq_dec). intro x.
  pose proof (assign_count answers i ai aj x Hi) as H1.
  assert (Hj' : nth_error (firstn i answers ++ aj :: skipn (S i) answers) j
                = Some aj).
  { rewrite (assign_nth answers i j ai aj Hi).
    destruct (Nat.eqb j i); [reflexivity | assumption]. }
  pose proof (assign_count _ j aj ai x Hj') as H2.
  lia.
Qed.

Lemma shuffleLoop_Permutation (random : nat -> Q) (i : nat) :
  forall (answers : list Z) (k : nat),
    Permutation (fst (shuffleLoop random i answers k)) answers.
Proof.
  induction i as [|i IH]; intros answers k; [reflexivity|].
  cbn [shuffleLoop]. unfold bind, draw.
  etransitivity; [apply IH | apply swap_Permutation].
Qed.

(** ** The targets of a problem *)

(** The enemies [spawnAnswerEnemies] creates for the shuffled answers,
    the first in the container numbered [n]. *)
Fixpoint targets (n : nat) (answers : list Z) (correctAnswer : Z) : list EnemyData :=
  match answers with
  | [] => []
  | a :: rest =>
      {| container := n; answerValue := a; isCorrect := a =? correctAnswer |}
      :: targets (S n) rest correctAnswer
  end.

Lemma pushEnemies_targets (answers : list Z) (c : Z) :
  forall s, enemies (pushEnemies answers c s)
            = enemies s ++ targets (objects s) answers c.
Proof.
  induction answers as [|a rest IH]; intro s; cbn [pushEnemies targets].
  - now rewrite app_nil_r.
  - unfold createEnemy. rewrite IH. cbn. now rewrite <- app_assoc.
Qed.

Lemma pushEnemies_problemStartTime (answers : list Z) (c : Z) :
  forall s, problemStartTime (pushEnemies answers c s) = problemStartTime s.
Proof.
  induction answers as [|a rest IH]; intro s; cbn [pushEnemies]; [reflexivity|].
  unfold createEnemy. rewrite IH. reflexivity.
Qed.

Lemma targets_values (n : nat) (answers : list Z) (c : Z) :
  map answerValue (targets n answers c) = answers.
Proof.
  revert n. induction answers as [|a rest IH]; intro n; cbn; [reflexivity|].
  now rewrite IH.
Qed.

Lemma targets_containers (answers : list Z) (c : Z) :
  forall n, map container (targets n answers c) = seq n (List.length answers).
Proof.
  induction answers as [|a rest IH]; intro n; cbn; [reflexivity|].
  now rewrite IH.
Qed.

Lemma targets_marks (answers : list Z) (c : Z) :
  forall n, Forall (fun e => isCorrect e = (answerValue e =? c)) (targets n answers c).
Proof.
  induction answers as [|a rest IH]; intro n; cbn; constructor; [reflexivity|].
  apply IH.
Qed.

(** The enemies marked correct are those that carry the answer. *)
Lemma marked_count (es : list EnemyData) (c : Z) :
  Forall (fun e => isCorrect e = (answerValue e =? c)) es ->
  List.length (filter isCorrect es) = count_occ Z.eq_dec (map answerValue es) c.
Proof.
  induction 1 as [|e es He _ IH]; cbn; [reflexivity|].
  rewrite He. destruct (Z.eqb_spec (answerValue e) c);
    destruct (Z.eq_dec (answerValue e) c); try contradiction; cbn; lia.
Qed.

(** X13.  A problem issued in shoot mode (draws in [0, 1)) is published
    once, with three wrong answers that are pairwise different, positive
    and different from the answer; it replaces the enemies by four new
    ones, in four new containers, whose values are the answer and the
    three wrong answers in some order; an enemy is marked correct exactly
    when it carries the answer, so exactly one of the four is.  In type
    mode the problem is published without wrong answers and the only
    enemy is a placeholder with value 0 that is marked correct. *)
Theorem new_problem_has_one_correct_target
    (random : nat -> Q) (now : Z) (s s' : t) (g : MathGenerator.t) :
  unitInterval random ->
  isGameOver s = false -> mathGenerator s = Some g ->
  s' = generateNewProblem random now s ->
  currentProblem s' = Some (fst (generate random g None O))
  /\ problemStartTime s' = now
  /\ (gameMode s = shoot ->
      exists wrongAnswers,
        published s s'
        = [problem_new (equation (fst (generate random g None O)))
             (answer (fst (generate random g None O))) (Some wrongAnswers)]
        /\ List.length wrongAnswers = 3%nat
        /\ NoDup wrongAnswers
        /\ Forall (fun w => 0 < w /\ w <> answer (fst (generate random g None O)))
             wrongAnswers
        /\ Permutation (map answerValue (enemies s'))
             (answer (fst (generate random g None O)) :: wrongAnswers)
        /\ Forall (fun e => isCorrect e
                            = (answerValue e =? answer (fst (generate random g None O))))
             (enemies s')
        /\ List.length (filter isCorrect (enemies s')) = 1%nat
        /\ map container (enemies s') = seq (objects s) 4)
  /\ (gameMode s = type ->
      published s s'
      = [problem_new (equation (fst (generate random g None O)))
           (answer (fst (generate random g None O))) None]
      /\ enemies s'
         = [{| container := objects s; answerValue := 0; isCorrect := true |}]).
Proof.
  intros Hunit Hover Hgen ->. unfold generateNewProblem. rewrite Hover, Hgen.
  destruct (generate random g None O) as [p k]. cbn [fst].
  cbn [gameMode set_currentProblem set_problemStartTime clearEnemies set_enemies].
  destruct (gameMode s) eqn:Hmode.
  - (* shoot *)
    pose proof (generateWrongAnswers_spec random (answer p) 3 k ltac:(lia))
      as [[Hnd Hall] Hsize].
    destruct (generateWrongAnswers random (answer p) 3 k) as [ws k'].
    cbn [fst] in Hnd, Hall, Hsize.
    unfold spawnAnswerEnemies, bind, ret.
    pose proof (shuffleLoop_Permutation random
                  (List.length (answer p :: ws) - 1) (answer p :: ws) k') as Hperm.
    destruct (shuffleLoop random _ _ k') as [answers k'']. cbn [fst] in *.
    match goal with
    | |- context [pushEnemies answers (answer p) ?x] =>
        pose proof (pushEnemies_core answers (answer p) x) as (Hc & He & _);
        pose proof (pushEnemies_targets answers (answer p) x) as Ht;
        set (s1 := pushEnemies answers (answer p) x) in *
    end.
    apply core_fields in Hc.
    destruct Hc as (_ & _ & _ & _ & _ & _ & _ & _ & _ & Hcp & _).
    cbn in Hcp, He, Ht.
    assert (Hlen : List.length ws = 3%nat) by (unfold JS.set_size in Hsize; lia).
    assert (Hmarks : Forall (fun e => isCorrect e = (answerValue e =? answer p))
                       (enemies s1))
      by (rewrite Ht; apply targets_marks).
    assert (Hvalues : map answerValue (enemies s1) = answers)
      by (rewrite Ht; apply targets_values).
    split; [exact Hcp|].
    split.
    { subst s1. rewrite pushEnemies_problemStartTime. reflexivity. }
    split; [|discriminate].
    intros _. exists ws.
    split; [apply published_app; exact He|].
    split; [exact Hlen|].
    split; [exact Hnd|].
    split; [exact Hall|].
    split; [rewrite Hvalues; exact Hperm|].
    split; [exact Hmarks|].
    split.
    + rewrite (marked_count _ _ Hmarks), Hvalues.
      rewrite (proj1 (Permutation_count_occ Z.eq_dec _ _) Hperm).
      cbn [count_occ]. destruct (Z.eq_dec (answer p) (answer p)); [|congruence].
      f_equal. apply count_occ_not_In.
      intro Hin. rewrite Forall_forall in Hall. destruct (Hall _ Hin). congruence.
    + rewrite Ht, targets_containers.
      rewrite (Permutation_length Hperm). cbn [List.length]. rewrite Hlen.
      reflexivity.
  - (* type *)
    split; [reflexivity|]. split; [reflexivity|].
    split; [discriminate|]. intros _.
    split; [apply published_app; reflexivity | reflexivity].
Qed.

Lemma new_problem_has_one_correct_target_witness :
  currentProblem
    (generateNewProblem halves 0
       (step FiveLives (fresh FiveLives) (SceneStart shootSession)))
  = Some (fst (generate halves (MathGenerator.new 1) None O)).
Proof.
  refine (proj1 (new_problem_has_one_correct_target halves 0
                   (step FiveLives (fresh FiveLives) (SceneStart shootSession))
                   _ (MathGenerator.new 1) _ _ _ eq_refl)).
  - intro k. split; unfold halves, Qle, Qlt; simpl; lia.
  - reflexivity.
  - reflexivity.
Defined.

(** ** The tallies of a session *)

(** How the counters of a session relate to the number of correct
    answers: each of them earns 110 to 200 points and 12 to 35
    experience points. *)
Definition tallies (s : t) : Prop :=
  0 <= streak s <= bestStreak s
  /\ bestStreak s <= correctAnswers s
  /\ 110 * correctAnswers s <= score s <= 200 * correctAnswers s
  /\ 12 * correctAnswers s <= xpEarned s <= 35 * correctAnswers s
  /\ 5 * xpEarned s + 25 * correctAnswers s <= score s
     <= 5 * xpEarned s + 50 * correctAnswers s.

Section Sessions.

Variable revision : Revision.

Lemma tallies_core (s s' : t) : core s = core s' -> tallies s -> tallies s'.
Proof.
  intros Hc. apply core_fields in Hc.
  destruct Hc as (H1 & H2 & H3 & H4 & H5 & _).
  unfold tallies. rewrite H1, H2, H3, H4, H5. tauto.
Qed.

Lemma tallies_correct (now : Z) (s : t) :
  tallies s -> tallies (handleCorrectAnswer now s).
Proof.
  intros (Hst & Hb & Hsc & Hxp & Hrel).
  destruct (handleCorrectAnswer_fields now s) as (E1 & E2 & E3 & E4 & E5 & _).
  unfold tallies. rewrite E1, E2, E3, E4, E5.
  destruct (now - problemStartTime s <? 3000); lia.
Qed.

Lemma tallies_wrong (s : t) : tallies s -> tallies (handleWrongAnswer revision s).
Proof.
  intros (Hst & Hb & Hsc & Hxp & Hrel).
  destruct (handleWrongAnswer_fields revision s)
    as (E1 & _ & _ & E4 & E5 & E6 & E7 & _).
  unfold tallies. rewrite E1, E4, E5, E6, E7. lia.
Qed.

Lemma tallies_step (s : t) (i : Input) : tallies s -> tallies (step revision s i).
Proof.
  intro Hs. destruct i as [data|random now|frame|answer now| | |].
  - unfold tallies, step, create, init, emitLivesUpdate.
    destruct (publishesLives revision); cbn; lia.
  - cbn [step]. destruct (isPaused s); [assumption|].
    destruct (timers s) eqn:Ht; [assumption|].
    destruct (generateNewProblem_fields random now (set_timers n s))
      as (E1 & E2 & E3 & E4 & E5 & _).
    unfold tallies. rewrite E1, E2, E3, E4, E5. exact Hs.
  - cbn [step].
    apply (update_ind revision tallies tallies_core tallies_correct tallies_wrong
             _ _ Hs).
  - cbn [step].
    apply (answerSubmit_ind revision tallies tallies_core tallies_correct
             tallies_wrong _ _ _ _ Hs).
  - exact Hs.
  - exact Hs.
  - exact Hs.
Qed.

Lemma tallies_run (inputs : list Input) :
  forall s, tallies s -> tallies (run revision s inputs).
Proof.
  induction inputs as [|i inputs IH]; intros s Hs; cbn; [assumption|].
  apply IH, tallies_step, Hs.
Qed.

(** X14.  In every state a scene can reach, in shoot or type mode: the
    streak is at most the best streak, which is at most the number of
    correct answers; the score lies between 110 and 200 times the number
    of correct answers and the experience earned between 12 and 35 times
    that number; and the score is 5 times the experience earned plus 25
    to 50 points per correct answer.  In particular a session without a
    correct answer has score 0 and earns no experience. *)
Theorem counters_are_bounded_by_correct_answers (s : t) :
  reachable revision s ->
  0 <= streak s <= bestStreak s
  /\ bestStreak s <= correctAnswers s
  /\ 110 * correctAnswers s <= score s <= 200 * correctAnswers s
  /\ 12 * correctAnswers s <= xpEarned s <= 35 * correctAnswers s
  /\ 5 * xpEarned s + 25 * correctAnswers s <= score s
     <= 5 * xpEarned s + 50 * correctAnswers s
  /\ (correctAnswers s = 0 -> score s = 0 /\ xpEarned s = 0).
Proof.
  intros [inputs ->].
  assert (H : tallies (run revision (fresh revision) inputs)).
  { apply tallies_run. unfold tallies. cbn. lia. }
  unfold tallies in H. intuition lia.
Qed.

(** ** After the end *)

Lemma published_none (s s' : t) : emitted s' = emitted s -> published s s' = [].
Proof. intro H. apply published_app. now rewrite app_nil_r. Qed.

Lemma answerSubmit_over (answer now : Z) (n : nat) (s : t) :
  isGameOver s = true -> Nat.iter n (onAnswerSubmit revision answer now) s = s.
Proof.
  intro Hover. induction n as [|n IH]; [reflexivity|].
  rewrite Nat.iter_succ, IH. unfold onAnswerSubmit. rewrite Hover.
  rewrite andb_false_r. reflexivity.
Qed.

(** The session after its end. *)
Lemma after_game_over (s : t) (i : Input) :
  isGameOver s = true -> (forall data, i <> SceneStart data) ->
  published s (step revision s i) = []
  /\ score (step revision s i) = score s
  /\ streak (step revision s i) = streak s
  /\ bestStreak (step revision s i) = bestStreak s
  /\ correctAnswers (step revision s i) = correctAnswers s
  /\ xpEarned (step revision s i) = xpEarned s
  /\ playerLives (step revision s i) = playerLives s
  /\ currentProblem (step revision s i) = currentProblem s
  /\ isGameOver (step revision s i) = true
  /\ (i <> GameQuit ->
      enemies (step revision s i) = enemies s
      /\ bullets (step revision s i) = bullets s)
  /\ (forall frame, i = Update frame -> step revision s i = s)
  /\ (forall answer now, i = AnswerSubmit answer now -> step revision s i = s).
Proof.
  intros Hover Hi.
  assert (Hsame : forall s',
             emitted s' = emitted s -> score s' = score s -> streak s' = streak s ->
             bestStreak s' = bestStreak s -> correctAnswers s' = correctAnswers s ->
             xpEarned s' = xpEarned s -> playerLives s' = playerLives s ->
             currentProblem s' = currentProblem s -> isGameOver s' = isGameOver s ->
             published s s' = []
             /\ score s' = score s /\ streak s' = streak s
             /\ bestStreak s' = bestStreak s
             /\ correctAnswers s' = correctAnswers s
             /\ xpEarned s' = xpEarned s /\ playerLives s' = playerLives s
             /\ currentProblem s' = currentProblem s /\ isGameOver s' = true).
  { intros s' He H1 H2 H3 H4 H5 H6 H7 H8.
    split; [now apply published_none|]. rewrite H8, Hover.
    repeat (split; [assumption|]). reflexivity. }
  assert (Hall : forall s',
             s' = s \/ s' = set_timers (Nat.pred (timers s)) s
             \/ s' = set_isPaused true s \/ s' = set_isPaused false s ->
             published s s' = []
             /\ score s' = score s /\ streak s' = streak s
             /\ bestStreak s' = bestStreak s
             /\ correctAnswers s' = correctAnswers s
             /\ xpEarned s' = xpEarned s /\ playerLives s' = playerLives s
             /\ currentProblem s' = currentProblem s /\ isGameOver s' = true
             /\ enemies s' = enemies s /\ bullets s' = bullets s).
  { intros s' [->|[->|[->| ->]]];
      (split; [now apply published_none|]); cbn; rewrite Hover;
      repeat split. }
  destruct i as [data|random now|frame|answer now| | |].
  - exfalso. now apply (Hi data).
  - assert (E : step revision s (TimerFired random now) = s
                \/ step revision s (TimerFired random now)
                   = set_timers (Nat.pred (timers s)) s).
    { cbn [step]. destruct (isPaused s); [now left|].
      destruct (timers s) as [|n] eqn:Ht; [now left|]. right.
      unfold generateNewProblem. cbn [isGameOver set_timers]. rewrite Hover.
      reflexivity. }
    destruct (Hall (step revision s (TimerFired random now)))
      as (? & ? & ? & ? & ? & ? & ? & ? & ? & ? & ?);
      [destruct E as [E|E]; [left | right; left]; exact E|].
    repeat split; try assumption; discriminate.
  - assert (E : step revision s (Update frame) = s).
    { cbn [step]. unfold update. rewrite Hover. reflexivity. }
    rewrite E.
    destruct (Hall s (or_introl eq_refl)) as (? & ? & ? & ? & ? & ? & ? & ? & ? & ? & ?).
    repeat split; try assumption.
  - assert (E : step revision s (AnswerSubmit answer now) = s).
    { cbn [step]. now apply answerSubmit_over. }
    rewrite E.
    destruct (Hall s (or_introl eq_refl)) as (? & ? & ? & ? & ? & ? & ? & ? & ? & ? & ?).
    repeat split; try assumption.
  - destruct (Hall (step revision s GamePause)) as (? & ? & ? & ? & ? & ? & ? & ? & ? & ? & ?);
      [right; right; left; reflexivity|].
    repeat split; try assumption; discriminate.
  - destruct (Hall (step revision s GameResume)) as (? & ? & ? & ? & ? & ? & ? & ? & ? & ? & ?);
      [right; right; right; reflexivity|].
    repeat split; try assumption; discriminate.
  - destruct (Hsame (step revision s GameQuit)) as (? & ? & ? & ? & ? & ? & ? & ? & ?);
      try reflexivity.
    repeat split; try assumption; try discriminate; try congruence.
Qed.

(** X15.  Once the game is over, nothing but a new start has an effect
    on the session: a frame, a typed answer, a pending timer, pause,
    resume and quit publish nothing and leave every counter, the lives
    and the current problem as they are, and the game stays over; a frame
    and a typed answer leave the whole state as it is, and only quit
    removes the enemies and bullets. *)
Theorem nothing_happens_after_game_over (s : t) (i : Input) :
  isGameOver s = true -> (forall data, i <> SceneStart data) ->
  published s (step revision s i) = []
  /\ score (step revision s i) = score s
  /\ streak (step revision s i) = streak s
  /\ bestStreak (step revision s i) = bestStreak s
  /\ correctAnswers (step revision s i) = correctAnswers s
  /\ xpEarned (step revision s i) = xpEarned s
  /\ playerLives (step revision s i) = playerLives s
  /\ currentProblem (step revision s i) = currentProblem s
  /\ isGameOver (step revision s i) = true
  /\ (i <> GameQuit ->
      enemies (step revision s i) = enemies s
      /\ bullets (step revision s i) = bullets s)
  /\ (forall frame, i = Update frame -> step revision s i = s)
  /\ (forall answer now, i = AnswerSubmit answer now -> step revision s i = s).
Proof. apply after_game_over. Qed.


(** ** Type mode *)

(** X16.  In type mode nothing is ever shot: in every reachable state of
    a type-mode session there is no bullet and at most one enemy, so
    that no answer is resolved by a collision and a frame can resolve at
    most one miss. *)
Theorem type_mode_has_no_bullets (s : t) :
  reachable revision s -> gameMode s = type ->
  bullets s = [] /\ (List.length (enemies s) <= 1)%nat.
Proof.
  intros Hr Hm. destruct (reachable_shaped revision s Hr Hm) as (_ & Hb & He).
  split; assumption.
Qed.

(** ** The end of a type-mode session *)

Definition summaries (events : list Emitted) : list Emitted :=
  filter isGameOverEvent events.

(** The [game:over] event that carries the counters of [s]. *)
Definition summaryOf (s : t) : Emitted :=
  game_over (score s) (correctAnswers s) (xpEarned s) (bestStreak s).

(** [s] is a state met while an input is handled that found the type-mode
    session in the running state [s0]: a summary has been published
    since [s0] exactly if the game is over in [s], and then once. *)
Definition ending (s0 s : t) : Prop :=
  sound revision s /\ typeShape s
  /\ exists events,
       emitted s = emitted s0 ++ events
       /\ summaries events = if isGameOver s then [summaryOf s] else [].

Lemma ending_refl (s0 : t) :
  sound revision s0 -> typeShape s0 -> isGameOver s0 = false -> ending s0 s0.
Proof.
  intros Hs Ht Ho. split; [assumption|]. split; [assumption|].
  exists []. rewrite app_nil_r, Ho. split; reflexivity.
Qed.

Lemma ending_presentation (s0 s s' : t) :
  core s = core s' -> emitted s = emitted s' -> bullets s = bullets s' ->
  (List.length (enemies s') <= List.length (enemies s))%nat ->
  ending s0 s -> ending s0 s'.
Proof.
  intros Hc He Hb Hl (Hs & (Hm & Hbs & Hes) & events & Hev & Hsum).
  pose proof (sound_core revision s s' Hc Hs) as Hs'.
  apply core_fields in Hc.
  destruct Hc as (H1 & _ & H3 & H4 & H5 & _ & H7 & _ & H9 & _).
  split; [assumption|]. split.
  - unfold typeShape. rewrite <- H9, <- Hb. repeat split; try assumption. lia.
  - exists events. rewrite <- He, <- H7. split; [assumption|].
    unfold summaryOf. rewrite <- H1, <- H3, <- H4, <- H5. assumption.
Qed.

Lemma ending_correct (s0 s : t) (now : Z) :
  ending s0 s -> isGameOver s = false -> ending s0 (handleCorrectAnswer now s).
Proof.
  intros (Hs & (Hm & Hbs & Hes) & events & Hev & Hsum) Ho.
  destruct (handleCorrectAnswer_fields now s)
    as (_ & _ & _ & _ & _ & _ & E7 & _ & E9 & _ & _ & E12 & E13 & _ & E15).
  split; [now apply sound_correct|]. split.
  - unfold typeShape. rewrite E9, E12, E13. repeat split; assumption.
  - eexists. rewrite E15, Hev, <- app_assoc. split; [reflexivity|].
    unfold summaries in *. rewrite filter_app, Hsum, E7, Ho. reflexivity.
Qed.

Lemma ending_wrong (s0 s : t) :
  ending s0 s -> isGameOver s = false -> ending s0 (handleWrongAnswer revision s).
Proof.
  intros (Hs & (Hm & Hbs & Hes) & events & Hev & Hsum) Ho.
  destruct (handleWrongAnswer_fields revision s)
    as (_ & _ & E3 & E4 & E5 & E6 & E7 & _ & _ & E10 & _ & E12 & E13 & _ & E15).
  split; [now apply sound_wrong|]. split.
  - unfold typeShape. rewrite E10, E12, E13. repeat split; assumption.
  - eexists. rewrite E15, Hev, <- app_assoc. split; [reflexivity|].
    unfold summaries in *. rewrite !filter_app, Hsum, E3, Ho, orb_false_r.
    unfold summaryOf. rewrite E4, E5, E6, E7.
    destruct (publishesLives revision); destruct (playerLives s - 1 <=? 0);
      reflexivity.
Qed.

Lemma onAnswerSubmit_ending (s0 s : t) (answer now : Z) :
  ending s0 s -> ending s0 (onAnswerSubmit revision answer now s).
Proof.
  intro H. unfold onAnswerSubmit.
  destruct (isGameOver s) eqn:Ho;
    [rewrite andb_false_r; assumption|].
  destruct (isType (gameMode s) && negb false && negb (isPaused s));
    [|assumption].
  unfold checkTypedAnswer.
  destruct (currentProblem s) as [problem|]; [|assumption].
  destruct (answer =? MathGenerator.answer problem).
  - apply ending_correct.
    + destruct (enemies s) eqn:He; [assumption|].
      apply (ending_presentation s0 s); try reflexivity; [|assumption].
      cbn. lia.
    + destruct (enemies s); assumption.
  - now apply ending_wrong.
Qed.

Lemma missEnemy_ending (s0 : t) (frame : Frame) (i : nat) (s : t) :
  ending s0 s /\ (isGameOver s = true -> enemies s = []) ->
  ending s0 (missEnemy revision frame i s)
  /\ (isGameOver (missEnemy revision frame i s) = true ->
      enemies (missEnemy revision frame i s) = []).
Proof.
  intros [H Hgone]. unfold missEnemy.
  destruct (nth_error (enemies s) i) as [enemy|] eqn:Hnth; [|split; assumption].
  destruct (enemyGone frame (container enemy)); [|split; assumption].
  assert (Ho : isGameOver s = false).
  { destruct (isGameOver s); [|reflexivity].
    rewrite Hgone in Hnth by reflexivity. destruct i; discriminate. }
  pose proof H as (_ & (Hm & _ & Hlen) & _).
  cbv zeta. rewrite Hm, orb_true_r.
  pose proof (ending_wrong s0 s H Ho) as Hw.
  destruct (handleWrongAnswer_fields revision s)
    as (_ & _ & _ & _ & _ & _ & _ & _ & _ & _ & _ & E12 & _).
  assert (Hnil : JS.splice1 (enemies (handleWrongAnswer revision s)) i = []).
  { rewrite E12. destruct (enemies s) as [|e [|e' l]]; cbn in Hlen; try lia.
    - destruct i; discriminate.
    - destruct i as [|i]; [reflexivity|]. destruct i; discriminate. }
  rewrite Hnil.
  assert (H2 : ending s0 (set_enemies [] (handleWrongAnswer revision s))).
  { apply (ending_presentation s0 (handleWrongAnswer revision s));
      try reflexivity; [|assumption]. cbn. lia. }
  match goal with |- context [if ?b then _ else _] => destruct b end.
  - split; [|reflexivity].
    apply (ending_presentation s0 (set_enemies [] (handleWrongAnswer revision s)));
      try reflexivity; assumption.
  - split; [assumption | reflexivity].
Qed.

Lemma update_ending (frame : Frame) (s0 : t) :
  ending s0 s0 -> isGameOver s0 = false -> ending s0 (update revision frame s0).
Proof.
  intros H Ho. unfold update, checkBulletEnemyCollision. rewrite Ho.
  cbn [orb]. destruct (isPaused s0); [assumption|].
  pose proof H as (_ & (Hm & Hb & _) & _).
  rewrite Hm, Hb. cbn [List.length JS.downFrom]. rewrite Hb.
  cbn [List.length JS.downFrom].
  apply (downFrom_ind
           (fun s => ending s0 s /\ (isGameOver s = true -> enemies s = []))).
  - intros i s. apply missEnemy_ending.
  - split; [assumption|]. intro Hc. congruence.
Qed.

(** X17.  In type mode a session publishes its [game:over] summary
    exactly once, by the input that ends it: an input that finds a
    reachable type-mode session running and leaves it over publishes one
    summary, which carries the final score, number of correct answers,
    experience earned and best streak; every other input, whatever the
    number of registered listeners, publishes none. *)
Theorem type_mode_publishes_one_summary (s : t) (i : Input) :
  reachable revision s -> gameMode s = type ->
  (forall data, i <> SceneStart data) ->
  filter isGameOverEvent (published s (step revision s i))
  = if negb (isGameOver s) && isGameOver (step revision s i)
    then [game_over (score (step revision s i))
            (correctAnswers (step revision s i))
            (xpEarned (step revision s i))
            (bestStreak (step revision s i))]
    else [].
Proof.
  intros Hr Hm Hi.
  destruct (isGameOver s) eqn:Ho.
  { destruct (after_game_over s i Ho Hi) as (-> & _).
    reflexivity. }
  cbn [negb andb].
  assert (Hend : ending s (step revision s i)).
  { pose proof (ending_refl s (reachable_sound revision s Hr)
                  (reachable_shaped revision s Hr Hm) Ho) as H0.
    destruct i as [data|random now|frame|answer now| | |].
    - exfalso. now apply (Hi data).
    - cbn [step]. destruct (isPaused s); [assumption|].
      destruct (timers s) as [|n]; [assumption|].
      destruct H0 as (Hs & Ht & _).
      destruct (generateNewProblem_shape random now (set_timers n s))
        as (Em & Eb & Ee & events & Eev & Esum).
      destruct (generateNewProblem_fields random now (set_timers n s))
        as (_ & _ & _ & _ & _ & _ & E7 & _).
      split.
      { apply sound_generateNewProblem.
        eapply sound_core; [|exact Hs]. reflexivity. }
      split.
      + destruct Ht as (Hm' & Hb & He). unfold typeShape.
        rewrite Em, Eb. repeat split; try assumption. now apply Ee.
      + exists events. split; [exact Eev|].
        rewrite E7. cbn [isGameOver set_timers]. rewrite Ho. exact Esum.
    - cbn [step]. now apply update_ending.
    - cbn [step]. generalize (submitListeners s). intro n.
      induction n as [|n IH]; [exact H0|].
      rewrite Nat.iter_succ. now apply onAnswerSubmit_ending.
    - destruct H0 as (Hs & Ht & Hev). split; [exact Hs|]. split; [exact Ht|].
      exact Hev.
    - destruct H0 as (Hs & Ht & Hev). split; [exact Hs|]. split; [exact Ht|].
      exact Hev.
    - destruct (H0) as (_ & (_ & Hb & _) & _).
      apply (ending_presentation s s); try reflexivity;
        [cbn; congruence | cbn; lia | assumption]. }
  destruct Hend as (_ & _ & events & Hev & Hsum).
  rewrite (published_app _ _ _ Hev). exact Hsum.
Qed.

(** ** Listeners *)

(** The number of starts among the inputs. *)
Fixpoint starts (inputs : list Input) : nat :=
  match inputs with
  | [] => O
  | SceneStart _ :: rest => S (starts rest)
  | _ :: rest => starts rest
  end.

Lemma starts_app (a b : list Input) : starts (a ++ b) = (starts a + starts b)%nat.
Proof.
  induction a as [|i a IH]; [reflexivity|].
  destruct i; cbn; rewrite IH; reflexivity.
Qed.

Lemma submitListeners_step (s : t) (i : Input) :
  submitListeners (step revision s i)
  = (submitListeners s + starts [i])%nat.
Proof.
  assert (Hcore : forall a b, core a = core b ->
            submitListeners a = (submitListeners s + 0)%nat ->
            submitListeners b = (submitListeners s + 0)%nat).
  { intros a b Hc Ha. apply core_fields in Hc.
    destruct Hc as (_ & _ & _ & _ & _ & _ & _ & _ & _ & _ & H11). congruence. }
  assert (Hcorrect : forall now a,
            submitListeners a = (submitListeners s + 0)%nat ->
            submitListeners (handleCorrectAnswer now a) = (submitListeners s + 0)%nat).
  { intros now a Ha.
    destruct (handleCorrectAnswer_fields now a)
      as (_ & _ & _ & _ & _ & _ & _ & _ & _ & _ & E11 & _). congruence. }
  assert (Hwrong : forall a,
            submitListeners a = (submitListeners s + 0)%nat ->
            submitListeners (handleWrongAnswer revision a)
            = (submitListeners s + 0)%nat).
  { intros a Ha.
    destruct (handleWrongAnswer_fields revision a)
      as (_ & _ & _ & _ & _ & _ & _ & _ & _ & _ & E11 & _). congruence. }
  destruct i as [data|random now|frame|answer now| | |]; cbn [starts].
  - unfold step, create, init, emitLivesUpdate.
    destruct (publishesLives revision); cbn; lia.
  - cbn [step]. destruct (isPaused s); [lia|]. destruct (timers s); [lia|].
    destruct (generateNewProblem_fields random now (set_timers n s))
      as (_ & _ & _ & _ & _ & _ & _ & _ & _ & E10 & _).
    rewrite E10. cbn. lia.
  - cbn [step].
    apply (update_ind revision _ Hcore Hcorrect Hwrong). lia.
  - cbn [step].
    apply (answerSubmit_ind revision _ Hcore Hcorrect Hwrong). lia.
  - cbn. lia.
  - cbn. lia.
  - cbn. lia.
Qed.

Lemma submitListeners_run (inputs : list Input) :
  forall s, submitListeners (run revision s inputs)
            = (submitListeners s + starts inputs)%nat.
Proof.
  induction inputs as [|i inputs IH]; intro s; [cbn; lia|].
  change (run revision s (i :: inputs)) with (run revision (step revision s i) inputs).
  rewrite IH, submitListeners_step.
  change (i :: inputs) with ([i] ++ inputs). rewrite starts_app. lia.
Qed.

(** A correct typed answer heard by [n] listeners. *)
Lemma answerSubmit_correct_n (s : t) (p : MathProblem) (now : Z) (n : nat) :
  gameMode s = type -> isGameOver s = false -> isPaused s = false ->
  currentProblem s = Some p ->
  gameMode (Nat.iter n (onAnswerSubmit revision (answer p) now) s) = type
  /\ isGameOver (Nat.iter n (onAnswerSubmit revision (answer p) now) s) = false
  /\ isPaused (Nat.iter n (onAnswerSubmit revision (answer p) now) s) = false
  /\ currentProblem (Nat.iter n (onAnswerSubmit revision (answer p) now) s) = Some p
  /\ correctAnswers (Nat.iter n (onAnswerSubmit revision (answer p) now) s)
     = correctAnswers s + Z.of_nat n
  /\ streak (Nat.iter n (onAnswerSubmit revision (answer p) now) s)
     = streak s + Z.of_nat n
  /\ timers (Nat.iter n (onAnswerSubmit revision (answer p) now) s)
     = (timers s + n)%nat
  /\ playerLives (Nat.iter n (onAnswerSubmit revision (answer p) now) s)
     = playerLives s.
Proof.
  intros Hm Ho Hp Hc.
  induction n as [|n IH].
  - cbn. repeat split; try assumption; lia.
  - rewrite Nat.iter_succ.
    destruct IH as (I1 & I2 & I3 & I4 & I5 & I6 & I7 & I8).
    set (sn := Nat.iter n (onAnswerSubmit revision (answer p) now) s) in *.
    rewrite (onAnswerSubmit_correct revision now sn p I1 I2 I3 I4).
    match goal with
    | |- context [handleCorrectAnswer now ?x] =>
        destruct (handleCorrectAnswer_fields now x)
          as (E1 & E2 & _ & _ & _ & E6 & E7 & E8 & E9 & E10 & _ & _ & _ & E14 & _);
        set (x' := x) in *;
        assert (Hx : core x' = core sn /\ timers x' = timers sn)
          by (subst x'; destruct (enemies sn); split; reflexivity)
    end.
    destruct Hx as [Hx Ht]. apply core_fields in Hx.
    destruct Hx as (_ & X2 & _ & X4 & _ & X6 & X7 & X8 & X9 & X10 & _).
    rewrite E1, E2, E6, E7, E8, E9, E10, E14, X2, X4, X6, X7, X8, X9, X10, Ht.
    clearbody sn x'.
    split; [exact I1|]. split; [exact I2|]. split; [exact I3|].
    split; [exact I4|]. split; [lia|]. split; [lia|]. split; [lia|]. exact I8.
Qed.

(** A wrong typed answer heard by [n] listeners. *)
Lemma answerSubmit_wrong_n (s : t) (p : MathProblem) (value now : Z) (n : nat) :
  sound revision s ->
  gameMode s = type -> isGameOver s = false -> isPaused s = false ->
  currentProblem s = Some p -> value <> answer p ->
  sound revision (Nat.iter n (onAnswerSubmit revision value now) s)
  /\ gameMode (Nat.iter n (onAnswerSubmit revision value now) s) = type
  /\ isPaused (Nat.iter n (onAnswerSubmit revision value now) s) = false
  /\ currentProblem (Nat.iter n (onAnswerSubmit revision value now) s) = Some p
  /\ playerLives (Nat.iter n (onAnswerSubmit revision value now) s)
     = Z.max 0 (playerLives s - Z.of_nat n).
Proof.
  intros Hs Hm Ho Hp Hc Hne.
  assert (Hpos : 1 <= playerLives s).
  { destruct Hs as (_ & _ & _ & _ & _ & Hiff).
    destruct (Z.le_gt_cases (playerLives s) 0) as [Hle|]; [|lia].
    apply Hiff in Hle. congruence. }
  induction n as [|n IH].
  - cbn [Nat.iter nat_rect].
    split; [exact Hs|]. split; [exact Hm|]. split; [exact Hp|].
    split; [exact Hc|]. lia.
  - rewrite Nat.iter_succ.
    destruct IH as (I0 & I1 & I3 & I4 & I5).
    set (sn := Nat.iter n (onAnswerSubmit revision value now) s) in *.
    destruct (isGameOver sn) eqn:Hover.
    + assert (E : onAnswerSubmit revision value now sn = sn).
      { unfold onAnswerSubmit. rewrite Hover, andb_false_r. reflexivity. }
      rewrite E.
      split; [exact I0|]. split; [exact I1|]. split; [exact I3|].
      split; [exact I4|].
      destruct I0 as (_ & _ & _ & _ & _ & Hiff).
      apply Hiff in Hover. lia.
    + rewrite (onAnswerSubmit_wrong revision value now sn p I1 Hover I3 I4 Hne).
      destruct (handleWrongAnswer_fields revision sn)
        as (_ & E2 & _ & _ & _ & _ & _ & E8 & E9 & E10 & _).
      split; [now apply sound_wrong|].
      rewrite E2, E8, E9, E10.
      split; [exact I1|]. split; [exact I3|]. split; [exact I4|].
      assert (1 <= playerLives sn).
      { destruct I0 as (_ & _ & _ & _ & _ & Hiff).
        destruct (Z.le_gt_cases (playerLives sn) 0) as [Hle|]; [|lia].
        apply Hiff in Hle. congruence. }
      lia.
Qed.

(** X18.  The scene registers one more [answer:submit] listener at every
    start and never removes one, and every listener resolves the typed
    answer: in the session begun by the n-th start of a scene, a correct
    typed answer is counted n times (n correct answers, a streak longer
    by n, n pending timers for the next problem) and a wrong one costs n
    lives, or all the lives that are left. *)
Theorem typed_answer_is_resolved_once_per_start
    (inputs : list Input) (s : t) (p : MathProblem) (value now : Z) :
  s = run revision (fresh revision) inputs ->
  gameMode s = type -> isGameOver s = false -> isPaused s = false ->
  currentProblem s = Some p ->
  submitListeners s = starts inputs
  /\ (value = answer p ->
      correctAnswers (step revision s (AnswerSubmit value now))
      = correctAnswers s + Z.of_nat (starts inputs)
      /\ streak (step revision s (AnswerSubmit value now))
         = streak s + Z.of_nat (starts inputs)
      /\ timers (step revision s (AnswerSubmit value now))
         = (timers s + starts inputs)%nat
      /\ playerLives (step revision s (AnswerSubmit value now)) = playerLives s)
  /\ (value <> answer p ->
      playerLives (step revision s (AnswerSubmit value now))
      = Z.max 0 (playerLives s - Z.of_nat (starts inputs))).
Proof.
  intros Hrun Hm Ho Hp Hc.
  assert (Hn : submitListeners s = starts inputs).
  { rewrite Hrun, submitListeners_run. reflexivity. }
  assert (Hsound : sound revision s).
  { apply reachable_sound. exists inputs. exact Hrun. }
  split; [exact Hn|]. cbn [step]. rewrite Hn. split.
  - intros ->.
    destruct (answerSubmit_correct_n s p now (starts inputs) Hm Ho Hp Hc)
      as (_ & _ & _ & _ & H5 & H6 & H7 & H8).
    repeat split; assumption.
  - intro Hne.
    destruct (answerSubmit_wrong_n s p value now (starts inputs) Hsound Hm Ho Hp Hc Hne)
      as (_ & _ & _ & _ & H5).
    exact H5.
Qed.

(** ** The difficulty of a session *)

(** X19.  Whatever difficulty a session is started with, the generator
    the scene creates has a level from 1 to 5: a missing difficulty (0)
    becomes 1, a difficulty below 1 becomes 1 and one above 5 becomes 5;
    and the start leaves exactly one timer pending, the one that issues
    the first problem. *)
Theorem session_difficulty_is_clamped (s : t) (data : InitData) :
  exists g,
    mathGenerator (step revision s (SceneStart data)) = Some g
    /\ g = MathGenerator.new (data_difficulty data)
    /\ 1 <= difficultyLevel g <= 5
    /\ difficultyLevel g
       = (if data_difficulty data <? 1 then 1
          else if 5 <? data_difficulty data then 5 else data_difficulty data)
    /\ difficulty (step revision s (SceneStart data))
       = (if data_difficulty data =? 0 then 1 else data_difficulty data)
    /\ timers (step revision s (SceneStart data)) = 1%nat.
Proof.
  exists (MathGenerator.new (data_difficulty data)).
  assert (Hnew : MathGenerator.new (orOne (data_difficulty data))
                 = MathGenerator.new (data_difficulty data)).
  { unfold orOne, MathGenerator.new.
    destruct (Z.eqb_spec (data_difficulty data) 0) as [->|]; reflexivity. }
  split.
  { unfold step, create, init, emitLivesUpdate.
    destruct (publishesLives revision); cbn -[MathGenerator.new];
      rewrite Hnew; reflexivity. }
  split; [reflexivity|].
  split; [cbn; lia|].
  split.
  { cbn. destruct (Z.ltb_spec (data_difficulty data) 1);
      destruct (Z.ltb_spec 5 (data_difficulty data)); lia. }
  split; unfold step, create, init, emitLivesUpdate;
    destruct (publishesLives revision); reflexivity.
Qed.

(** ** Properties of the trace *)

Section TraceInduction.

(** A property of the counters and of the trace that both resolutions
    maintain is maintained by a whole frame and by a typed answer. *)
Variable P : t -> Prop.
Hypothesis P_same :
  forall s s', core s = core s' -> emitted s = emitted s' -> P s -> P s'.
Hypothesis P_correct : forall now s, P s -> P (handleCorrectAnswer now s).
Hypothesis P_wrong : forall s, P s -> P (handleWrongAnswer revision s).

Lemma set_enemies_trace (v : list EnemyData) (s : t) : P s -> P (set_enemies v s).
Proof. apply P_same; reflexivity. Qed.

Lemma set_bullets_trace (v : list nat) (s : t) : P s -> P (set_bullets v s).
Proof. apply P_same; reflexivity. Qed.

Lemma delayedCall_trace (s : t) : P s -> P (delayedCall s).
Proof. apply P_same; reflexivity. Qed.

Lemma fire_trace (now : Z) (s : t) : P s -> P (fire now s).
Proof.
  unfold fire. destruct (now - lastFireTime s <? fireDelay s); [tauto|].
  apply P_same; reflexivity.
Qed.

Lemma collide_trace (frame : Frame) (i : nat) (s : t) :
  P s -> P (collide revision frame i s).
Proof.
  intro Hs. unfold collide.
  destruct (nth_error (bullets s) i) as [bullet|]; [|assumption].
  destruct (findTouched frame bullet (enemies s) _) as [j|]; [|assumption].
  destruct (nth_error (enemies s) j) as [enemy|]; [|assumption].
  cbn [gameMode set_bullets].
  pose proof (set_bullets_trace (JS.splice1 (bullets s) i) s Hs) as H1.
  destruct (gameMode s).
  - destruct (isAnswer _ _).
    + apply set_enemies_trace, P_correct, H1.
    + apply set_enemies_trace, P_wrong, H1.
  - apply set_enemies_trace, H1.
Qed.

Lemma dropBullet_trace (frame : Frame) (i : nat) (s : t) :
  P s -> P (dropBullet frame i s).
Proof.
  intro Hs. unfold dropBullet.
  destruct (nth_error (bullets s) i) as [bullet|]; [|assumption].
  destruct (bulletGone frame bullet); [|assumption].
  apply set_bullets_trace, Hs.
Qed.

Lemma missEnemy_trace (frame : Frame) (i : nat) (s : t) :
  P s -> P (missEnemy revision frame i s).
Proof.
  intro Hs. unfold missEnemy.
  destruct (nth_error (enemies s) i) as [enemy|]; [|assumption].
  destruct (enemyGone frame (container enemy)); [|assumption].
  cbv zeta.
  set (s1 := if isCorrect enemy || isType (gameMode s)
             then handleWrongAnswer revision s else s).
  assert (H1 : P s1).
  { subst s1. destruct (isCorrect enemy || isType (gameMode s));
      [now apply P_wrong | assumption]. }
  clearbody s1.
  pose proof (set_enemies_trace (JS.splice1 (enemies s1) i) s1 H1) as H2.
  match goal with
  | |- P (if ?b then _ else _) => destruct b
  end; [|assumption].
  apply delayedCall_trace, H2.
Qed.

Lemma update_trace (frame : Frame) (s : t) : P s -> P (update revision frame s).
Proof.
  intro Hs. unfold update.
  destruct (isGameOver s || isPaused s); [assumption|].
  apply downFrom_ind; [apply missEnemy_trace|].
  apply downFrom_ind; [apply dropBullet_trace|].
  unfold checkBulletEnemyCollision.
  apply downFrom_ind; [apply collide_trace|].
  destruct (gameMode s); [|assumption].
  destruct (spaceDown frame); [|assumption].
  apply fire_trace, Hs.
Qed.

Lemma onAnswerSubmit_trace (answer now : Z) (s : t) :
  P s -> P (onAnswerSubmit revision answer now s).
Proof.
  intro Hs. unfold onAnswerSubmit.
  destruct (isType (gameMode s) && negb (isGameOver s) && negb (isPaused s));
    [|assumption].
  unfold checkTypedAnswer.
  destruct (currentProblem s) as [problem|]; [|assumption].
  destruct (answer =? MathGenerator.answer problem).
  - apply P_correct. destruct (enemies s); [assumption|].
    apply set_enemies_trace, Hs.
  - now apply P_wrong.
Qed.

Lemma answerSubmit_trace (answer now : Z) (n : nat) (s : t) :
  P s -> P (Nat.iter n (onAnswerSubmit revision answer now) s).
Proof.
  intro Hs. induction n as [|n IH]; cbn [Nat.iter nat_rect]; [assumption|].
  now apply onAnswerSubmit_trace.
Qed.

End TraceInduction.

(** What [generateNewProblem] publishes. *)
Lemma generateNewProblem_event (random : nat -> Q) (now : Z) (s : t) :
  generateNewProblem random now s = s
  \/ exists g wrongAnswers,
       mathGenerator s = Some g
       /\ currentProblem (generateNewProblem random now s)
          = Some (fst (generate random g None O))
       /\ emitted (generateNewProblem random now s)
          = emitted s
            ++ [problem_new (equation (fst (generate random g None O)))
                  (answer (fst (generate random g None O))) wrongAnswers].
Proof.
  unfold generateNewProblem.
  destruct (isGameOver s); [now left|].
  destruct (mathGenerator s) as [g|]; [|now left].
  right. exists g.
  destruct (generate random g None O) as [p k]. cbn [fst].
  cbn [gameMode set_currentProblem set_problemStartTime clearEnemies set_enemies].
  destruct (gameMode s).
  - destruct (generateWrongAnswers random (answer p) 3 k) as [ws k'].
    exists (Some ws). split; [reflexivity|].
    unfold spawnAnswerEnemies, bind, ret.
    destruct (shuffleLoop random _ _ k') as [answers k'']. cbn [fst].
    match goal with
    | |- context [pushEnemies ?a ?c ?x] =>
        destruct (pushEnemies_core a c x) as (Hc & He & _);
        apply core_fields in Hc;
        destruct Hc as (_ & _ & _ & _ & _ & _ & _ & _ & _ & Hcp & _)
    end.
    rewrite Hcp, He. split; reflexivity.
  - exists None. split; [reflexivity|]. split; reflexivity.
Qed.

(** The experience a [game:over] event reports. *)
Definition earned (e : Emitted) : Z :=
  match e with
  | game_over _ _ xpEarned _ => xpEarned
  | _ => 0
  end.

(** The number of correct answers a [game:over] event reports. *)
Definition solved (e : Emitted) : Z :=
  match e with
  | game_over _ correct _ _ => correct
  | _ => 0
  end.

Lemma trace_nonneg_step (s : t) (i : Input) :
  sound revision s /\ Forall (fun e => 0 <= earned e /\ 0 <= solved e) (emitted s) ->
  sound revision (step revision s i)
  /\ Forall (fun e => 0 <= earned e /\ 0 <= solved e) (emitted (step revision s i)).
Proof.
  intro Hs.
  pose (P := fun s' => sound revision s'
                       /\ Forall (fun e => 0 <= earned e /\ 0 <= solved e) (emitted s')).
  assert (Psame : forall a b, core a = core b -> emitted a = emitted b -> P a -> P b).
  { intros a b Hc He [Ha Hf]. split; [eapply sound_core; eassumption|].
    rewrite <- He. assumption. }
  assert (Pcorrect : forall now a, P a -> P (handleCorrectAnswer now a)).
  { intros now a [Ha Hf]. split; [now apply sound_correct|].
    destruct (handleCorrectAnswer_fields now a)
      as (_ & _ & _ & _ & _ & _ & _ & _ & _ & _ & _ & _ & _ & _ & E15).
    rewrite E15. apply Forall_app. split; [assumption|].
    repeat constructor; cbn; lia. }
  assert (Pwrong : forall a, P a -> P (handleWrongAnswer revision a)).
  { intros a [Ha Hf]. split; [now apply sound_wrong|].
    destruct (handleWrongAnswer_fields revision a)
      as (_ & _ & _ & _ & _ & _ & _ & _ & _ & _ & _ & _ & _ & _ & E15).
    destruct Ha as (_ & Hx & _ & Hc & _).
    rewrite E15. apply Forall_app. split; [assumption|].
    destruct (publishesLives revision); destruct (playerLives a - 1 <=? 0);
      repeat constructor; cbn; lia. }
  destruct i as [data|random now|frame|answer now| | |].
  - split; [apply sound_sceneStart|].
    destruct Hs as [_ Hf].
    unfold step, create, init, emitLivesUpdate.
    destruct (publishesLives revision); cbn; [|assumption].
    apply Forall_app. split; [assumption|]. repeat constructor; cbn; lia.
  - split; [apply sound_step, Hs|]. destruct Hs as [_ Hf].
    cbn [step]. destruct (isPaused s); [assumption|].
    destruct (timers s) as [|n]; [assumption|].
    destruct (generateNewProblem_event random now (set_timers n s))
      as [->|(g & ws & _ & _ & ->)]; [assumption|].
    apply Forall_app. split; [assumption|]. repeat constructor; cbn; lia.
  - cbn [step]. apply (update_trace P Psame Pcorrect Pwrong frame s Hs).
  - cbn [step]. apply (answerSubmit_trace P Psame Pcorrect Pwrong _ _ _ s Hs).
  - exact Hs.
  - exact Hs.
  - exact Hs.
Qed.

(** Every summary a scene has published reports a non-negative
    experience and a non-negative number of correct answers. *)
Lemma reachable_trace_nonneg (s : t) :
  reachable revision s ->
  Forall (fun e => 0 <= earned e /\ 0 <= solved e) (emitted s).
Proof.
  intros [inputs ->]. unfold run.
  assert (H : forall s0,
             sound revision s0
             /\ Forall (fun e => 0 <= earned e /\ 0 <= solved e) (emitted s0) ->
             sound revision (fold_left (step revision) inputs s0)
             /\ Forall (fun e => 0 <= earned e /\ 0 <= solved e)
                  (emitted (fold_left (step revision) inputs s0))).
  { induction inputs as [|i inputs IH]; intros s0 H0; cbn; [assumption|].
    apply IH, trace_nonneg_step, H0. }
  apply H. split; [apply sound_fresh | constructor].
Qed.

End Sessions.

(** ** The laws on the example session *)

Lemma firstTypeProblem_reachable : reachable FiveLives firstTypeProblem.
Proof. exists [SceneStart typeSession; TimerFired halves 1000]. reflexivity. Qed.

(** The example session after five wrong answers. *)
Definition lostSession : t :=
  run FiveLives firstTypeProblem
    [AnswerSubmit 0 2000; AnswerSubmit 0 2100; AnswerSubmit 0 2200;
     AnswerSubmit 0 2300; AnswerSubmit 0 2400].

Lemma lostSession_reachable : reachable FiveLives lostSession.
Proof.
  unfold lostSession, run. cbn [fold_left].
  repeat apply reachable_step. exists []. reflexivity.
Qed.

Lemma counters_are_bounded_by_correct_answers_witness :
  110 * correctAnswers (step FiveLives firstTypeProblem (AnswerSubmit 12 2000))
  <= score (step FiveLives firstTypeProblem (AnswerSubmit 12 2000))
  <= 200 * correctAnswers (step FiveLives firstTypeProblem (AnswerSubmit 12 2000)).
Proof.
  refine (proj1 (proj2 (proj2
            (counters_are_bounded_by_correct_answers FiveLives
               (step FiveLives firstTypeProblem (AnswerSubmit 12 2000)) _)))).
  apply reachable_step.
  exists [SceneStart typeSession; TimerFired halves 1000]. reflexivity.
Defined.

Lemma nothing_happens_after_game_over_witness :
  published lostSession (step FiveLives lostSession (AnswerSubmit 12 2500)) = [].
Proof.
  refine (proj1 (nothing_happens_after_game_over FiveLives lostSession
                   (AnswerSubmit 12 2500) _ _)).
  - vm_compute. reflexivity.
  - intros data H. discriminate H.
Defined.

Lemma type_mode_has_no_bullets_witness :
  bullets firstTypeProblem = []
  /\ (List.length (enemies firstTypeProblem) <= 1)%nat.
Proof.
  apply (type_mode_has_no_bullets FiveLives firstTypeProblem).
  - exists [SceneStart typeSession; TimerFired halves 1000]. reflexivity.
  - reflexivity.
Defined.

Lemma type_mode_publishes_one_summary_witness :
  filter isGameOverEvent
    (published firstTypeProblem (step FiveLives firstTypeProblem (AnswerSubmit 0 2000)))
  = if negb (isGameOver firstTypeProblem)
       && isGameOver (step FiveLives firstTypeProblem (AnswerSubmit 0 2000))
    then [game_over
            (score (step FiveLives firstTypeProblem (AnswerSubmit 0 2000)))
            (correctAnswers (step FiveLives firstTypeProblem (AnswerSubmit 0 2000)))
            (xpEarned (step FiveLives firstTypeProblem (AnswerSubmit 0 2000)))
            (bestStreak (step FiveLives firstTypeProblem (AnswerSubmit 0 2000)))]
    else [].
Proof.
  apply (type_mode_publishes_one_summary FiveLives firstTypeProblem
           (AnswerSubmit 0 2000)).
  - exists [SceneStart typeSession; TimerFired halves 1000]. reflexivity.
  - reflexivity.
  - intros data H. discriminate H.
Defined.

Lemma typed_answer_is_resolved_once_per_start_witness :
  submitListeners
    (run FiveLives (fresh FiveLives)
       [SceneStart typeSession; GameQuit; SceneStart typeSession;
        TimerFired halves 1000])
  = 2%nat.
Proof.
  refine (proj1 (typed_answer_is_resolved_once_per_start FiveLives
                   [SceneStart typeSession; GameQuit; SceneStart typeSession;
                    TimerFired halves 1000]
                   _
                   {| operand1 := 6; operand2 := 6; operation := addition;
                      answer := 12; equation := "6 + 6 = ?" |}
                   12 2000 eq_refl _ _ _ _)).
  - reflexivity.
  - reflexivity.
  - reflexivity.
  - vm_compute. reflexivity.
Defined.

End GameSceneLaws.

(* ===================================================================== *)
(** * Properties of the event bus                                        *)
(* ===================================================================== *)

Module EventBusLaws.
Import EventBus.

Lemma get_set (listeners : t) (event event' : string) (callbacks : CallbackSet) :
  get (set listeners event callbacks) event'
  = if String.eqb event event' then Some callbacks else get listeners event'.
Proof.
  induction listeners as [|[key old] rest IH]; cbn [set get].
  - destruct (String.eqb_spec event event'); reflexivity.
  - destruct (String.eqb_spec key event) as [->|Hne]; cbn [get].
    + destruct (String.eqb_spec event event'); reflexivity.
    + rewrite IH.
      destruct (String.eqb_spec key event') as [->|Hne'];
        destruct (String.eqb_spec event event') as [->|Hne'']; congruence.
Qed.

Lemma callback_has_In (s : CallbackSet) (c : Callback) : set_has s c = true <-> In c s.
Proof.
  unfold set_has. rewrite existsb_exists. split.
  - intros [x [Hx Heq]]. apply Nat.eqb_eq in Heq. now subst.
  - intro H. exists c. split; [assumption | apply Nat.eqb_refl].
Qed.

Lemma set_delete_In (s : CallbackSet) (c x : Callback) :
  In x (set_delete s c) <-> In x s /\ x <> c.
Proof.
  unfold set_delete. rewrite filter_In.
  destruct (Nat.eqb_spec x c); cbn; intuition congruence.
Qed.

Lemma set_delete_absent (s : CallbackSet) (c : Callback) :
  ~ In c s -> set_delete s c = s.
Proof.
  intro H. unfold set_delete. induction s as [|x s IH]; [reflexivity|].
  cbn. destruct (Nat.eqb_spec x c) as [->|Hne]; cbn.
  - exfalso. apply H. now left.
  - rewrite IH; [reflexivity|]. intro Hin. apply H. now right.
Qed.

Lemma set_delete_added (s : CallbackSet) (c : Callback) :
  ~ In c s -> set_delete (s ++ [c]) c = s.
Proof.
  intro H. unfold set_delete. rewrite filter_app. cbn.
  rewrite Nat.eqb_refl. cbn. rewrite app_nil_r. now apply set_delete_absent.
Qed.

Lemma called_on (listeners : t) (event event' : string) (callback : Callback) :
  called (fst (on event callback listeners)) event'
  = if String.eqb event event'
    then set_add (called listeners event) callback
    else called listeners event'.
Proof.
  unfold on, called, has. cbn [fst].
  destruct (get listeners event) as [callbacks|] eqn:Hget.
  - rewrite Hget, get_set.
    destruct (String.eqb_spec event event'); reflexivity.
  - rewrite get_set, String.eqb_refl, !get_set.
    destruct (String.eqb_spec event event'); reflexivity.
Qed.

Lemma called_off (listeners : t) (event event' : string) (callback : Callback) :
  called (off event callback listeners) event'
  = if String.eqb event event'
    then set_delete (called listeners event) callback
    else called listeners event'.
Proof.
  unfold off, called.
  destruct (get listeners event) as [callbacks|] eqn:Hget.
  - rewrite get_set. destruct (String.eqb_spec event event'); reflexivity.
  - destruct (String.eqb_spec event event') as [<-|]; [|reflexivity].
    rewrite Hget. reflexivity.
Qed.

(** Every set of the bus is free of duplicates. *)
Definition distinct (listeners : t) : Prop :=
  forall event, NoDup (called listeners event).

Lemma callback_add_NoDup (s : CallbackSet) (c : Callback) : NoDup s -> NoDup (set_add s c).
Proof.
  intro Hnd. unfold set_add. destruct (set_has s c) eqn:Hhas; [assumption|].
  assert (Hnot : ~ In c s).
  { intro Hin. apply callback_has_In in Hin. congruence. }
  clear Hhas. induction Hnd as [|y l Hy Hnd IH]; cbn.
  - constructor; [tauto | constructor].
  - constructor.
    + rewrite in_app_iff. cbn in *. intuition congruence.
    + apply IH. cbn in Hnot. tauto.
Qed.

Lemma act_distinct (listeners : t) (a : Action) :
  distinct listeners -> distinct (act listeners a).
Proof.
  intros H event'. destruct a as [event callback|event callback|]; cbn [act].
  - rewrite called_on. destruct (String.eqb event event'); [|apply H].
    apply callback_add_NoDup, H.
  - rewrite called_off. destruct (String.eqb event event'); [|apply H].
    apply NoDup_filter, H.
  - constructor.
Qed.

(** X20.  [on] registers a callback for one event only: the callbacks
    called for any other event are unchanged, and those called for the
    event are the ones called before, in the same order, followed by the
    new callback, unless it was registered already, in which case nothing
    changes.  Whatever sequence of [on], [off] and [clear] built the bus,
    [emit] calls no callback twice. *)
Theorem on_registers_once_in_order
    (actions : list Action) (event other : string) (callback : Callback) :
  other <> event ->
  called (fst (on event callback (fold_left act actions empty))) other
  = called (fold_left act actions empty) other
  /\ (In callback (called (fold_left act actions empty) event) ->
      called (fst (on event callback (fold_left act actions empty))) event
      = called (fold_left act actions empty) event)
  /\ (~ In callback (called (fold_left act actions empty) event) ->
      called (fst (on event callback (fold_left act actions empty))) event
      = called (fold_left act actions empty) event ++ [callback])
  /\ NoDup (called (fst (on event callback (fold_left act actions empty))) event).
Proof.
  intro Hne. rewrite !called_on, String.eqb_refl.
  destruct (String.eqb_spec event other) as [E|_]; [congruence|].
  split; [reflexivity|].
  unfold set_add.
  split; [|split].
  - intro Hin. apply callback_has_In in Hin. now rewrite Hin.
  - intro Hnot. destruct (set_has _ callback) eqn:Hhas; [|reflexivity].
    apply callback_has_In in Hhas. contradiction.
  - change (NoDup (set_add (called (fold_left act actions empty) event) callback)).
    apply callback_add_NoDup.
    assert (H : forall l, distinct l -> distinct (fold_left act actions l)).
    { induction actions as [|a actions' IH]; intros l Hl; cbn; [assumption|].
      apply IH, act_distinct, Hl. }
    apply H. intro e. constructor.
Qed.

Lemma on_registers_once_in_order_witness :
  called (fst (on "answer:submit" 7%nat
                 (fold_left act [On "answer:submit" 3%nat; On "game:over" 5%nat] empty)))
    "game:over"
  = called (fold_left act [On "answer:submit" 3%nat; On "game:over" 5%nat] empty)
      "game:over".
Proof.
  refine (proj1 (on_registers_once_in_order
                   [On "answer:submit" 3%nat; On "game:over" 5%nat]
                   "answer:submit" "game:over" 7%nat _)).
  discriminate.
Defined.

(** X21.  The function [on] returns, like [off], removes that callback
    from that event and nothing else, on whatever bus it is called
    later; called right after [on] registered a callback that was not
    registered before, it restores what [emit] calls for every event;
    but if the callback was registered before the [on], it is gone
    afterwards. *)
Theorem unsubscribe_removes_only_its_callback
    (listeners later : t) (event event' : string) (callback : Callback) :
  snd (on event callback listeners) later = off event callback later
  /\ called (off event callback later) event'
     = (if String.eqb event event'
        then filter (fun c => negb (Nat.eqb c callback)) (called later event)
        else called later event')
  /\ ~ In callback (called (off event callback later) event)
  /\ (~ In callback (called listeners event) ->
      called (snd (on event callback listeners) (fst (on event callback listeners)))
        event'
      = called listeners event')
  /\ (In callback (called listeners event) ->
      called (snd (on event callback listeners) (fst (on event callback listeners)))
        event
      = filter (fun c => negb (Nat.eqb c callback)) (called listeners event)).
Proof.
  split; [reflexivity|].
  split; [apply called_off|].
  split.
  { rewrite called_off, String.eqb_refl. rewrite set_delete_In. tauto. }
  change (snd (on event callback listeners)) with (off event callback).
  split; intro H.
  - rewrite called_off, !called_on, String.eqb_refl.
    destruct (String.eqb event event') eqn:E; [|reflexivity].
    apply String.eqb_eq in E. subst event'.
    unfold set_add. destruct (set_has _ callback) eqn:Hhas.
    + apply callback_has_In in Hhas. contradiction.
    + now apply set_delete_added.
  - rewrite called_off, !called_on, String.eqb_refl.
    unfold set_add. apply callback_has_In in H. rewrite H. reflexivity.
Qed.

Lemma unsubscribe_removes_only_its_callback_witness :
  called (snd (on "game:pause" 4%nat empty) (fst (on "game:pause" 4%nat empty)))
    "game:pause"
  = called empty "game:pause".
Proof.
  refine (proj1 (proj2 (proj2 (proj2
            (unsubscribe_removes_only_its_callback empty empty
               "game:pause" "game:pause" 4%nat)))) _).
  intros [].
Defined.

Lemma fold_left_same {W : Type} (call : Callback -> W -> W) (f : W -> W)
    (callbacks : list Callback) :
  (forall c, In c callbacks -> call c = f) ->
  forall w, fold_left (fun w c => call c w) callbacks w
            = Nat.iter (List.length callbacks) f w.
Proof.
  induction callbacks as [|c rest IH]; intros H w; [reflexivity|].
  cbn [fold_left List.length]. rewrite IH by (intros; apply H; now right).
  rewrite (H c) by now left.
  clear. induction (List.length rest) as [|n IHn]; [reflexivity|].
  cbn [Nat.iter nat_rect] in *. now rewrite <- IHn.
Qed.

(** ** What [emit] calls *)

(** The calls one [emit(event, data)] makes, in the order it makes them:
    what [emit] leaves in a log when calling a callback appends the
    callback to the log. *)
Definition calls (listeners : t) (event : string) : list Callback :=
  emit (fun c log => log ++ [c]) event listeners [].

(** [on(event, c)] for every [c] of [callbacks], in that order. *)
Definition registerAll (event : string) (callbacks : list Callback) (listeners : t)
    : t :=
  fold_left (fun l c => fst (on event c l)) callbacks listeners.

Lemma emit_called {W : Type} (call : Callback -> W -> W)
    (listeners : t) (event : string) (world : W) :
  emit call event listeners world
  = fold_left (fun w c => call c w) (called listeners event) world.
Proof. unfold emit, called. destruct (get listeners event); reflexivity. Qed.

Lemma log_fold (callbacks log : list Callback) :
  fold_left (fun l c => l ++ [c]) callbacks log = log ++ callbacks.
Proof.
  revert log. induction callbacks as [|c rest IH]; intro log; cbn [fold_left].
  - now rewrite app_nil_r.
  - rewrite IH, <- app_assoc. reflexivity.
Qed.

Lemma calls_called (listeners : t) (event : string) :
  calls listeners event = called listeners event.
Proof. unfold calls. rewrite emit_called. apply log_fold. Qed.

Lemma history_distinct (actions : list Action) :
  distinct (fold_left act actions empty).
Proof.
  assert (H : forall l, distinct l -> distinct (fold_left act actions l)).
  { induction actions as [|a actions' IH]; intros l Hl; cbn; [assumption|].
    apply IH, act_distinct, Hl. }
  apply H. intro e. constructor.
Qed.

Lemma called_registerAll (event : string) (callbacks : list Callback)
    (listeners : t) :
  NoDup callbacks ->
  (forall c, In c callbacks -> ~ In c (called listeners event)) ->
  called (registerAll event callbacks listeners) event
  = called listeners event ++ callbacks.
Proof.
  revert listeners.
  induction callbacks as [|c rest IH]; intros listeners Hnd Hnew;
    cbn [registerAll fold_left].
  - now rewrite app_nil_r.
  - inversion Hnd as [|? ? Hc Hrest]; subst.
    change (called (registerAll event rest (fst (on event c listeners))) event
            = called listeners event ++ c :: rest).
    assert (Hon : called (fst (on event c listeners)) event
                  = called listeners event ++ [c]).
    { rewrite called_on, String.eqb_refl. unfold set_add.
      destruct (set_has (called listeners event) c) eqn:Hhas; [|reflexivity].
      apply callback_has_In in Hhas. exfalso. apply (Hnew c); [now left | exact Hhas]. }
    rewrite IH; [rewrite Hon, <- app_assoc; reflexivity | exact Hrest |].
    intros x Hx. rewrite Hon, in_app_iff. cbn.
    intros [Hin|[->|[]]].
    + apply (Hnew x); [now right | exact Hin].
    + contradiction.
Qed.

(** X22.  [emit] calls every callback registered for the event once and
    in the order of registration (no callback of the program changes the
    registrations while it runs).  On a bus built by any sequence of
    [on], [off] and [clear], one [emit] calls no callback twice and its
    effect is that of its calls in their order; after [on] has registered
    a callback that was not registered, [emit] does what it did before
    and then calls the new callback, last; after [on] for a callback that
    was registered already, or for another event, it does what it did
    before; after [off] it no longer calls the callback.  Callbacks
    registered one after the other on an empty bus are called in that
    order, so that callbacks which all do the same thing, as the
    [answer:submit] listeners of the scene do, repeat it once per
    callback; and [emit] does nothing after [clear]. *)
Theorem emit_calls_every_listener_once
    {W : Type} (call : Callback -> W -> W) (f : W -> W)
    (actions : list Action) (event other : string) (callback : Callback)
    (callbacks : list Callback) (world : W) :
  NoDup (calls (fold_left act actions empty) event)
  /\ emit call event (fold_left act actions empty) world
     = fold_left (fun w c => call c w) (calls (fold_left act actions empty) event)
         world
  /\ (~ In callback (calls (fold_left act actions empty) event) ->
      emit call event (fst (on event callback (fold_left act actions empty))) world
      = call callback (emit call event (fold_left act actions empty) world))
  /\ (In callback (calls (fold_left act actions empty) event) ->
      emit call event (fst (on event callback (fold_left act actions empty))) world
      = emit call event (fold_left act actions empty) world)
  /\ (other <> event ->
      emit call other (fst (on event callback (fold_left act actions empty))) world
      = emit call other (fold_left act actions empty) world)
  /\ ~ In callback (calls (off event callback (fold_left act actions empty)) event)
  /\ (NoDup callbacks ->
      calls (registerAll event callbacks empty) event = callbacks
      /\ calls (registerAll event callbacks empty) other
         = (if String.eqb other event then callbacks else [])
      /\ emit call event (registerAll event callbacks empty) world
         = fold_left (fun w c => call c w) callbacks world
      /\ ((forall c, In c callbacks -> call c = f) ->
          emit call event (registerAll event callbacks empty) world
          = Nat.iter (List.length callbacks) f world))
  /\ emit call event (clear (fold_left act actions empty)) world = world.
Proof.
  rewrite !calls_called.
  split; [apply history_distinct|].
  split; [apply emit_called|].
  split.
  { intro Hnew. rewrite !emit_called, called_on, String.eqb_refl.
    unfold set_add.
    destruct (set_has _ callback) eqn:Hhas.
    - apply callback_has_In in Hhas. contradiction.
    - rewrite fold_left_app. reflexivity. }
  split.
  { intro Hold. rewrite !emit_called, called_on, String.eqb_refl.
    unfold set_add. apply callback_has_In in Hold. rewrite Hold. reflexivity. }
  split.
  { intro Hne. rewrite !emit_called, called_on.
    destruct (String.eqb_spec event other) as [E|_]; [congruence | reflexivity]. }
  split.
  { rewrite called_off, String.eqb_refl, set_delete_In. tauto. }
  split; [|reflexivity].
  intro Hnd.
  assert (Hcalled : called (registerAll event callbacks empty) event = callbacks).
  { rewrite called_registerAll; [reflexivity | exact Hnd |]. intros c _ []. }
  split; [exact Hcalled|].
  split.
  { destruct (String.eqb_spec other event) as [->|Hne]; [exact Hcalled|].
    clear Hcalled Hnd. unfold registerAll.
    assert (H : forall l, called l other = []
                          -> called (fold_left (fun l c => fst (on event c l))
                                       callbacks l) other = []).
    { induction callbacks as [|c rest IH]; intros l Hl; cbn [fold_left];
        [exact Hl|].
      apply IH. rewrite called_on.
      destruct (String.eqb_spec event other) as [E|_]; [congruence | exact Hl]. }
    apply H. reflexivity. }
  split.
  { rewrite emit_called, Hcalled. reflexivity. }
  intro Hsame. rewrite emit_called, Hcalled. now apply fold_left_same.
Qed.

Lemma emit_calls_every_listener_once_witness :
  emit (fun (c : Callback) (log : list Callback) => log ++ [c]) "answer:submit"
    (fst (on "answer:submit" 3%nat
            (fold_left act
               [On "answer:submit" 1%nat; On "game:over" 5%nat;
                On "answer:submit" 2%nat; On "answer:submit" 1%nat] empty)))
    []
  = emit (fun (c : Callback) (log : list Callback) => log ++ [c]) "answer:submit"
      (fold_left act
         [On "answer:submit" 1%nat; On "game:over" 5%nat;
          On "answer:submit" 2%nat; On "answer:submit" 1%nat] empty)
      []
    ++ [3%nat].
Proof.
  refine (proj1 (proj2 (proj2
            (emit_calls_every_listener_once
               (fun (c : Callback) (log : list Callback) => log ++ [c]) (fun log => log)
               [On "answer:submit" 1%nat; On "game:over" 5%nat;
                On "answer:submit" 2%nat; On "answer:submit" 1%nat]
               "answer:submit" "game:over" 3%nat [] []))) _).
  vm_compute. intros [H|[H|[]]]; discriminate H.
Defined.

End EventBusLaws.

(* ===================================================================== *)
(** * Properties of the storage service                                  *)
(* ===================================================================== *)

Module StorageServiceLaws.
Import StorageService.

(** ** The keys of the service *)

(** No profile key is the key of the index, and profiles with different
    ids have different keys: the two kinds of item never overwrite each
    other. *)
Lemma profile_keys_apart (id id' : string) :
  (PROFILE_PREFIX ++ id)%string <> PROFILES_KEY
  /\ ((PROFILE_PREFIX ++ id)%string = (PROFILE_PREFIX ++ id')%string -> id = id').
Proof.
  unfold PROFILE_PREFIX, PROFILES_KEY. cbn [String.append]. split.
  - discriminate.
  - intro H. now inversion H.
Qed.

Section Laws.

Variable clock : nat -> Z.

(** ** Saving and reading *)

Lemma saveProfile_fields (profile : Profile.t) (w : World) :
  fst (saveProfile clock profile w)
  = Profile.set_lastPlayed (clock (reads w)) profile
  /\ profileItem (snd (saveProfile clock profile w)) (Profile.id profile)
     = Some (Json (Profile.set_lastPlayed (clock (reads w)) profile))
  /\ (forall other, other <> Profile.id profile ->
        profileItem (snd (saveProfile clock profile w)) other = profileItem w other)
  /\ indexItem (snd (saveProfile clock profile w)) = indexItem w
  /\ reads (snd (saveProfile clock profile w)) = S (reads w).
Proof.
  unfold saveProfile, now, setProfileItem. cbn.
  rewrite String.eqb_refl. repeat split.
  intros other Hne. destruct (String.eqb_spec other (Profile.id profile)); congruence.
Qed.

Lemma getProfile_stored (id : string) (profile : Profile.t) (w : World) :
  profileItem w id = Some (Json profile) -> Profile.avatar profile <> ""%string ->
  getProfile clock id w = (Some profile, w).
Proof.
  intros Hitem Havatar. unfold getProfile. rewrite Hitem.
  destruct (String.eqb_spec (Profile.avatar profile) ""); [contradiction|reflexivity].
Qed.

(** The state of the profile [createProfile] returns. *)
Lemma createProfile_fields (id name avatar : string) (w : World) :
  fst (createProfile clock id name avatar w)
  = Profile.createDefaultProfile id name avatar (clock (reads w))
      (clock (S (S (reads w))))
  /\ profileItem (snd (createProfile clock id name avatar w)) id
     = Some (Json (fst (createProfile clock id name avatar w)))
  /\ (forall other, other <> id ->
        profileItem (snd (createProfile clock id name avatar w)) other
        = profileItem w other)
  /\ reads (snd (createProfile clock id name avatar w)) = (reads w + 3)%nat
  /\ getProfilesIndex (snd (createProfile clock id name avatar w))
     = {| profiles := profiles (getProfilesIndex w) ++ [id];
          activeProfile := if falsy (activeProfile (getProfilesIndex w))
                           then Some id
                           else activeProfile (getProfilesIndex w) |}.
Proof.
  unfold createProfile, saveProfile, now, setProfileItem, saveProfilesIndex,
    setIndexItem, getProfilesIndex. cbn.
  rewrite String.eqb_refl.
  split; [reflexivity|]. split; [reflexivity|].
  split.
  { intros other Hne. destruct (String.eqb_spec other id); congruence. }
  split; [lia|].
  destruct (indexItem w) as [[index|]|]; cbn;
    try (destruct (falsy (activeProfile index))); reflexivity.
Qed.

(** X23.  A profile that [createProfile] has created can be read back:
    [getProfile] with its id returns the very profile [createProfile]
    returned (a default profile: no experience, stage 1, difficulty 1,
    shoot mode, created at the first clock reading and last played at
    the third) and writes nothing, provided the avatar is not the empty
    string; with the empty string as avatar the first read returns the
    profile with the default avatar and a later [lastPlayed].  Creating
    a profile reads the clock three times and touches the item of no
    other profile. *)
Theorem created_profile_is_read_back (id name avatar other : string) (w : World) :
  fst (createProfile clock id name avatar w)
  = Profile.createDefaultProfile id name avatar (clock (reads w))
      (clock (S (S (reads w))))
  /\ (avatar <> ""%string ->
      getProfile clock id (snd (createProfile clock id name avatar w))
      = (Some (fst (createProfile clock id name avatar w)),
         snd (createProfile clock id name avatar w)))
  /\ (avatar = ""%string ->
      fst (getProfile clock id (snd (createProfile clock id name avatar w)))
      = Some (Profile.createDefaultProfile id name Profile.DEFAULT_AVATAR
                (clock (reads w)) (clock (S (S (S (reads w)))))))
  /\ reads (snd (createProfile clock id name avatar w)) = (reads w + 3)%nat
  /\ (other <> id ->
      profileItem (snd (createProfile clock id name avatar w)) other
      = profileItem w other).
Proof.
  destruct (createProfile_fields id name avatar w) as (Hp & Hitem & Hother & Hr & _).
  split; [exact Hp|]. split; [|split; [|split; [exact Hr | apply Hother]]].
  - intro Havatar. apply getProfile_stored; [exact Hitem|].
    rewrite Hp. exact Havatar.
  - intros ->. unfold getProfile. rewrite Hitem, Hp. cbn [Profile.avatar
      Profile.createDefaultProfile String.eqb].
    unfold saveProfile, now. cbn [fst snd]. rewrite Hr.
    replace (reads w + 3)%nat with (S (S (S (reads w)))) by lia. reflexivity.
Qed.

(** ** The index *)

(** X24.  [createProfile] appends the new id to the index and makes the
    new profile the active one exactly if no profile was active (the
    active id was [null] or empty): the first profile ever created is
    the active one, and [getActiveProfile] then returns it.
    [setActiveProfile] stores the id it is given without looking it up,
    and leaves the list of profiles alone. *)
Theorem first_created_profile_becomes_active
    (id name avatar chosen : string) (w : World) :
  profiles (getProfilesIndex (snd (createProfile clock id name avatar w)))
  = profiles (getProfilesIndex w) ++ [id]
  /\ activeProfile (getProfilesIndex (snd (createProfile clock id name avatar w)))
     = (if falsy (activeProfile (getProfilesIndex w)) then Some id
        else activeProfile (getProfilesIndex w))
  /\ (falsy (activeProfile (getProfilesIndex w)) = true ->
      id <> ""%string -> avatar <> ""%string ->
      getActiveProfile clock (snd (createProfile clock id name avatar w))
      = (Some (fst (createProfile clock id name avatar w)),
         snd (createProfile clock id name avatar w)))
  /\ getProfilesIndex (setActiveProfile chosen w)
     = {| profiles := profiles (getProfilesIndex w); activeProfile := Some chosen |}.
Proof.
  destruct (createProfile_fields id name avatar w) as (Hp & Hitem & _ & _ & Hindex).
  rewrite Hindex. cbn [profiles activeProfile].
  split; [reflexivity|]. split; [reflexivity|]. split; [|reflexivity].
  intros Hfalsy Hid Havatar. unfold getActiveProfile.
  rewrite Hindex, Hfalsy. cbn [activeProfile].
  destruct (String.eqb_spec id ""); [contradiction|].
  apply getProfile_stored; [exact Hitem|]. rewrite Hp. exact Havatar.
Qed.

Lemma deleteProfile_fields (id : string) (w : World) :
  profileItem (deleteProfile id w) id = None
  /\ (forall other, other <> id ->
        profileItem (deleteProfile id w) other = profileItem w other)
  /\ reads (deleteProfile id w) = reads w
  /\ getProfilesIndex (deleteProfile id w)
     = {| profiles := filter (fun p => negb (String.eqb p id))
                        (profiles (getProfilesIndex w));
          activeProfile :=
            match activeProfile (getProfilesIndex w) with
            | Some active =>
                if String.eqb active id
                then firstOrNull (filter (fun p => negb (String.eqb p id))
                                    (profiles (getProfilesIndex w)))
                else Some active
            | None => None
            end |}.
Proof.
  unfold deleteProfile, removeProfileItem, saveProfilesIndex, setIndexItem,
    getProfilesIndex. cbn.
  rewrite String.eqb_refl. split; [reflexivity|].
  split.
  { intros other Hne. destruct (String.eqb_spec other id); congruence. }
  split; [reflexivity|].
  destruct (indexItem w) as [[index|]|]; cbn; try reflexivity.
  destruct (activeProfile index) as [active|]; [|reflexivity].
  destruct (String.eqb active id); reflexivity.
Qed.

Lemma firstOrNull_In (ids : list string) (first : string) :
  firstOrNull ids = Some first -> In first ids.
Proof.
  destruct ids as [|x rest]; cbn; [discriminate|].
  destruct (String.eqb x ""); [discriminate|]. intro H. left. congruence.
Qed.

(** X25.  After [deleteProfile(id)] the profile cannot be read any more,
    its id is no longer in the index (the other ids keep their order),
    and it is not the active profile: if it was, the first remaining
    profile becomes active, or none if no profile remains; another
    active profile stays active.  The items of the other profiles are
    not touched. *)
Theorem deleted_profile_is_gone (id other : string) (w : World) :
  getProfile clock id (deleteProfile id w) = (None, deleteProfile id w)
  /\ profiles (getProfilesIndex (deleteProfile id w))
     = filter (fun p => negb (String.eqb p id)) (profiles (getProfilesIndex w))
  /\ ~ In id (profiles (getProfilesIndex (deleteProfile id w)))
  /\ activeProfile (getProfilesIndex (deleteProfile id w)) <> Some id
  /\ (activeProfile (getProfilesIndex w) = Some id ->
      activeProfile (getProfilesIndex (deleteProfile id w))
      = firstOrNull (profiles (getProfilesIndex (deleteProfile id w))))
  /\ (activeProfile (getProfilesIndex w) <> Some id ->
      activeProfile (getProfilesIndex (deleteProfile id w))
      = activeProfile (getProfilesIndex w))
  /\ (other <> id ->
      profileItem (deleteProfile id w) other = profileItem w other).
Proof.
  destruct (deleteProfile_fields id w) as (Hitem & Hother & _ & Hindex).
  rewrite Hindex. cbn [profiles activeProfile].
  assert (Hnot : ~ In id (filter (fun p => negb (String.eqb p id))
                            (profiles (getProfilesIndex w)))).
  { rewrite filter_In. intros [_ H]. rewrite String.eqb_refl in H. discriminate. }
  split; [unfold getProfile; rewrite Hitem; reflexivity|].
  split; [reflexivity|]. split; [exact Hnot|].
  split; [|split; [|split; [|apply Hother]]].
  - destruct (activeProfile (getProfilesIndex w)) as [active|]; [|discriminate].
    destruct (String.eqb_spec active id) as [E|Hne]; [|congruence].
    intro H. apply firstOrNull_In in H. contradiction.
  - intros ->. rewrite String.eqb_refl. reflexivity.
  - intro Hne. destruct (activeProfile (getProfilesIndex w)) as [active|];
      [|reflexivity].
    destruct (String.eqb_spec active id) as [E|]; [congruence | reflexivity].
Qed.

(** ** Reading every profile *)

(** Every stored profile is stored under its own id. *)
Definition keyed (w : World) : Prop :=
  forall id profile, profileItem w id = Some (Json profile) -> Profile.id profile = id.

(** The item of the profile exists and is the JSON text of a profile. *)
Definition readable (w : World) (id : string) : bool :=
  match profileItem w id with
  | Some (Json _) => true
  | Some Unparsable | None => false
  end.

Lemma getProfile_keyed (id : string) (w : World) :
  keyed w ->
  keyed (snd (getProfile clock id w))
  /\ (forall key, readable (snd (getProfile clock id w)) key = readable w key)
  /\ indexItem (snd (getProfile clock id w)) = indexItem w
  /\ match fst (getProfile clock id w) with
     | Some profile =>
         readable w id = true /\ Profile.id profile = id
         /\ Profile.avatar profile <> ""%string
         /\ profileItem (snd (getProfile clock id w)) id = Some (Json profile)
     | None => readable w id = false /\ snd (getProfile clock id w) = w
     end.
Proof.
  intro Hk. unfold getProfile, readable.
  destruct (profileItem w id) as [[profile|]|] eqn:Hitem;
    [|repeat split; try assumption; reflexivity
     |repeat split; try assumption; reflexivity].
  pose proof (Hk id profile Hitem) as Hid.
  destruct (String.eqb_spec (Profile.avatar profile) "") as [Hempty|Hfull].
  - unfold saveProfile, now, setProfileItem. cbn. rewrite Hid.
    split.
    { intros key p. cbn [profileItem].
      destruct (String.eqb_spec key id) as [->|Hne].
      - intro H. injection H as <-. exact Hid.
      - apply Hk. }
    split.
    { intro key. cbn [profileItem].
      destruct (String.eqb_spec key id) as [->|Hne]; [|reflexivity].
      now rewrite Hitem. }
    split; [reflexivity|].
    rewrite String.eqb_refl.
    split; [reflexivity|]. split; [reflexivity|]. split; [discriminate|reflexivity].
  - cbn. split; [assumption|]. split; [reflexivity|]. split; [reflexivity|].
    rewrite Hitem. repeat split; assumption.
Qed.

Lemma collectProfiles_spec (ids : list string) :
  forall (found : list Profile.t) (w : World),
    keyed w ->
    map Profile.id (fst (collectProfiles clock ids found w))
    = map Profile.id found ++ filter (readable w) ids
    /\ (Forall (fun p => Profile.avatar p <> ""%string) found ->
        Forall (fun p => Profile.avatar p <> ""%string)
          (fst (collectProfiles clock ids found w)))
    /\ keyed (snd (collectProfiles clock ids found w))
    /\ (forall key, readable (snd (collectProfiles clock ids found w)) key
                    = readable w key)
    /\ indexItem (snd (collectProfiles clock ids found w)) = indexItem w.
Proof.
  induction ids as [|id rest IH]; intros found w Hk; cbn [collectProfiles filter].
  - rewrite app_nil_r. repeat split; auto.
  - destruct (getProfile_keyed id w Hk) as (Hk' & Hread & Hindex & Hres).
    destruct (getProfile clock id w) as [[profile|] w']; cbn [fst snd] in *.
    + destruct Hres as (Hr & Hid & Havatar & _). rewrite Hr.
      destruct (IH (found ++ [profile]) w' Hk') as (I1 & I2 & I3 & I4 & I5).
      rewrite I1, map_app. cbn [map]. rewrite Hid, <- app_assoc. cbn [app].
      split; [f_equal; f_equal; apply filter_ext; assumption|].
      split.
      { intro Hf. apply I2. apply Forall_app. split; [assumption|].
        constructor; [assumption | constructor]. }
      split; [assumption|]. split; [|congruence].
      intro key. rewrite I4. apply Hread.
    + destruct Hres as (Hr & ->). rewrite Hr. apply IH, Hk.
Qed.

(** Reading profiles leaves alone every stored profile that has an
    avatar. *)
Lemma getProfile_keeps (id key : string) (stored : Profile.t) (w : World) :
  keyed w ->
  profileItem w key = Some (Json stored) -> Profile.avatar stored <> ""%string ->
  profileItem (snd (getProfile clock id w)) key = Some (Json stored).
Proof.
  intros Hk Hitem Havatar. unfold getProfile.
  destruct (profileItem w id) as [[profile|]|] eqn:Hid; try assumption.
  destruct (String.eqb_spec (Profile.avatar profile) "") as [Hempty|];
    [|assumption].
  unfold saveProfile, now, setProfileItem. cbn.
  rewrite (Hk id profile Hid).
  destruct (String.eqb_spec key id) as [->|Hne]; [|assumption].
  rewrite Hid in Hitem. injection Hitem as ->. contradiction.
Qed.

Lemma collectProfiles_keeps (key : string) (stored : Profile.t) (ids : list string) :
  forall (found : list Profile.t) (w : World),
    keyed w ->
    profileItem w key = Some (Json stored) -> Profile.avatar stored <> ""%string ->
    profileItem (snd (collectProfiles clock ids found w)) key = Some (Json stored).
Proof.
  induction ids as [|id rest IH]; intros found w Hk Hitem Havatar;
    cbn [collectProfiles]; [assumption|].
  pose proof (getProfile_keeps id key stored w Hk Hitem Havatar) as Hkeep.
  destruct (getProfile_keyed id w Hk) as (Hk' & _).
  destruct (getProfile clock id w) as [[profile|] w']; cbn [fst snd] in *;
    now apply IH.
Qed.

Lemma getProfilesIndex_ext (w w' : World) :
  indexItem w = indexItem w' -> getProfilesIndex w = getProfilesIndex w'.
Proof. intro H. unfold getProfilesIndex. now rewrite H. Qed.

(** What [getAllProfiles] returns and leaves behind. *)
Lemma getAllProfiles_spec (w : World) :
  keyed w ->
  map Profile.id (fst (getAllProfiles clock w))
  = filter (readable w) (profiles (getProfilesIndex w))
  /\ Forall (fun p => Profile.avatar p <> ""%string) (fst (getAllProfiles clock w))
  /\ getProfilesIndex (snd (getAllProfiles clock w)) = getProfilesIndex w
  /\ keyed (snd (getAllProfiles clock w))
  /\ (indexItem w = None \/ indexItem w = Some Unparsable ->
      getAllProfiles clock w = ([], w)).
Proof.
  intro Hk. unfold getAllProfiles.
  destruct (collectProfiles_spec (profiles (getProfilesIndex w)) [] w Hk)
    as (H1 & H2 & H3 & _ & H5).
  split; [exact H1|]. split; [apply H2; constructor|].
  split; [apply getProfilesIndex_ext; exact H5|].
  split; [exact H3|].
  intros [H|H]; unfold getProfilesIndex; rewrite H; reflexivity.
Qed.



(** The service keeps every profile under its own id. *)
Lemma keyed_maintained (id name avatar : string) (profile : Profile.t) (w : World) :
  keyed emptyWorld
  /\ (keyed w -> keyed (snd (createProfile clock id name avatar w)))
  /\ (keyed w -> keyed (snd (saveProfile clock profile w)))
  /\ (keyed w -> keyed (deleteProfile id w))
  /\ (keyed w -> keyed (setActiveProfile id w)).
Proof.
  split; [intros k p H; discriminate H|].
  split; [|split; [|split]]; intros Hk key p.
  - destruct (createProfile_fields id name avatar w) as (Hp & Hitem & Hother & _).
    destruct (String.eqb_spec key id) as [->|Hne].
    + rewrite Hitem, Hp. intro H. injection H as <-. reflexivity.
    + rewrite Hother by assumption. apply Hk.
  - destruct (saveProfile_fields profile w) as (_ & Hitem & Hother & _).
    destruct (String.eqb_spec key (Profile.id profile)) as [->|Hne].
    + rewrite Hitem. intro H. injection H as <-. reflexivity.
    + rewrite Hother by assumption. apply Hk.
  - destruct (deleteProfile_fields id w) as (Hitem & Hother & _).
    destruct (String.eqb_spec key id) as [->|Hne].
    + rewrite Hitem. discriminate.
    + rewrite Hother by assumption. apply Hk.
  - apply Hk.
Qed.

End Laws.

Definition ticks : nat -> Z := fun k => 1000 + Z.of_nat k.

(** A storage with one profile. *)
Definition oneProfile : World :=
  snd (createProfile ticks "k3x9q2a" "Ada" "A" emptyWorld).

Lemma first_created_profile_becomes_active_witness :
  getActiveProfile ticks oneProfile
  = (Some (fst (createProfile ticks "k3x9q2a" "Ada" "A" emptyWorld)), oneProfile).
Proof.
  refine (proj1 (proj2 (proj2
            (first_created_profile_becomes_active ticks "k3x9q2a" "Ada" "A" ""
               emptyWorld))) _ _ _).
  - reflexivity.
  - discriminate.
  - discriminate.
Defined.

Lemma created_profile_is_read_back_witness :
  getProfile ticks "k3x9q2a" oneProfile
  = (Some (fst (createProfile ticks "k3x9q2a" "Ada" "A" emptyWorld)), oneProfile).
Proof.
  refine (proj1 (proj2
            (created_profile_is_read_back ticks "k3x9q2a" "Ada" "A" "" emptyWorld)) _).
  discriminate.
Defined.

Lemma deleted_profile_is_gone_witness :
  activeProfile (getProfilesIndex (deleteProfile "k3x9q2a" oneProfile))
  = firstOrNull (profiles (getProfilesIndex (deleteProfile "k3x9q2a" oneProfile))).
Proof.
  refine (proj1 (proj2 (proj2 (proj2 (proj2
            (deleted_profile_is_gone ticks "k3x9q2a" "" oneProfile))))) _).
  reflexivity.
Defined.


End StorageServiceLaws.

(* ===================================================================== *)
(** * Properties of the application store                                *)
(* ===================================================================== *)

Module StoreLaws.
Import Store.

Section Laws.

Variable clock : nat -> Z.

(** ** The state synced from the scene *)

(** What the listeners do to [gameState]. *)
Definition sync (e : GameScene.Emitted) (gs : GameState) : GameState :=
  match e with
  | GameScene.problem_new equation _ _ =>
      {| score := score gs; streak := streak gs; bestStreak := bestStreak gs;
         correct := correct gs; xpEarned := xpEarned gs;
         currentEquation := equation; typedAnswer := "";
         lives := lives gs; maxLives := maxLives gs |}
  | GameScene.score_update score' streak' =>
      {| score := score'; streak := streak'; bestStreak := bestStreak gs;
         correct := correct gs; xpEarned := xpEarned gs;
         currentEquation := currentEquation gs; typedAnswer := typedAnswer gs;
         lives := lives gs; maxLives := maxLives gs |}
  | GameScene.answer_correct xp streak' =>
      {| score := score gs; streak := streak'; bestStreak := bestStreak gs;
         correct := correct gs + 1; xpEarned := xpEarned gs + xp;
         currentEquation := currentEquation gs; typedAnswer := typedAnswer gs;
         lives := lives gs; maxLives := maxLives gs |}
  | GameScene.answer_wrong =>
      {| score := score gs; streak := 0; bestStreak := bestStreak gs;
         correct := correct gs; xpEarned := xpEarned gs;
         currentEquation := currentEquation gs; typedAnswer := typedAnswer gs;
         lives := lives gs; maxLives := maxLives gs |}
  | GameScene.player_lives lives' =>
      {| score := score gs; streak := streak gs; bestStreak := bestStreak gs;
         correct := correct gs; xpEarned := xpEarned gs;
         currentEquation := currentEquation gs; typedAnswer := typedAnswer gs;
         lives := lives'; maxLives := maxLives gs |}
  | GameScene.game_over score' correct' xpEarned' bestStreak' =>
      {| score := score'; streak := streak gs; bestStreak := bestStreak';
         correct := correct'; xpEarned := xpEarned';
         currentEquation := currentEquation gs; typedAnswer := typedAnswer gs;
         lives := lives gs; maxLives := maxLives gs |}
  end.

Lemma listen_gameState (e : GameScene.Emitted) (app : t) :
  gameState (listen clock e app) = sync e (gameState app).
Proof.
  destruct e; try reflexivity.
  unfold listen. cbn [currentProfile set_gameState].
  destruct (currentProfile app) as [profile|]; [|reflexivity].
  match goal with |- context [if ?b then _ else _] => destruct b end;
    reflexivity.
Qed.

Lemma deliver_app (a b : list GameScene.Emitted) (app : t) :
  deliver clock (a ++ b) app = deliver clock b (deliver clock a app).
Proof. unfold deliver. apply fold_left_app. Qed.

Lemma deliver_gameState (events : list GameScene.Emitted) :
  forall app, gameState (deliver clock events app)
              = fold_left (fun gs e => sync e gs) events (gameState app).
Proof.
  induction events as [|e events IH]; intro app; [reflexivity|].
  cbn [deliver fold_left]. change (fold_left (fun a e0 => listen clock e0 a) events
                                     (listen clock e app))
    with (deliver clock events (listen clock e app)).
  rewrite IH, listen_gameState. reflexivity.
Qed.

(** The counters the store shows are those of the scene. *)
Definition mirrors (revision : GameScene.Revision) (gs : GameState)
    (s : GameScene.t) : Prop :=
  score gs = GameScene.score s
  /\ streak gs = GameScene.streak s
  /\ correct gs = GameScene.correctAnswers s
  /\ xpEarned gs = GameScene.xpEarned s
  /\ (GameScene.publishesLives revision = true -> lives gs = GameScene.playerLives s)
  /\ (forall problem, GameScene.currentProblem s = Some problem ->
        currentEquation gs = MathGenerator.equation problem).

Section Mirror.

Variable revision : GameScene.Revision.
Variable s0 : GameScene.t.
Variable gs0 : GameState.

(** While an input is handled: the events published since [s0], once
    delivered to a store that showed [gs0], make it show the counters of
    the scene. *)
Definition synced (s : GameScene.t) : Prop :=
  exists events,
    GameScene.emitted s = GameScene.emitted s0 ++ events
    /\ mirrors revision (fold_left (fun gs e => sync e gs) events gs0) s.

Lemma synced_fields (s s' : GameScene.t) :
  GameScene.score s = GameScene.score s' ->
  GameScene.streak s = GameScene.streak s' ->
  GameScene.correctAnswers s = GameScene.correctAnswers s' ->
  GameScene.xpEarned s = GameScene.xpEarned s' ->
  GameScene.playerLives s = GameScene.playerLives s' ->
  GameScene.currentProblem s = GameScene.currentProblem s' ->
  GameScene.emitted s = GameScene.emitted s' -> synced s -> synced s'.
Proof.
  intros H1 H2 H4 H5 H6 H10 He (events & Hev & Hm). exists events.
  split; [congruence|].
  unfold mirrors in *. rewrite <- H1, <- H2, <- H4, <- H5, <- H6, <- H10.
  exact Hm.
Qed.

Lemma synced_same (s s' : GameScene.t) :
  GameSceneSpec.core s = GameSceneSpec.core s' ->
  GameScene.emitted s = GameScene.emitted s' -> synced s -> synced s'.
Proof.
  intros Hc He. apply GameSceneSpec.core_fields in Hc.
  destruct Hc as (H1 & H2 & _ & H4 & H5 & H6 & _ & _ & _ & H10 & _).
  now apply synced_fields.
Qed.

Lemma synced_correct (now : Z) (s : GameScene.t) :
  synced s -> synced (GameScene.handleCorrectAnswer now s).
Proof.
  intros (events & Hev & (M1 & M2 & M3 & M4 & M5 & M6)).
  destruct (GameSceneSpec.handleCorrectAnswer_fields now s)
    as (E1 & E2 & _ & E4 & E5 & E6 & _ & _ & _ & E10 & _ & _ & _ & _ & E15).
  eexists. split; [rewrite E15, Hev, <- app_assoc; reflexivity|].
  rewrite fold_left_app. cbn [fold_left sync].
  unfold mirrors. cbn [score streak correct xpEarned lives currentEquation].
  rewrite E1, E2, E4, E5, E6, E10.
  repeat split; try assumption; lia.
Qed.

Lemma synced_wrong (s : GameScene.t) :
  synced s -> synced (GameScene.handleWrongAnswer revision s).
Proof.
  intros (events & Hev & (M1 & M2 & M3 & M4 & M5 & M6)).
  destruct (GameSceneSpec.handleWrongAnswer_fields revision s)
    as (E1 & E2 & _ & E4 & E5 & E6 & _ & E8 & _ & _ & _ & _ & _ & _ & E15).
  eexists. split; [rewrite E15, Hev, <- app_assoc; reflexivity|].
  rewrite !fold_left_app.
  unfold mirrors. rewrite E1, E2, E4, E5, E6, E8.
  destruct (GameScene.publishesLives revision);
    destruct (GameScene.playerLives s - 1 <=? 0);
    cbn [fold_left sync score streak correct xpEarned lives currentEquation];
    repeat split; try assumption; try reflexivity; try discriminate.
Qed.

Lemma synced_refl : mirrors revision gs0 s0 -> synced s0.
Proof. intro H. exists []. rewrite app_nil_r. split; [reflexivity | exact H]. Qed.

Lemma synced_step (i : GameScene.Input) :
  (forall data, i <> GameScene.SceneStart data) ->
  mirrors revision gs0 s0 -> synced (GameScene.step revision s0 i).
Proof.
  intros Hi H0. pose proof (synced_refl H0) as Hs.
  destruct i as [data|random now|frame|answer now| | |].
  - exfalso. now apply (Hi data).
  - cbn [GameScene.step]. destruct (GameScene.isPaused s0); [assumption|].
    destruct (GameScene.timers s0) as [|n]; [assumption|].
    destruct (GameSceneLaws.generateNewProblem_event random now
                (GameScene.set_timers n s0))
      as [->|(g & ws & _ & Hp & He)].
    + apply (synced_same s0); [reflexivity | reflexivity | assumption].
    + destruct (GameSceneSpec.generateNewProblem_fields random now
                  (GameScene.set_timers n s0))
        as (E1 & E2 & _ & E4 & E5 & E6 & _).
      destruct H0 as (M1 & M2 & M3 & M4 & M5 & M6).
      eexists. split; [exact He|].
      unfold mirrors. cbn [fold_left sync score streak correct xpEarned lives
                             currentEquation].
      rewrite E1, E2, E4, E5, E6, Hp.
      repeat split; try assumption.
      intros problem Hproblem. injection Hproblem as <-. reflexivity.
  - cbn [GameScene.step].
    apply (GameSceneLaws.update_trace revision synced synced_same synced_correct
             synced_wrong frame s0 Hs).
  - cbn [GameScene.step].
    apply (GameSceneLaws.answerSubmit_trace revision synced synced_same
             synced_correct synced_wrong _ _ _ s0 Hs).
  - apply (synced_fields s0); try reflexivity; assumption.
  - apply (synced_fields s0); try reflexivity; assumption.
  - apply (synced_fields s0); try reflexivity; assumption.
Qed.

End Mirror.

(** X27.  The counters the store shows follow the scene.  After
    [startGame] and the start of the scene they agree with the scene
    (all zero, five lives when the scene publishes its lives, no
    equation); and if they agree before an input of the scene, they
    agree again once the listeners have run for every event the input
    published: score, streak, number of correct answers, experience
    earned, the lives (for the revision that publishes them) and the
    text of the current problem. *)
Theorem store_mirrors_the_scene
    (revision : GameScene.Revision) (s : GameScene.t) (i : GameScene.Input)
    (app : t) (mode : GameScene.GameMode) (data : GameScene.InitData) :
  mirrors revision
    (gameState
       (deliver clock
          (GameScene.published s (GameScene.step revision s (GameScene.SceneStart data)))
          (fst (startGame mode app))))
    (GameScene.step revision s (GameScene.SceneStart data))
  /\ ((forall d, i <> GameScene.SceneStart d) ->
      mirrors revision (gameState app) s ->
      mirrors revision
        (gameState (deliver clock (GameScene.published s (GameScene.step revision s i))
                      app))
        (GameScene.step revision s i)).
Proof.
  split.
  - destruct (GameSceneSpec.sceneStart_fields revision data s)
      as (E1 & E2 & _ & E4 & E5 & E6 & _ & _ & E9 & _ & E11).
    rewrite E11, deliver_gameState. unfold mirrors.
    rewrite E1, E2, E4, E5, E6, E9.
    destruct revision; cbn; repeat split; congruence.
  - intros Hi Hm.
    destruct (synced_step revision s (gameState app) i Hi Hm) as (events & Hev & H).
    rewrite (GameSceneSpec.published_app _ _ _ Hev), deliver_gameState.
    exact H.
Qed.

(** ** The end of a session and the profile *)

(** The profile of the store after a session that ended with the given
    summary, saved at [time]. *)
Definition banked (profile : Profile.t) (correct xpEarned bestStreak time : Z)
    : Profile.t :=
  Profile.set_lastPlayed time
    (Profile.set_progress
       (if Profile.evolutionStage (Profile.progress profile)
           <? Evolution.getEvolutionStage
                (Profile.xp (Profile.progress profile) + xpEarned)
        then set_evolutionStage
               (Evolution.getEvolutionStage
                  (Profile.xp (Profile.progress profile) + xpEarned))
               (bank correct xpEarned bestStreak (Profile.progress profile))
        else bank correct xpEarned bestStreak (Profile.progress profile))
       profile).

Lemma listen_game_over (app : t) (profile : Profile.t)
    (score' correct' xpEarned' bestStreak' : Z) :
  currentProfile app = Some profile ->
  currentProfile (listen clock (GameScene.game_over score' correct' xpEarned' bestStreak') app)
  = Some (banked profile correct' xpEarned' bestStreak'
            (clock (StorageService.reads (storage app))))
  /\ screen (listen clock (GameScene.game_over score' correct' xpEarned' bestStreak') app)
     = (if Profile.evolutionStage (Profile.progress profile)
           <? Evolution.getEvolutionStage
                (Profile.xp (Profile.progress profile) + xpEarned')
        then "evolution"%string else "gameover"%string)
  /\ evolutionData
       (listen clock (GameScene.game_over score' correct' xpEarned' bestStreak') app)
     = (if Profile.evolutionStage (Profile.progress profile)
           <? Evolution.getEvolutionStage
                (Profile.xp (Profile.progress profile) + xpEarned')
        then (Profile.evolutionStage (Profile.progress profile),
              Evolution.getEvolutionStage
                (Profile.xp (Profile.progress profile) + xpEarned'))
        else evolutionData app)
  /\ storage (listen clock (GameScene.game_over score' correct' xpEarned' bestStreak') app)
     = snd (StorageService.saveProfile clock
              (banked profile correct' xpEarned' bestStreak'
                 (Profile.lastPlayed profile))
              (storage app)).
Proof.
  intro Hp. unfold listen, banked. cbn [currentProfile set_gameState]. rewrite Hp.
  cbn [bank Profile.xp].
  destruct (Profile.evolutionStage (Profile.progress profile)
            <? Evolution.getEvolutionStage
                 (Profile.xp (Profile.progress profile) + xpEarned'));
    repeat split; reflexivity.
Qed.

(** X28.  When the session ends, the [game:over] listener adds the
    experience earned to the profile's experience and the number of
    correct answers both to its correct answers and to its total of
    problems, raises its best streak to the session's if that is larger,
    and raises its stage to the one of the new experience if that is
    higher; it shows the evolution screen (with the old and the new
    stage) exactly when the stage rose, and the game-over screen
    otherwise; and it saves the profile: reading it back from storage
    gives the very profile the store now holds. *)
Theorem game_over_banks_the_session
    (app : t) (profile : Profile.t) (score' correct' xpEarned' bestStreak' : Z) :
  currentProfile app = Some profile ->
  Profile.avatar profile <> ""%string ->
  exists saved,
    currentProfile (listen clock (GameScene.game_over score' correct' xpEarned' bestStreak') app)
    = Some saved
    /\ Profile.xp (Profile.progress saved)
       = Profile.xp (Profile.progress profile) + xpEarned'
    /\ Profile.correctAnswers (Profile.progress saved)
       = Profile.correctAnswers (Profile.progress profile) + correct'
    /\ Profile.totalProblems (Profile.progress saved)
       = Profile.totalProblems (Profile.progress profile) + correct'
    /\ Profile.bestStreak (Profile.progress saved)
       = Z.max (Profile.bestStreak (Profile.progress profile)) bestStreak'
    /\ Profile.evolutionStage (Profile.progress saved)
       = Z.max (Profile.evolutionStage (Profile.progress profile))
           (Evolution.getEvolutionStage (Profile.xp (Profile.progress saved)))
    /\ screen (listen clock (GameScene.game_over score' correct' xpEarned' bestStreak') app)
       = (if Profile.evolutionStage (Profile.progress profile)
             <? Profile.evolutionStage (Profile.progress saved)
          then "evolution"%string else "gameover"%string)
    /\ (Profile.evolutionStage (Profile.progress profile)
        < Profile.evolutionStage (Profile.progress saved) ->
        evolutionData
          (listen clock (GameScene.game_over score' correct' xpEarned' bestStreak') app)
        = (Profile.evolutionStage (Profile.progress profile),
           Profile.evolutionStage (Profile.progress saved)))
    /\ (Profile.id saved, Profile.name saved, Profile.avatar saved,
        Profile.createdAt saved, Profile.settings saved)
       = (Profile.id profile, Profile.name profile, Profile.avatar profile,
          Profile.createdAt profile, Profile.settings profile)
    /\ StorageService.getProfile clock (Profile.id profile)
         (storage (listen clock (GameScene.game_over score' correct' xpEarned' bestStreak') app))
       = (Some saved,
          storage (listen clock (GameScene.game_over score' correct' xpEarned' bestStreak') app)).
Proof.
  intros Hp Havatar.
  destruct (listen_game_over app profile score' correct' xpEarned' bestStreak' Hp)
    as (Hc & Hs & He & Hst).
  eexists. split; [exact Hc|].
  rewrite Hs, He, Hst. unfold banked.
  destruct (Z.ltb_spec (Profile.evolutionStage (Profile.progress profile))
              (Evolution.getEvolutionStage
                 (Profile.xp (Profile.progress profile) + xpEarned'))) as [Hlt|Hge];
    cbn [Profile.progress Profile.set_lastPlayed Profile.set_progress
         Profile.xp Profile.correctAnswers Profile.totalProblems
         Profile.bestStreak Profile.evolutionStage bank set_evolutionStage
         Profile.id Profile.name Profile.avatar Profile.createdAt Profile.settings].
  - split; [reflexivity|]. split; [reflexivity|]. split; [reflexivity|].
    split; [destruct (Z.ltb_spec (Profile.bestStreak (Profile.progress profile))
                        bestStreak'); lia|].
    split; [lia|].
    split.
    { destruct (Z.ltb_spec (Profile.evolutionStage (Profile.progress profile))
                  (Evolution.getEvolutionStage
                     (Profile.xp (Profile.progress profile) + xpEarned')));
        [reflexivity | lia]. }
    split; [reflexivity|]. split; [reflexivity|].
    apply StorageServiceLaws.getProfile_stored; [|exact Havatar].
    unfold StorageService.saveProfile, StorageService.now,
      StorageService.setProfileItem. cbn. rewrite String.eqb_refl. reflexivity.
  - split; [reflexivity|]. split; [reflexivity|]. split; [reflexivity|].
    split; [destruct (Z.ltb_spec (Profile.bestStreak (Profile.progress profile))
                        bestStreak'); lia|].
    split; [lia|].
    split; [rewrite Z.ltb_irrefl; reflexivity|].
    split; [lia|]. split; [reflexivity|].
    apply StorageServiceLaws.getProfile_stored; [|exact Havatar].
    unfold StorageService.saveProfile, StorageService.now,
      StorageService.setProfileItem. cbn. rewrite String.eqb_refl. reflexivity.
Qed.

(** ** Stage and experience of a profile *)

(** The sum of [f] over the events. *)
Definition sumOf (f : GameScene.Emitted -> Z) (events : list GameScene.Emitted) : Z :=
  fold_right (fun e total => f e + total) 0 events.

(** The stage of the profile is the one of its experience. *)
Definition consistent (profile : Profile.t) : Prop :=
  0 <= Profile.xp (Profile.progress profile)
  /\ Profile.evolutionStage (Profile.progress profile)
     = Evolution.getEvolutionStage (Profile.xp (Profile.progress profile)).

Lemma listen_consistent (e : GameScene.Emitted) (app : t) (profile : Profile.t) :
  currentProfile app = Some profile -> consistent profile ->
  0 <= GameSceneLaws.earned e ->
  exists profile',
    currentProfile (listen clock e app) = Some profile'
    /\ consistent profile'
    /\ Profile.id profile' = Profile.id profile
    /\ Profile.xp (Profile.progress profile')
       = Profile.xp (Profile.progress profile) + GameSceneLaws.earned e
    /\ Profile.correctAnswers (Profile.progress profile')
       = Profile.correctAnswers (Profile.progress profile) + GameSceneLaws.solved e
    /\ Profile.totalProblems (Profile.progress profile')
       = Profile.totalProblems (Profile.progress profile) + GameSceneLaws.solved e.
Proof.
  intros Hp [Hxp Hstage] He.
  assert (Hsame : forall app', currentProfile app' = Some profile ->
            GameSceneLaws.earned e = 0 -> GameSceneLaws.solved e = 0 ->
            exists profile',
              currentProfile app' = Some profile'
              /\ consistent profile'
              /\ Profile.id profile' = Profile.id profile
              /\ Profile.xp (Profile.progress profile')
                 = Profile.xp (Profile.progress profile) + GameSceneLaws.earned e
              /\ Profile.correctAnswers (Profile.progress profile')
                 = Profile.correctAnswers (Profile.progress profile)
                   + GameSceneLaws.solved e
              /\ Profile.totalProblems (Profile.progress profile')
                 = Profile.totalProblems (Profile.progress profile)
                   + GameSceneLaws.solved e).
  { intros app' H' E1 E2. exists profile. rewrite E1, E2, !Z.add_0_r.
    repeat split; assumption. }
  destruct e as [equation answer wrong|xp streak| |score' streak'|lives'
                |score' correct' xpEarned' bestStreak'];
    try (apply Hsame; [exact Hp | reflexivity | reflexivity]).
  cbn [GameSceneLaws.earned GameSceneLaws.solved] in *.
  destruct (listen_game_over app profile score' correct' xpEarned' bestStreak' Hp)
    as (Hc & _).
  eexists. split; [exact Hc|]. unfold banked, consistent.
  pose proof (EvolutionSpec.getEvolutionStage_mono
                (Profile.xp (Profile.progress profile))
                (Profile.xp (Profile.progress profile) + xpEarned') ltac:(lia))
    as Hmono.
  destruct (Z.ltb_spec (Profile.evolutionStage (Profile.progress profile))
              (Evolution.getEvolutionStage
                 (Profile.xp (Profile.progress profile) + xpEarned'))) as [Hlt|Hge];
    cbn [Profile.progress Profile.set_lastPlayed Profile.set_progress
         Profile.xp Profile.correctAnswers Profile.totalProblems
         Profile.evolutionStage bank set_evolutionStage Profile.id];
    repeat split; try reflexivity; lia.
Qed.

Lemma deliver_consistent (events : list GameScene.Emitted) :
  forall (app : t) (profile : Profile.t),
    currentProfile app = Some profile -> consistent profile ->
    Forall (fun e => 0 <= GameSceneLaws.earned e /\ 0 <= GameSceneLaws.solved e) events ->
    exists profile',
      currentProfile (deliver clock events app) = Some profile'
      /\ consistent profile'
      /\ Profile.id profile' = Profile.id profile
      /\ Profile.xp (Profile.progress profile')
         = Profile.xp (Profile.progress profile) + sumOf GameSceneLaws.earned events
      /\ Profile.correctAnswers (Profile.progress profile')
         = Profile.correctAnswers (Profile.progress profile)
           + sumOf GameSceneLaws.solved events
      /\ Profile.totalProblems (Profile.progress profile')
         = Profile.totalProblems (Profile.progress profile)
           + sumOf GameSceneLaws.solved events.
Proof.
  induction events as [|e events IH]; intros app profile Hp Hc Hall.
  - exists profile. cbn. rewrite !Z.add_0_r. repeat split; try assumption;
      apply Hc.
  - inversion Hall as [|? ? [He _] Hrest]; subst.
    destruct (listen_consistent e app profile Hp Hc He)
      as (p1 & Hp1 & Hc1 & Hid1 & Hx1 & Hs1 & Ht1).
    destruct (IH (listen clock e app) p1 Hp1 Hc1 Hrest)
      as (p2 & Hp2 & Hc2 & Hid2 & Hx2 & Hs2 & Ht2).
    exists p2. cbn [deliver fold_left sumOf fold_right].
    split; [exact Hp2|]. split; [exact Hc2|].
    fold (sumOf GameSceneLaws.earned events).
    fold (sumOf GameSceneLaws.solved events).
    repeat split; try congruence; lia.
Qed.

(** X29.  Whatever a scene has done, once its events have been delivered
    to a store whose profile had the stage of its (non-negative)
    experience, as every created profile has: the profile has gained the
    experience of every published summary and as many correct answers
    and problems as they report, nothing is lost; its stage is again the
    stage of its experience; and so the progress the store shows for it
    is a percentage from 0 to 100. *)
Theorem profile_stage_follows_experience
    (revision : GameScene.Revision) (s : GameScene.t) (app : t)
    (profile : Profile.t) :
  GameScene.reachable revision s ->
  currentProfile app = Some profile ->
  0 <= Profile.xp (Profile.progress profile) ->
  Profile.evolutionStage (Profile.progress profile)
  = Evolution.getEvolutionStage (Profile.xp (Profile.progress profile)) ->
  exists profile',
    currentProfile (deliver clock (GameScene.emitted s) app) = Some profile'
    /\ Profile.id profile' = Profile.id profile
    /\ Profile.xp (Profile.progress profile')
       = Profile.xp (Profile.progress profile)
         + sumOf GameSceneLaws.earned (GameScene.emitted s)
    /\ Profile.xp (Profile.progress profile) <= Profile.xp (Profile.progress profile')
    /\ Profile.correctAnswers (Profile.progress profile')
       = Profile.correctAnswers (Profile.progress profile)
         + sumOf GameSceneLaws.solved (GameScene.emitted s)
    /\ Profile.totalProblems (Profile.progress profile')
       = Profile.totalProblems (Profile.progress profile)
         + sumOf GameSceneLaws.solved (GameScene.emitted s)
    /\ Profile.evolutionStage (Profile.progress profile')
       = Evolution.getEvolutionStage (Profile.xp (Profile.progress profile'))
    /\ Evolution.isPercentage
         (getEvolutionProgress (deliver clock (GameScene.emitted s) app)).
Proof.
  intros Hr Hp Hxp Hstage.
  pose proof (GameSceneLaws.reachable_trace_nonneg revision s Hr) as Hall.
  destruct (deliver_consistent (GameScene.emitted s) app profile Hp
              (conj Hxp Hstage) Hall)
    as (p' & Hp' & (Hxp' & Hstage') & Hid & Hx & Hs & Ht).
  exists p'. split; [exact Hp'|]. split; [exact Hid|]. split; [exact Hx|].
  split.
  { rewrite Hx.
    assert (0 <= sumOf GameSceneLaws.earned (GameScene.emitted s)); [|lia].
    clear -Hall. induction Hall as [|e l [He _] _ IH]; [cbn; lia|].
    cbn [sumOf fold_right]. fold (sumOf GameSceneLaws.earned l). lia. }
  split; [exact Hs|]. split; [exact Ht|]. split; [exact Hstage'|].
  unfold getEvolutionProgress. rewrite Hp', Hstage'.
  now apply EvolutionLaws.computed_stage_percentage.
Qed.

(** ** Reloading the application *)

Lemma init_restores (w : StorageService.World) (profile : Profile.t) :
  StorageServiceLaws.keyed w ->
  StorageService.profileItem w (Profile.id profile)
  = Some (StorageService.Json profile) ->
  StorageService.activeProfile (StorageService.getProfilesIndex w)
  = Some (Profile.id profile) ->
  Profile.id profile <> ""%string -> Profile.avatar profile <> ""%string ->
  currentProfile (init clock (initial w)) = Some profile
  /\ screen (init clock (initial w)) = "menu"%string
  /\ selectedDifficulty (init clock (initial w))
     = GameScene.orOne (Profile.difficulty (Profile.settings profile)).
Proof.
  intros Hk Hitem Hactive Hid Havatar.
  unfold init, initial. cbn [storage set_storage].
  destruct (StorageServiceLaws.getAllProfiles_spec clock w Hk)
    as (_ & _ & Hindex & Hk1 & _).
  pose proof (StorageServiceLaws.collectProfiles_keeps clock (Profile.id profile)
                profile
                (StorageService.profiles (StorageService.getProfilesIndex w)) [] w
                Hk Hitem Havatar) as Hkeep.
  change (StorageService.collectProfiles clock
            (StorageService.profiles (StorageService.getProfilesIndex w)) [] w)
    with (StorageService.getAllProfiles clock w) in Hkeep.
  destruct (StorageService.getAllProfiles clock w) as [found w1].
  cbn [fst snd] in *. cbn [storage set_storage].
  unfold StorageService.getActiveProfile. rewrite Hindex, Hactive.
  destruct (String.eqb_spec (Profile.id profile) ""); [contradiction|].
  rewrite (StorageServiceLaws.getProfile_stored clock _ _ _ Hkeep Havatar).
  repeat split.
Qed.

(** X30.  The progress banked at the end of a session survives a reload
    of the application: when the profile of the store is the active
    profile of the storage, the store that [init] builds from the storage
    left by the [game:over] listener holds the very profile the old
    store held, shows the menu, and has the difficulty of the profile's
    settings selected. *)
Theorem banked_progress_survives_a_reload
    (app : t) (profile : Profile.t) (score' correct' xpEarned' bestStreak' : Z) :
  currentProfile app = Some profile ->
  StorageServiceLaws.keyed (storage app) ->
  StorageService.activeProfile (StorageService.getProfilesIndex (storage app))
  = Some (Profile.id profile) ->
  Profile.id profile <> ""%string -> Profile.avatar profile <> ""%string ->
  currentProfile
    (init clock
       (initial
          (storage (listen clock
                      (GameScene.game_over score' correct' xpEarned' bestStreak') app))))
  = currentProfile
      (listen clock (GameScene.game_over score' correct' xpEarned' bestStreak') app)
  /\ screen
       (init clock
          (initial
             (storage (listen clock
                         (GameScene.game_over score' correct' xpEarned' bestStreak')
                         app))))
     = "menu"%string
  /\ selectedDifficulty
       (init clock
          (initial
             (storage (listen clock
                         (GameScene.game_over score' correct' xpEarned' bestStreak')
                         app))))
     = GameScene.orOne (Profile.difficulty (Profile.settings profile)).
Proof.
  intros Hp Hk Hactive Hid Havatar.
  destruct (listen_game_over app profile score' correct' xpEarned' bestStreak' Hp)
    as (Hc & _ & _ & Hst).
  rewrite Hc, Hst.
  set (saved := banked profile correct' xpEarned' bestStreak'
                  (clock (StorageService.reads (storage app)))).
  set (unsaved := banked profile correct' xpEarned' bestStreak'
                    (Profile.lastPlayed profile)).
  destruct (StorageServiceLaws.saveProfile_fields clock unsaved (storage app))
    as (_ & Hitem & _ & Hindex & _).
  destruct (StorageServiceLaws.keyed_maintained clock "" "" "" unsaved (storage app))
    as (_ & _ & Hkeyed & _).
  assert (Hsettings : Profile.settings saved = Profile.settings profile)
    by reflexivity.
  rewrite <- Hsettings.
  apply init_restores.
  - apply Hkeyed, Hk.
  - exact Hitem.
  - rewrite (StorageServiceLaws.getProfilesIndex_ext _ _ Hindex). exact Hactive.
  - exact Hid.
  - exact Havatar.
Qed.

End Laws.

(** ** The laws on an example *)

(** A store that holds the one profile of the example storage. *)
Definition adaStore : t :=
  init StorageServiceLaws.ticks (initial StorageServiceLaws.oneProfile).

Definition ada : Profile.t :=
  fst (StorageService.createProfile StorageServiceLaws.ticks "k3x9q2a" "Ada" "A"
         StorageService.emptyWorld).

Lemma adaStore_profile : currentProfile adaStore = Some ada.
Proof. vm_compute. reflexivity. Qed.

Lemma adaStore_storage : storage adaStore = StorageServiceLaws.oneProfile.
Proof. vm_compute. reflexivity. Qed.

Lemma adaStore_keyed : StorageServiceLaws.keyed (storage adaStore).
Proof.
  rewrite adaStore_storage.
  apply (proj1 (proj2 (StorageServiceLaws.keyed_maintained StorageServiceLaws.ticks
                         "k3x9q2a" "Ada" "A" ada StorageService.emptyWorld))).
  intros k p H. discriminate H.
Qed.

(** The store of the example after [startGame] in type mode, once the
    scene has started and issued its first problem. *)
Definition adaPlaying : t :=
  deliver StorageServiceLaws.ticks (GameScene.emitted GameSceneSpec.firstTypeProblem)
    (fst (startGame GameScene.type adaStore)).

Lemma store_mirrors_the_scene_witness :
  mirrors GameScene.FiveLives
    (gameState
       (deliver StorageServiceLaws.ticks
          (GameScene.published GameSceneSpec.firstTypeProblem
             (GameScene.step GameScene.FiveLives GameSceneSpec.firstTypeProblem
                (GameScene.AnswerSubmit 12 2000)))
          adaPlaying))
    (GameScene.step GameScene.FiveLives GameSceneSpec.firstTypeProblem
       (GameScene.AnswerSubmit 12 2000))
  /\ GameScene.published GameSceneSpec.firstTypeProblem
       (GameScene.step GameScene.FiveLives GameSceneSpec.firstTypeProblem
          (GameScene.AnswerSubmit 12 2000))
     = [GameScene.answer_correct 17 1; GameScene.score_update 110 1]
  /\ score
       (gameState
          (deliver StorageServiceLaws.ticks
             (GameScene.published GameSceneSpec.firstTypeProblem
                (GameScene.step GameScene.FiveLives GameSceneSpec.firstTypeProblem
                   (GameScene.AnswerSubmit 12 2000)))
             adaPlaying))
     = 110.
Proof.
  split; [|split; vm_compute; reflexivity].
  refine (proj2 (store_mirrors_the_scene StorageServiceLaws.ticks GameScene.FiveLives
                   GameSceneSpec.firstTypeProblem
                   (GameScene.AnswerSubmit 12 2000)
                   adaPlaying
                   GameScene.type GameSceneSpec.typeSession) _ _).
  - intros d H. discriminate H.
  - unfold mirrors.
    split; [vm_compute; reflexivity|].
    split; [vm_compute; reflexivity|].
    split; [vm_compute; reflexivity|].
    split; [vm_compute; reflexivity|].
    split; [intros _; vm_compute; reflexivity|].
    intros problem H.
    rewrite (proj1 GameSceneSpec.firstTypeProblem_state) in H.
    injection H as <-. vm_compute. reflexivity.
Defined.

Lemma game_over_banks_the_session_witness :
  exists saved,
    currentProfile (listen StorageServiceLaws.ticks (GameScene.game_over 230 2 36 2)
                      adaStore)
    = Some saved
    /\ Profile.xp (Profile.progress saved) = Profile.xp (Profile.progress ada) + 36.
Proof.
  destruct (game_over_banks_the_session StorageServiceLaws.ticks adaStore ada
              230 2 36 2) as (saved & H1 & H2 & _).
  - vm_compute. reflexivity.
  - vm_compute. discriminate.
  - exists saved. split; [exact H1 | exact H2].
Defined.

Lemma profile_stage_follows_experience_witness :
  exists profile',
    currentProfile (deliver StorageServiceLaws.ticks
                      (GameScene.emitted GameSceneLaws.lostSession) adaStore)
    = Some profile'
    /\ Profile.evolutionStage (Profile.progress profile')
       = Evolution.getEvolutionStage (Profile.xp (Profile.progress profile')).
Proof.
  destruct (profile_stage_follows_experience StorageServiceLaws.ticks
              GameScene.FiveLives GameSceneLaws.lostSession adaStore ada)
    as (p' & H1 & _ & _ & _ & _ & _ & H7 & _).
  - exact GameSceneLaws.lostSession_reachable.
  - vm_compute. reflexivity.
  - vm_compute. discriminate.
  - reflexivity.
  - exists p'. split; [exact H1 | exact H7].
Defined.

Lemma banked_progress_survives_a_reload_witness :
  currentProfile
    (init StorageServiceLaws.ticks
       (initial
          (storage (listen StorageServiceLaws.ticks (GameScene.game_over 230 2 36 2)
                      adaStore))))
  = currentProfile
      (listen StorageServiceLaws.ticks (GameScene.game_over 230 2 36 2) adaStore).
Proof.
  refine (proj1 (banked_progress_survives_a_reload StorageServiceLaws.ticks adaStore
                   ada 230 2 36 2 _ _ _ _ _)).
  - vm_compute. reflexivity.
  - exact adaStore_keyed.
  - vm_compute. reflexivity.
  - vm_compute. discriminate.
  - vm_compute. discriminate.
Defined.

End StoreLaws.
